(** * x2wechat: the incremental sync engine of [x2wechat.py]

    A shallow embedding of the fetch / filter / deliver / checkpoint code of
    [x2wechat.py], and the properties of its behaviour.

    Conventions of the model.
    - A Python [str] is held as the string of the bytes of its UTF-8
      encoding (so are the [bytes] of a response).  A character of the text
      is a byte that is not a continuation byte together with the
      continuation bytes that follow it ([Py.chars]); what Python does per
      character (slices, [strip], the classes of [re], [int]) is done per
      character.  Concatenation, equality, the order of two texts and the
      replacement of an ASCII text are the same on the bytes as on the
      characters.  Lone surrogates are left out.
    - The classes of the Unicode database outside ASCII (decimal digits,
      alphanumeric characters) and the interpreter's limit on the digits of
      an integer text are parameters of the host.
    - Python integers are [Z].
    - A [dict] keyed by strings is a [gmap string _].  What the checkpoint
      stores is whatever JSON the file held: the value under ["users"] may be
      no dictionary, and the value stored for an account may be any JSON
      value.  JSON numbers with a fraction or an exponent (Python floats)
      are left out.  [run_once] is given dictionaries as [config] and
      [state], and the configuration holds values of the types the source
      annotates at lines 289-301.
    - The network is a parameter: [urlopen] answers a request from the
      current state of an abstract world.  An exchange ends in a response,
      in an [HTTPError], in a [URLError], or in any other exception, which
      the [http_*] functions do not catch.
    - A computation that raises ends in [Raise].
    - What the program does is recorded as a trace of events: the requests
      it submits, each with how it ended, and the lines it prints. *)

From Stdlib Require Import ZArith String Ascii List Bool Lia Sorted.
From stdpp Require Import base option list gmap strings pretty.

Set Warnings "-register-all".

Local Open Scope string_scope.
Local Open Scope Z_scope.
Local Open Scope list_scope.

(** ** Python primitives *)

Module Py.

(** The ASCII decimal digits. *)
Definition is_digit (c : ascii) : bool :=
  match Ascii.is_nat c with Some _ => true | None => false end.

(** The ASCII word characters: letters, digits, underscore. *)
Definition is_word (c : ascii) : bool :=
  let n := N_of_ascii c in
  ((48 <=? n) && (n <=? 57) || (65 <=? n) && (n <=? 90)
   || (97 <=? n) && (n <=? 122) || (n =? 95))%N.

(** *** Characters *)

(** A continuation byte of UTF-8: [10xxxxxx]. *)
Definition is_cont (c : ascii) : bool :=
  let n := N_of_ascii c in ((128 <=? n) && (n <? 192))%N.

Definition starts_cont (s : string) : bool :=
  match s with String b _ => is_cont b | EmptyString => false end.

(** The byte [a] in front of the characters [cs]: it takes the first of them
    as its continuation if that starts with a continuation byte. *)
Definition glue (a : ascii) (cs : list string) : list string :=
  match cs with
  | c :: cs' => if starts_cont c then String a c :: cs' else String a "" :: cs
  | [] => [String a ""]
  end.

(** The characters of a text, in order. *)
Fixpoint chars (s : string) : list string :=
  match s with
  | EmptyString => []
  | String a s' => glue a (chars s')
  end.

Fixpoint all_cont (s : string) : bool :=
  match s with
  | EmptyString => true
  | String a s' => is_cont a && all_cont s'
  end.

(** A byte with continuation bytes after it, and nothing else. *)
Definition is_char (c : string) : bool :=
  match c with String _ t => all_cont t | EmptyString => false end.

(** A character whose first byte is no continuation byte. *)
Definition is_lead_char (c : string) : bool :=
  match c with String a t => negb (is_cont a) && all_cont t | EmptyString => false end.

(** The list is a text cut into its characters. *)
Definition well_split (cs : list string) : Prop :=
  Forall (λ c, is_char c = true) cs ∧ Forall (λ c, is_lead_char c = true) (tail cs).

(** The text made of the characters. *)
Definition join (cs : list string) : string := foldr String.append "" cs.

(** [len(s)] *)
Definition len (s : string) : nat := length (chars s).

(** [s[:n]] for a non-negative [n]. *)
Definition take (n : nat) (s : string) : string := join (list.take n (chars s)).

(** [bool(s)] for a string: non-empty. *)
Definition truthy (s : string) : bool :=
  match s with EmptyString => false | String _ _ => true end.

Definition of_bytes (l : list N) : string :=
  foldr (λ n s, String (ascii_of_N n) s) "" l.

(** The white-space characters of [str.strip()] and [str.isspace()]:
    U+0009-000D, U+001C-0020, U+0085, U+00A0, U+1680, U+2000-200A, U+2028,
    U+2029, U+202F, U+205F, U+3000. *)
Definition space_chars : list string :=
  of_bytes <$>
    [ [9]; [10]; [11]; [12]; [13]; [28]; [29]; [30]; [31]; [32];
      [194; 133]; [194; 160]; [225; 154; 128];
      [226; 128; 128]; [226; 128; 129]; [226; 128; 130]; [226; 128; 131];
      [226; 128; 132]; [226; 128; 133]; [226; 128; 134]; [226; 128; 135];
      [226; 128; 136]; [226; 128; 137]; [226; 128; 138];
      [226; 128; 168]; [226; 128; 169]; [226; 128; 175]; [226; 129; 159];
      [227; 128; 128] ]%N.

Definition is_space (c : string) : bool := existsb (String.eqb c) space_chars.

Fixpoint drop_while {A} (p : A → bool) (l : list A) : list A :=
  match l with
  | x :: l' => if p x then drop_while p l' else l
  | [] => []
  end.

(** [s.strip()] *)
Definition strip (s : string) : string :=
  join (reverse (drop_while is_space (reverse (drop_while is_space (chars s))))).

(** *** Bytes at the ends *)

Fixpoint lstrip_by (p : ascii → bool) (s : string) : string :=
  match s with
  | String a s' => if p a then lstrip_by p s' else s
  | EmptyString => EmptyString
  end.

Definition rstrip_by (p : ascii → bool) (s : string) : string :=
  String.rev (lstrip_by p (String.rev s)).

(** [s.rstrip("/")] *)
Definition rstrip_slash (s : string) : string :=
  rstrip_by (λ c, Ascii.eqb c "/"%char) s.

(** [s.replace(old, new)] for a non-empty [old]: occurrences are replaced
    left to right, and the scan resumes after each replaced occurrence.
    [skip] counts the bytes of an occurrence still to be passed. *)
Fixpoint replace_go (old new : string) (skip : nat) (s : string) : string :=
  match s with
  | EmptyString => EmptyString
  | String a s' =>
      match skip with
      | S k => replace_go old new k s'
      | O =>
          if String.prefix old s
          then new +:+ replace_go old new (Nat.pred (String.length old)) s'
          else String a (replace_go old new O s')
      end
  end.
Definition replace (old new s : string) : string := replace_go old new O s.

(** *** [int(s)] on a string

    The text is first brought to ASCII, character by character: a character
    below U+007F stays, a white-space character outside ASCII becomes a
    space, a decimal digit outside ASCII becomes the ASCII digit of its
    value, and any other character makes the conversion fail.  The ASCII
    text is then read: white space around, an optional sign, decimal digits
    where single underscores may separate digits; and the number of digits
    must not exceed the limit of the interpreter, if it has one.  [None]
    stands for [ValueError]. *)

Fixpoint all_space (s : string) : bool :=
  match s with
  | EmptyString => true
  | String a s' => Ascii.is_space a && all_space s'
  end.

(** The digits after the first one; [us] tells that the previous character
    was an underscore. *)
Fixpoint int_digits (acc : Z) (us : bool) (s : string) : option Z :=
  match s with
  | EmptyString => if us then None else Some acc
  | String a s' =>
      match Ascii.is_nat a with
      | Some d => int_digits (10 * acc + Z.of_nat d) false s'
      | None =>
          if us then None
          else if Ascii.eqb a "_"%char then int_digits acc true s'
          else if all_space s then Some acc else None
      end
  end.

Definition int_unsigned (s : string) : option Z :=
  match s with
  | String a s' =>
      match Ascii.is_nat a with
      | Some d => int_digits (Z.of_nat d) false s'
      | None => None
      end
  | EmptyString => None
  end.

(** The reading of an ASCII text. *)
Definition int_ascii (s : string) : option Z :=
  match lstrip_by Ascii.is_space s with
  | String "+" s' => int_unsigned s'
  | String "-" s' => Z.opp <$> int_unsigned s'
  | s' => int_unsigned s'
  end.

Definition digit_char (d : nat) : option ascii :=
  match d with
  | 0 => Some "0" | 1 => Some "1" | 2 => Some "2" | 3 => Some "3" | 4 => Some "4"
  | 5 => Some "5" | 6 => Some "6" | 7 => Some "7" | 8 => Some "8" | 9 => Some "9"
  | _ => None
  end%nat%char.

(** The ASCII character that stands for [c] in the reading; [decimal] gives
    the value of a decimal digit outside ASCII. *)
Definition to_ascii_char (decimal : string → option nat) (c : string)
  : option ascii :=
  match c with
  | String a EmptyString => if (N_of_ascii a <? 127)%N then Some a else None
  | _ => if is_space c then Some " "%char else decimal c ≫= digit_char
  end.

Fixpoint to_ascii (decimal : string → option nat) (cs : list string)
  : option string :=
  match cs with
  | [] => Some ""
  | c :: cs' =>
      match to_ascii_char decimal c, to_ascii decimal cs' with
      | Some a, Some s => Some (String a s)
      | _, _ => None
      end
  end.

(** A text made of ASCII decimal digits only. *)
Fixpoint all_digits (s : string) : bool :=
  match s with
  | EmptyString => true
  | String a s' => is_digit a && all_digits s'
  end.

(** Every byte of the text is below 127. *)
Fixpoint below_127 (s : string) : bool :=
  match s with
  | EmptyString => true
  | String a s' => (N_of_ascii a <? 127)%N && below_127 s'
  end.

Fixpoint count_digits (s : string) : nat :=
  match s with
  | EmptyString => O
  | String a s' => ((if is_digit a then 1 else 0) + count_digits s')%nat
  end.

(** [n] digits are more than the limit [max_digits] allows; [0] is no
    limit. *)
Definition exceeds (max_digits n : nat) : bool :=
  negb (Nat.eqb max_digits 0) && Nat.ltb max_digits n.

Definition int (max_digits : nat) (decimal : string → option nat) (s : string)
  : option Z :=
  match to_ascii decimal (chars s) with
  | Some t => if exceeds max_digits (count_digits t) then None else int_ascii t
  | None => None
  end.

End Py.

(** ** Feed items *)

(** The dictionaries [parse_rss_items] builds: four string fields. *)
Record item : Type := Item {
  title : string;
  link : string;
  pubDate : string;
  description : string;
}.

Global Instance item_eq_dec : EqDecision item.
Proof. solve_decision. Defined.

(** *** [list.sort(key=lambda x: x.get("pubDate", ""))]

    Python's sort is stable and compares the keys, here strings, character by
    character.  A stable sort has one possible output, which insertion from
    the right computes. *)

Fixpoint insert_by_pubDate (x : item) (l : list item) : list item :=
  match l with
  | [] => [x]
  | y :: l' =>
      if String.leb (pubDate x) (pubDate y) then x :: y :: l'
      else y :: insert_by_pubDate x l'
  end.

Definition sort_by_pubDate (l : list item) : list item :=
  foldr insert_by_pubDate [] l.

(** ** Exceptions *)

Inductive exn : Type :=
  | ValueError
  | AttributeError
  | TypeError
  | TimeoutError
  | LookupError
  | OtherError (name : string).

Inductive result (A : Type) : Type :=
  | Ok (a : A)
  | Raise (e : exn).
Arguments Ok {A} a.
Arguments Raise {A} e.

Definition result_bind {A B} (r : result A) (f : A → result B) : result B :=
  match r with Ok a => f a | Raise e => Raise e end.

(** ** Element trees

    [ET.fromstring] is the standard library's parser.  It returns an element
    tree, raises [ET.ParseError], or raises another exception (a
    [LookupError] for an unknown encoding, for one). *)

Inductive xml : Type :=
  | Element (tag : string) (text : option string) (children : list xml).

Inductive parsed : Type :=
  | Tree (root : xml)
  | ParseError
  | ParserRaises (e : exn).

Definition xml_tag (e : xml) : string := let 'Element t _ _ := e in t.
Definition xml_text (e : xml) : option string := let 'Element _ t _ := e in t.
Definition xml_children (e : xml) : list xml := let 'Element _ _ c := e in c.

(** [e.find(tag)]: the first child with that tag. *)
Definition xml_find (t : string) (e : xml) : option xml :=
  List.find (λ c, String.eqb (xml_tag c) t) (xml_children e).

(** [e.findall(tag)]: the children with that tag, in document order. *)
Definition xml_findall (t : string) (e : xml) : list xml :=
  List.filter (λ c, String.eqb (xml_tag c) t) (xml_children e).

(** [e.findtext(tag)]: [None] without such a child, its text otherwise, the
    empty string when it has none. *)
Definition xml_findtext (t : string) (e : xml) : option string :=
  (λ c, default "" (xml_text c)) <$> xml_find t e.

Definition endswith (s suffix : string) : bool :=
  String.prefix (String.rev suffix) (String.rev s).

(** [(item.findtext(tag) or "").strip()] *)
Definition field (t : string) (e : xml) : string :=
  Py.strip (default "" (xml_findtext t e)).

Definition parse_channel (root : xml) : option xml :=
  match xml_find "channel" root with
  | Some c => Some c
  | None => List.find (λ c, endswith (xml_tag c) "channel") (xml_children root)
  end.

(** The body of [parse_rss_items], on what the parser gave. *)
Definition parse_rss_items_tree (doc : parsed) : result (list item) :=
  match doc with
  | ParserRaises e => Raise e
  | ParseError => Ok []
  | Tree root =>
      match parse_channel root with
      | None => Ok []
      | Some channel =>
          Ok ((λ it, Item (field "title" it) (field "link" it)
                          (field "pubDate" it) (field "description" it))
              <$> xml_findall "item" channel)
      end
  end.

(** ** JSON values

    What [json.loads] returns, and what [json.dumps] is given. *)

Inductive pyval : Type :=
  | PNone
  | PBool (b : bool)
  | PInt (n : Z)
  | PStr (s : string).

Global Instance pyval_eq_dec : EqDecision pyval.
Proof. solve_decision. Defined.

Inductive json : Type :=
  | JVal (v : pyval)
  | JArr (l : list json)
  | JObj (kv : list (string * json)).

(** [bool(v)] *)
Definition json_truthy (v : json) : bool :=
  match v with
  | JVal PNone => false
  | JVal (PBool b) => b
  | JVal (PInt n) => negb (n =? 0)
  | JVal (PStr s) => Py.truthy s
  | JArr l => match l with [] => false | _ :: _ => true end
  | JObj kv => match kv with [] => false | _ :: _ => true end
  end.

(** [v == 0]: Python's [False] equals [0]. *)
Definition py_eq_zero (v : json) : bool :=
  match v with
  | JVal (PInt n) => Z.eqb n 0
  | JVal (PBool b) => negb b
  | _ => false
  end.

(** [d.get(k)] on an object given by its key-value pairs (keys distinct, as
    in a [dict]). *)
Fixpoint obj_get (k : string) (kv : list (string * json)) : option json :=
  match kv with
  | [] => None
  | (k', v) :: kv' => if String.eqb k' k then Some v else obj_get k kv'
  end.

(** ** Requests, outcomes, printed lines *)

(** What is handed to [urlopen].  The encoding of a payload to bytes
    ([json.dumps], [quote_plus]) belongs to the transport. *)
Inductive request : Type :=
  | Get (url : string)
  | PostJson (url : string) (payload : json)
  | PostForm (url : string) (form : list (string * string)).

(** How the making of the [Request], [urlopen] and the reading of the
    response end: in a response, in an [HTTPError], in a [URLError], or in
    another exception ([ValueError] for an address without scheme,
    [TimeoutError] while the response is awaited or read, ...). *)
Inductive outcome : Type :=
  | Response (code : Z) (body : string)
  | HTTPError (code : Z) (body : string)
  | URLError
  | Escapes (e : exn).

(** The lines [run_once] prints. *)
Inductive line : Type :=
  | WarnWecomNotConfigured
  | WarnServerchanNotConfigured
  | InfoNoItems (username : string)
  | InfoNoNewTweets (username : string)
  | WarnNoPushMethod
  | Sent (username tid : string)
  | Fail (username : string) (tid : option string).

(** An event: a request with how it ended, or a printed line. *)
Inductive event : Type :=
  | Request (r : request) (o : outcome)
  | Print (l : line).

(** ** Configuration and checkpoint *)

(** The configuration, as [run_once] reads it: every key may be missing. *)
Record push_config : Type := PushConfig {
  cfg_method : option string;
  cfg_wecom_webhook : option string;
  cfg_serverchan_sendkey : option string;
}.

Record config : Type := Config {
  cfg_users : option (list string);
  cfg_nitter_instances : option (list string);
  cfg_push : option push_config;
}.

(** [os.environ], at the two names the program reads. *)
Record environ : Type := Environ {
  WECOM_WEBHOOK : option string;
  SERVERCHAN_SENDKEY : option string;
}.

(** What the checkpoint holds under ["users"]: a dictionary from an account
    to what is stored for it, or something that is no dictionary ([null], a
    list, a string, a number). *)
Inductive users_value : Type :=
  | UsersDict (d : gmap string json)
  | UsersOther.

(** The checkpoint: what it holds under ["users"], and the time of the last
    pass.  A checkpoint without ["users"] is one with the empty dictionary
    there ([state.setdefault("users", {})]). *)
Record state : Type := State {
  st_users : users_value;
  st_updated_at : option string;
}.

(** [a or b] on values that are a string or [None]. *)
Definition py_or (a b : option string) : option string :=
  match a with
  | Some s => if Py.truthy s then a else b
  | None => b
  end.

(** [bool(x)] for a string or [None]. *)
Definition opt_truthy (a : option string) : bool :=
  match a with Some s => Py.truthy s | None => false end.

(** The newline character. *)
Definition nl : string := String "010"%char EmptyString.

Definition build_x_link (username tweet_id : string) : string :=
  "https://x.com/" +:+ username +:+ "/status/" +:+ tweet_id.

Definition default_instances : list string :=
  [ "https://nitter.net"; "https://nitter.poast.org";
    "https://nitter.privacydev.net"; "https://n.ramle.be" ].

(** The dictionary written at line 352. *)
Definition record_of (tid : string) : json := JObj [ ("last_id", JVal (PStr tid)) ].

(** [users_state[username] = rec] *)
Definition users_set (username : string) (rec : json) (users_state : users_value)
  : result users_value :=
  match users_state with
  | UsersDict d => Ok (UsersDict (<[username := rec]> d))
  | UsersOther => Raise TypeError
  end.

(** ** The host: network, libraries, clock, environment, interpreter

    [urlopen] answers a request and moves the world on.  [ET_fromstring] and
    [json_loads] are the library parsers ([json_loads] stands for
    [json.loads(body.decode("utf-8"))], with [None] for any exception).
    [simple_translate] is the dictionary substitution of the source; nothing
    below depends on what it returns.  [int_max_str_digits] is
    [sys.get_int_max_str_digits()], with [0] for no limit.
    [unicode_decimal] gives the value of a character outside ASCII that is
    a decimal digit, [unicode_alnum] tells whether a character outside ASCII
    is alphanumeric, [str_of_container] is [str()] of a list or a
    dictionary. *)
Class Host : Type := {
  World : Type;
  urlopen : request → World → outcome * World;
  ET_fromstring : string → parsed;
  json_loads : string → option json;
  simple_translate : string → string;
  utcnow_isoformat : World → string;
  os_environ : environ;
  int_max_str_digits : nat;
  unicode_decimal : string → option nat;
  unicode_alnum : string → bool;
  str_of_container : json → result string;
}.

(** The three [http_*] functions share their body: the status and body of
    the response, those of an [HTTPError], status [0] and an empty body for
    a [URLError]; any other exception passes through them. *)
Definition status_and_body (o : outcome) : result (Z * string) :=
  match o with
  | Response code body => Ok (code, body)
  | HTTPError code body => Ok (code, body)
  | URLError => Ok (0, "")
  | Escapes e => Raise e
  end.

(** The rest of the text after the prefix [p], if it starts with [p]. *)
Fixpoint drop_prefix (p s : string) : option string :=
  match p, s with
  | EmptyString, _ => Some s
  | String a p', String b s' => if Ascii.eqb a b then drop_prefix p' s' else None
  | String _ _, EmptyString => None
  end.

Section Engine.
Context `{Host}.

(** *** The classes of [re] and the reading of integers *)

(** [\d]: a decimal digit. *)
Definition is_decimal (c : string) : bool :=
  match c with
  | String a EmptyString => Py.is_digit a
  | _ => match unicode_decimal c with Some _ => true | None => false end
  end.

(** [\w]: an alphanumeric character or the underscore. *)
Definition is_word_char (c : string) : bool :=
  match c with
  | String a EmptyString => Py.is_word a
  | _ => is_decimal c || unicode_alnum c
  end.

(** [int(s)] *)
Definition py_int (s : string) : option Z :=
  Py.int int_max_str_digits unicode_decimal s.

(** [str(v)]: the text of an integer is subject to the limit on digits. *)
Definition py_str (v : json) : result string :=
  match v with
  | JVal PNone => Ok "None"
  | JVal (PBool true) => Ok "True"
  | JVal (PBool false) => Ok "False"
  | JVal (PInt n) =>
      if Py.exceeds int_max_str_digits (String.length (pretty (Z.abs n)))
      then Raise ValueError else Ok (pretty n)
  | JVal (PStr s) => Ok s
  | JArr _ | JObj _ => str_of_container v
  end.

(** *** [extract_tweet_id]

    [TWEET_ID_RE = re.compile(r"/status/(\d+)\b")], used with [search]: the
    leftmost position where the pattern matches.  At a position, [\d+] is
    greedy; a shorter run of digits is always followed by a digit, hence not
    by a word boundary, so the pattern matches there exactly when the longest
    run of digits is non-empty and followed by the end of the text or by a
    non-word character.  The literal part is ASCII, so that it is looked for
    byte by byte; the digits and the boundary are characters. *)

Fixpoint span_digits (cs : list string) : list string * list string :=
  match cs with
  | c :: cs' =>
      if is_decimal c
      then let '(ds, rest) := span_digits cs' in (c :: ds, rest)
      else ([], cs)
  | [] => ([], [])
  end.

Definition word_boundary_after_digit (rest : list string) : bool :=
  match rest with
  | [] => true
  | c :: _ => negb (is_word_char c)
  end.

Definition match_status_at (s : string) : option string :=
  match drop_prefix "/status/" s with
  | Some s' =>
      let '(ds, rest) := span_digits (Py.chars s') in
      match ds with
      | [] => None
      | _ :: _ => if word_boundary_after_digit rest then Some (Py.join ds) else None
      end
  | None => None
  end.

Fixpoint extract_tweet_id (link : string) : option string :=
  match match_status_at link with
  | Some tid => Some tid
  | None =>
      match link with
      | String _ rest => extract_tweet_id rest
      | EmptyString => None
      end
  end.

(** *** The monad of the program *)

(** A computation runs from a world, and ends in a world, with the events it
    produced, in order, and a value or an exception. *)
Definition M (A : Type) : Type := World → World * list event * result A.

Definition ret {A} (a : A) : M A := λ w, (w, [], Ok a).

Definition bind {A B} (m : M A) (f : A → M B) : M B :=
  λ w,
    let '(w1, t1, r) := m w in
    match r with
    | Ok a => let '(w2, t2, r2) := f a w1 in (w2, t1 ++ t2, r2)
    | Raise e => (w1, t1, Raise e)
    end.

Definition lift {A} (r : result A) : M A := λ w, (w, [], r).

Definition print (l : line) : M unit := λ w, (w, [Print l], Ok tt).

Global Instance M_ret : MRet M := @ret.
Global Instance M_bind : MBind M := λ A B f m, bind m f.

(** *** The transport *)

Definition submit (r : request) : M (Z * string) :=
  λ w, let '(o, w') := urlopen r w in (w', [Request r o], status_and_body o).

Definition http_get (url : string) : M (Z * string) := submit (Get url).

Definition http_post_json (url : string) (payload : json) : M (Z * string) :=
  submit (PostJson url payload).

Definition http_post_form (url : string) (form : list (string * string))
  : M (Z * string) :=
  submit (PostForm url form).

(** *** The fetch *)

Definition parse_rss_items (xml_bytes : string) : result (list item) :=
  parse_rss_items_tree (ET_fromstring xml_bytes).

Definition rss_url (base username : string) : string :=
  Py.rstrip_slash base +:+ "/" +:+ username +:+ "/rss".

Fixpoint fetch_latest_from_nitter (instances : list string) (username : string)
  : M (list item) :=
  match instances with
  | [] => ret []
  | base :: rest =>
      '(code, body) ← http_get (rss_url base username);
      if (code =? 200) && Py.truthy body
      then items ← lift (parse_rss_items body); ret (sort_by_pubDate items)
      else fetch_latest_from_nitter rest username
  end.

(** [best_nitter_url]: the address of the feed on the first mirror that
    answers with status 200 and a non-empty body, or [None]. *)
Fixpoint best_nitter_url (instances : list string) (username : string)
  : M (option string) :=
  match instances with
  | [] => mret None
  | base :: rest =>
      '(code, body) ← http_get (rss_url base username);
      if (code =? 200) && Py.truthy body
      then mret (Some (rss_url base username))
      else best_nitter_url rest username
  end.

(** *** The push functions *)

Definition wecom_payload (text : string) : json :=
  JObj [ ("msgtype", JVal (PStr "text"));
         ("text", JObj [ ("content", JVal (PStr (Py.take 4096 text))) ]) ].

(** The [try] block of [push_wecom]: a body that does not parse, or parses
    to something without [get], ends in the [except] branch. *)
Definition wecom_accepted (body : string) : bool :=
  match json_loads body with
  | Some (JObj kv) => py_eq_zero (default (JVal (PInt (-1))) (obj_get "errcode" kv))
  | _ => false
  end.

Definition push_wecom (webhook text : string) : M bool :=
  '(code, body) ← http_post_json webhook (wecom_payload text);
  if negb (code =? 200) then ret false else ret (wecom_accepted body).

Definition serverchan_accepted (body : string) : bool :=
  match json_loads body with
  | Some (JObj kv) => py_eq_zero (default (JVal PNone) (obj_get "code" kv))
  | _ => false
  end.

Definition push_serverchan (sendkey title desp : string) : M bool :=
  let url := "https://sctapi.ftqq.com/" +:+ sendkey +:+ ".send" in
  '(code, body) ← http_post_form url [("title", title); ("desp", desp)];
  if negb (code =? 200) then ret false else ret (serverchan_accepted body).

(** *** The message *)

(** The two literals of the source outside ASCII. *)
Definition label_original : string := "原文: ".
Definition label_latest : string := " 最新推文".

Definition format_message (username : string) (it : item) : string * string :=
  let tid := default "" (extract_tweet_id (link it)) in
  let x_link := if Py.truthy tid then build_x_link username tid else link it in
  let title :=
    Py.replace "&gt;" ">" (Py.replace "&lt;" "<" (Py.replace "&amp;" "&" (title it))) in
  let translated_title := simple_translate title in
  let text :=
    if negb (String.eqb translated_title title) && Py.truthy (Py.strip translated_title)
    then "@" +:+ username +:+ ":" +:+ nl +:+ translated_title +:+ nl +:+ nl
         +:+ label_original +:+ title +:+ nl +:+ x_link
    else "@" +:+ username +:+ ": " +:+ title +:+ nl +:+ x_link in
  (text, x_link).

(** *** The body of [run_once] for one account *)

(** Line 316,
    [str(users_state.get(username, {}).get("last_id")) if users_state.get(username) else None]:
    [None] when the account has nothing stored or something that counts as
    false; [AttributeError] when [users_state] is no dictionary, or when
    what is stored for the account counts as true and is no dictionary. *)
Definition last_id_of (users_state : users_value) (username : string)
  : result (option string) :=
  match users_state with
  | UsersOther => Raise AttributeError
  | UsersDict d =>
      match d !! username with
      | None => Ok None
      | Some rec =>
          if negb (json_truthy rec) then Ok None
          else
            match rec with
            | JObj kv =>
                result_bind (py_str (default (JVal PNone) (obj_get "last_id" kv)))
                  (λ s, Ok (Some s))
            | _ => Raise AttributeError
            end
      end
  end.

(** Line 323: [last_id is None or int(tid) > int(last_id)]. *)
Definition is_newer (last_id : option string) (tid : string) : result bool :=
  match last_id with
  | None => Ok true
  | Some l =>
      match py_int tid with
      | None => Raise ValueError
      | Some a =>
          match py_int l with
          | None => Raise ValueError
          | Some b => Ok (b <? a)
          end
      end
  end.

(** Lines 318-324: the entries newer than the watermark. *)
Fixpoint select_new_items (last_id : option string) (items : list item)
  : result (list item) :=
  match items with
  | [] => Ok []
  | it :: rest =>
      if negb (opt_truthy (extract_tweet_id (link it)))
      then select_new_items last_id rest
      else
        result_bind (is_newer last_id (default "" (extract_tweet_id (link it))))
          (λ keep,
            result_bind (select_new_items last_id rest)
              (λ more, Ok (if keep : bool then it :: more else more)))
  end.

(** The channel settings [run_once] computes before its loop. *)
Record channel : Type := Channel {
  method : string;
  wecom_webhook : option string;
  serverchan_key : option string;
}.

Definition channel_of (cfg : config) : channel :=
  let push_cfg := default (PushConfig None None None) (cfg_push cfg) in
  {| method := default "wecom" (cfg_method push_cfg);
     wecom_webhook := py_or (cfg_wecom_webhook push_cfg) (WECOM_WEBHOOK os_environ);
     serverchan_key :=
       py_or (cfg_serverchan_sendkey push_cfg) (SERVERCHAN_SENDKEY os_environ) |}.

(** Lines 334-342: one delivery attempt. *)
Definition push_item (ch : channel) (username : string) (it : item) : M bool :=
  let '(msg, x_link) := format_message username it in
  if String.eqb (method ch) "wecom" && opt_truthy (wecom_webhook ch)
  then push_wecom (default "" (wecom_webhook ch)) msg
  else if String.eqb (method ch) "serverchan" && opt_truthy (serverchan_key ch)
  then push_serverchan (default "" (serverchan_key ch))
         ("@" +:+ username +:+ label_latest) (msg +:+ nl +:+ nl +:+ x_link)
  else print WarnNoPushMethod ;; mret false.

(** Lines 333-349: the delivery loop, with [latest_seen_id] as it stands
    when the iteration starts. *)
Fixpoint deliver (ch : channel) (username : string) (new_items : list item)
    (latest_seen_id : option string) : M (option string) :=
  match new_items with
  | [] => mret latest_seen_id
  | it :: rest =>
      ok ← push_item ch username it;
      let tid := extract_tweet_id (link it) in
      if ok && opt_truthy tid
      then print (Sent username (default "" tid)) ;; deliver ch username rest tid
      else print (Fail username tid) ;; deliver ch username rest latest_seen_id
  end.

(** Lines 311-352: the body of the loop over the accounts. *)
Definition process_account (ch : channel) (instances : list string)
    (username : string) (users_state : users_value) : M users_value :=
  items ← fetch_latest_from_nitter instances username;
  match items with
  | [] => print (InfoNoItems username) ;; mret users_state
  | _ :: _ =>
      last_id ← lift (last_id_of users_state username);
      new_items ← lift (select_new_items last_id items);
      match new_items with
      | [] => print (InfoNoNewTweets username) ;; mret users_state
      | _ :: _ =>
          latest_seen_id ← deliver ch username (sort_by_pubDate new_items) last_id;
          if opt_truthy latest_seen_id
          then lift (users_set username (record_of (default "" latest_seen_id))
                       users_state)
          else mret users_state
      end
  end.

Fixpoint process_accounts (ch : channel) (instances : list string)
    (users : list string) (users_state : users_value) : M users_value :=
  match users with
  | [] => mret users_state
  | username :: rest =>
      users_state' ← process_account ch instances username users_state;
      process_accounts ch instances rest users_state'
  end.

(** [datetime.utcnow().isoformat()] *)
Definition utcnow : M string := λ w, (w, [], Ok (utcnow_isoformat w)).

Definition when (b : bool) (m : M unit) : M unit := if b then m else mret tt.

Definition run_once (cfg : config) (st : state) : M state :=
  let users := default [] (cfg_users cfg) in
  let instances := default default_instances (cfg_nitter_instances cfg) in
  let ch := channel_of cfg in
  when (String.eqb (method ch) "wecom" && negb (opt_truthy (wecom_webhook ch)))
       (print WarnWecomNotConfigured) ;;
  when (String.eqb (method ch) "serverchan" && negb (opt_truthy (serverchan_key ch)))
       (print WarnServerchanNotConfigured) ;;
  users_state ← process_accounts ch instances users (st_users st);
  now ← utcnow;
  mret {| st_users := users_state; st_updated_at := Some (now +:+ "Z") |}.

End Engine.

(** ** The daemon loop of [main]

    [passes cfg st log]: starting from the checkpoint [st], the passes of
    [log] ran one after the other, each from some world, each ending with its
    state written as the new checkpoint.  [log] lists, per pass, what the
    pass did and the checkpoint it wrote.  A pass that raises writes nothing
    and ends the process. *)
Inductive passes `{Host} (cfg : config) : state → list (list event * state) → Prop :=
  | passes_nil st : passes cfg st []
  | passes_cons st w w' t st' log :
      run_once cfg st w = (w', t, Ok st') →
      passes cfg st' log →
      passes cfg st ((t, st') :: log).

(** The loop of [main] in daemon mode, for [n] rounds: a pass, the save of its
    state, and the next pass from that state.  The result lists, per pass, its
    trace and the state saved. *)
Fixpoint daemon `{Host} (cfg : config) (n : nat) (st : state) (w : World)
  : list (list event * state) :=
  match n with
  | O => []
  | S k =>
      match run_once cfg st w with
      | (w', t, Ok st') => (t, st') :: daemon cfg k st' w'
      | (_, _, Raise _) => []
      end
  end.

(** ** Reading a trace *)

(** The identifiers of the [[sent]] lines, in order. *)
Definition sent_ids (t : list event) : list string :=
  omap (λ e, match e with Print (Sent _ tid) => Some tid | _ => None end) t.

(** The outcome lines of the delivery loop, in order: the identifier (as the
    line shows it) and whether the line is [[sent]]. *)
Definition delivery_lines (t : list event) : list (option string * bool) :=
  omap (λ e, match e with
             | Print (Sent _ tid) => Some (Some tid, true)
             | Print (Fail _ tid) => Some (tid, false)
             | _ => None
             end) t.

(** The requests submitted, in order. *)
Definition requests (t : list event) : list request :=
  omap (λ e, match e with Request r _ => Some r | _ => None end) t.

Definition is_post (r : request) : bool :=
  match r with Get _ => false | _ => true end.

(** The submissions to a channel, in order, each with how it ended. *)
Definition posts (t : list event) : list (request * outcome) :=
  omap (λ e, match e with
             | Request r o => if is_post r then Some (r, o) else None
             | _ => None
             end) t.

(** ** The checkpoint file

    [save_json_atomic] as the sequence of file operations it performs, on a
    file system that maps a path to the content of the file there.
    [json.dump] writes the serialization in chunks, which [json_dump]
    lists; [os.replace] is one operation. *)

Inductive file_op : Type :=
  | OpenForWriting (path : string)
  | WriteChunk (path chunk : string)
  | OsReplace (src dst : string).

Definition apply_op (o : file_op) (fs : gmap string string) : gmap string string :=
  match o with
  | OpenForWriting path => <[path := ""]> fs
  | WriteChunk path chunk => <[path := default "" (fs !! path) +:+ chunk]> fs
  | OsReplace src dst =>
      match fs !! src with
      | Some content => <[dst := content]> (delete src fs)
      | None => fs
      end
  end.

(** The chunks, one after the other. *)
Definition join_chunks (chunks : list string) : string := foldr String.append "" chunks.

(** The file system after the operations, in order. *)
Definition apply_ops (ops : list file_op) (fs : gmap string string) : gmap string string :=
  foldl (λ fs o, apply_op o fs) fs ops.

Section Checkpoint.
Context {A : Type} (json_dump : A → list string) (json_load : string → option A).

Definition save_json_atomic (path : string) (data : A) : list file_op :=
  let tmp := path +:+ ".tmp" in
  OpenForWriting tmp :: (WriteChunk tmp <$> json_dump data) ++ [OsReplace tmp path].

(** [load_json], on the same file system.  [json_load] is the library parser
    on the content of the file ([None]: [json.JSONDecodeError]); a path with
    no file is [FileNotFoundError].  Both give the default, as does an empty
    path. *)
Definition load_json (fs : gmap string string) (path : string) (default : A) : A :=
  if negb (Py.truthy path) then default
  else
    match fs !! path with
    | Some content =>
        match json_load content with
        | Some data => data
        | None => default
        end
    | None => default
    end.

End Checkpoint.

(** * The vocabulary of the properties *)

(** The order the sort establishes: the texts of the dates, compared
    character by character. *)
Definition pubDate_text_le (a b : item) : Prop := String.le (pubDate a) (pubDate b).

(** [None], no watermark, is below every watermark. *)
Definition watermark_le (a b : option Z) : Prop :=
  match a, b with
  | None, _ => True
  | Some x, Some y => x ≤ y
  | Some _, None => False
  end.

(** The byte does not occur in the text. *)
Fixpoint absent (c : ascii) (s : string) : bool :=
  match s with
  | EmptyString => true
  | String a s' => negb (Ascii.eqb a c) && absent c s'
  end.

(** The text neither starts nor ends with a white-space character. *)
Definition stripped (s : string) : Prop :=
  (∀ c, head (Py.chars s) = Some c → Py.is_space c = false)
  ∧ (∀ c, last (Py.chars s) = Some c → Py.is_space c = false).

Section Vocabulary.
Context `{Host}.

(** The entry has an identifier in its link. *)
Definition has_id (it : item) : bool := opt_truthy (extract_tweet_id (link it)).

(** The identifier of an entry, as an integer. *)
Definition id_of (it : item) : option Z := extract_tweet_id (link it) ≫= py_int.

(** The entry has an identifier in its link and, when there is a watermark,
    that identifier is, as an integer, strictly greater than it. *)
Definition newer (last_id : option string) (it : item) : bool :=
  match extract_tweet_id (link it) with
  | None => false
  | Some tid =>
      match last_id with
      | None => true
      | Some l =>
          match py_int tid, py_int l with
          | Some a, Some b => b <? a
          | _, _ => false
          end
      end
  end.

(** The entry has an identifier that is, as an integer, greater than [z]. *)
Definition id_above (z : Z) (it : item) : bool :=
  match id_of it with Some a => z <? a | None => false end.

(** [int()] reads the identifier of every entry of the list that has one. *)
Definition ids_readable (items : list item) : Prop :=
  ∀ it tid, it ∈ items → extract_tweet_id (link it) = Some tid → is_Some (py_int tid).

(** Lines 316-324: the entries kept for an account, from what the checkpoint
    holds and the entries of its feed. *)
Definition new_items_of (users_state : users_value) (username : string)
    (items : list item) : result (list item) :=
  result_bind (last_id_of users_state username)
    (λ last_id, select_new_items last_id items).

(** The watermark of an account as the program reads it: the integer its
    stored [last_id] stands for, if any. *)
Definition watermark (users_state : users_value) (username : string) : option Z :=
  match last_id_of users_state username with
  | Ok (Some l) => py_int l
  | _ => None
  end.

(** What is stored for the account lets line 316 and the comparisons of line
    323 go through: ["users"] holds a dictionary, and in it the account has
    nothing, or something that counts as false, or a dictionary whose
    [last_id], passed through [str()], is a text that [int()] reads. *)
Definition well_stored (users_state : users_value) (username : string) : Prop :=
  match users_state with
  | UsersOther => False
  | UsersDict d =>
      match d !! username with
      | None => True
      | Some rec =>
          json_truthy rec = false
          ∨ ∃ kv v l, rec = JObj kv ∧ obj_get "last_id" kv = Some v
                      ∧ py_str v = Ok l ∧ is_Some (py_int l)
      end
  end.

(** The body parses to an object whose [key] holds a value equal to [0]. *)
Definition reports_zero (key body : string) : Prop :=
  ∃ kv v, json_loads body = Some (JObj kv) ∧ obj_get key kv = Some v
          ∧ py_eq_zero v = true.

(** How a probe of [url] ends in world [w]. *)
Definition probe (url : string) (w : World) : outcome := (urlopen (Get url) w).1.

(** The test of line 143: status 200 and a non-empty body. *)
Definition usable (cb : Z * string) : bool := (cb.1 =? 200) && Py.truthy cb.2.

(** The probe ends in a way [http_get] reports, and the mirror is passed
    over: an HTTP error, a URL error, a status other than 200, an empty
    body. *)
Definition passed_over (o : outcome) : Prop :=
  ∃ cb, status_and_body o = Ok cb ∧ usable cb = false.

(** The probe gives a document: status 200 and the non-empty [body]. *)
Definition serves (o : outcome) (body : string) : Prop :=
  status_and_body o = Ok (200, body) ∧ Py.truthy body = true.

(** The world after the addresses were probed one after the other. *)
Fixpoint world_after (urls : list string) (w : World) : World :=
  match urls with
  | [] => w
  | url :: rest => world_after rest (urlopen (Get url) w).2
  end.

(** The events of probing the addresses one after the other. *)
Fixpoint probes (urls : list string) (w : World) : list event :=
  match urls with
  | [] => []
  | url :: rest => Request (Get url) (probe url w) :: probes rest (urlopen (Get url) w).2
  end.

(** Every mirror of the list, probed in order from [w], is passed over. *)
Fixpoint all_passed_over (urls : list string) (w : World) : Prop :=
  match urls with
  | [] => True
  | url :: rest =>
      passed_over (probe url w) ∧ all_passed_over rest (urlopen (Get url) w).2
  end.

Definition urls_of (instances : list string) (username : string) : list string :=
  (λ base, rss_url base username) <$> instances.

(** One of the two branches of lines 336-339 is taken: a method with its
    credential. *)
Definition configured (ch : channel) : bool :=
  String.eqb (method ch) "wecom" && opt_truthy (wecom_webhook ch)
  || String.eqb (method ch) "serverchan" && opt_truthy (serverchan_key ch).

(** The request a delivery attempt for [it] submits, if the channel is
    configured. *)
Definition post_of (ch : channel) (username : string) (it : item) : option request :=
  let '(msg, x_link) := format_message username it in
  if String.eqb (method ch) "wecom" && opt_truthy (wecom_webhook ch)
  then Some (PostJson (default "" (wecom_webhook ch)) (wecom_payload msg))
  else if String.eqb (method ch) "serverchan" && opt_truthy (serverchan_key ch)
  then Some (PostForm
               ("https://sctapi.ftqq.com/" +:+ default "" (serverchan_key ch)
                +:+ ".send")
               [ ("title", "@" +:+ username +:+ label_latest);
                 ("desp", msg +:+ nl +:+ nl +:+ x_link) ])
  else None.

(** The channel confirms the delivery: the exchange ends in status 200 with
    a body that reports the code [0]. *)
Definition confirms (r : request) (o : outcome) : bool :=
  match status_and_body o with
  | Ok (code, body) =>
      (code =? 200)
      && match r with
         | PostJson _ _ => wecom_accepted body
         | PostForm _ _ => serverchan_accepted body
         | Get _ => false
         end
  | Raise _ => false
  end.

(** What a push function returns, from how the exchange ended: whether the
    channel confirms, or the exception that passes through. *)
Definition pushed (r : request) (o : outcome) : result bool :=
  match status_and_body o with
  | Ok _ => Ok (confirms r o)
  | Raise e => Raise e
  end.

(** Whether each of [n] delivery attempts was confirmed, from how the
    submissions ended: without a configured channel nothing is submitted and
    nothing is confirmed. *)
Definition verdicts (ch : channel) (n : nat) (ps : list (request * outcome))
  : list bool :=
  if configured ch then (λ p, confirms p.1 p.2) <$> ps else replicate n false.

(** In the trace, the delivery of the entry with identifier [tid] to the
    account's channel was submitted and confirmed, and the line [[sent]]
    follows it. *)
Definition delivery_confirmed (ch : channel) (username tid : string)
    (t : list event) : Prop :=
  ∃ it r o pre post,
    t = pre ++ Request r o :: Print (Sent username tid) :: post
    ∧ post_of ch username it = Some r
    ∧ extract_tweet_id (link it) = Some tid
    ∧ confirms r o = true.

(** The state after the delivery loop (lines 351-352). *)
Definition advance (username : string) (latest : option string)
    (users_state : users_value) : result users_value :=
  if opt_truthy latest
  then users_set username (record_of (default "" latest)) users_state
  else Ok users_state.

(** What a pass may do to what the checkpoint holds under ["users"]: a
    dictionary stays one, in which the record of an account is as it was or,
    for an account of [users], the dictionary written at line 352 for a
    non-empty identifier; anything else is left as it is. *)
Definition records_kept (users : list string) (a b : users_value) : Prop :=
  match a, b with
  | UsersDict d, UsersDict d' =>
      ∀ u, d' !! u = d !! u
           ∨ u ∈ users
             ∧ ∃ tid, d' !! u = Some (record_of tid) ∧ Py.truthy tid = true
  | UsersOther, UsersOther => True
  | _, _ => False
  end.

(** Along the list, identifiers do not decrease (entries without an
    identifier aside). *)
Fixpoint ids_ascend (items : list item) : bool :=
  match items with
  | [] => true
  | x :: rest =>
      forallb (λ y, match id_of x, id_of y with
                    | Some a, Some b => a <=? b
                    | _, _ => true
                    end) rest
      && ids_ascend rest
  end.

(** The feeds do not change: how the probe of an address ends does not
    depend on when it is made. *)
Definition unchanged_source : Prop :=
  ∀ url w w', probe url w = probe url w'.

(** Nothing in the feed of the account is newer than its watermark: whenever
    the fetch gives entries, lines 316-324 keep none of them. *)
Definition settled (instances : list string) (users_state : users_value)
    (username : string) : Prop :=
  ∀ w items,
    (fetch_latest_from_nitter instances username w).2 = Ok items → items ≠ [] →
    new_items_of users_state username items = Ok [].

(** The warnings printed before the loop over the accounts. *)
Definition warnings (ch : channel) : list event :=
  (if String.eqb (method ch) "wecom" && negb (opt_truthy (wecom_webhook ch))
   then [Print WarnWecomNotConfigured] else [])
  ++ (if String.eqb (method ch) "serverchan" && negb (opt_truthy (serverchan_key ch))
      then [Print WarnServerchanNotConfigured] else []).

(** Every exchange ends in a way the [http_*] functions report: a response,
    an [HTTPError], a [URLError]. *)
Definition transport_reports : Prop :=
  ∀ r w, ∃ cb, status_and_body (urlopen r w).1 = Ok cb.

(** The parser of documents returns a tree or raises [ParseError]. *)
Definition parser_reports : Prop :=
  ∀ body e, ET_fromstring body ≠ ParserRaises e.

(** The requests a pass may submit under a configuration: the feed of a
    configured account on a configured mirror, a JSON message to the
    configured webhook with a text of at most 4096 characters, a form to the
    address of the configured send key. *)
Definition allowed_request (cfg : config) (r : request) : Prop :=
  let ch := channel_of cfg in
  (∃ base username,
     base ∈ default default_instances (cfg_nitter_instances cfg)
     ∧ username ∈ default [] (cfg_users cfg)
     ∧ r = Get (rss_url base username))
  ∨ (∃ webhook content,
       method ch = "wecom" ∧ wecom_webhook ch = Some webhook
       ∧ (Py.len content ≤ 4096)%nat
       ∧ r = PostJson webhook
               (JObj [ ("msgtype", JVal (PStr "text"));
                       ("text", JObj [ ("content", JVal (PStr content)) ]) ]))
  ∨ (∃ sendkey title desp,
       method ch = "serverchan" ∧ serverchan_key ch = Some sendkey
       ∧ r = PostForm ("https://sctapi.ftqq.com/" +:+ sendkey +:+ ".send")
               [ ("title", title); ("desp", desp) ]).

(** Whenever a mirror is asked, it is passed over. *)
Definition all_mirrors_down : Prop :=
  ∀ url w, passed_over (probe url w).

End Vocabulary.

(** ** The claims that fail, as stated *)

(** The outcome lines up to the first one that is not [[sent]]. *)
Fixpoint confirmed_prefix (lines : list (option string * bool))
  : list (option string * bool) :=
  match lines with
  | (tid, true) :: rest => (tid, true) :: confirmed_prefix rest
  | _ => []
  end.

(** The statement of C1 for one processing of an account: after an outcome
    line that is not [[sent]] no later line is [[sent]], and the stored
    [last_id] is the identifier on the last line of the confirmed prefix. *)
Definition halts_at_first_failure `{Host} (ch : channel) (instances : list string)
    (username : string) (users_state : users_value) (w : World) : Prop :=
  let lines := delivery_lines (process_account ch instances username users_state w).1.2 in
  (∀ pre tid post, lines = pre ++ (tid, false) :: post →
                   Forall (λ l, l.2 = false) post)
  ∧ (∀ users_state' tid,
       (process_account ch instances username users_state w).2 = Ok users_state' →
       last (confirmed_prefix lines) = Some (Some tid, true) →
       last_id_of users_state' username = Ok (Some tid)).

(** The statement of C3 for a record in which no [last_id] is stored: the
    watermark is absent, and the filter keeps every entry that has an
    identifier. *)
Definition keeps_all_without_last_id `{Host} (kv : list (string * json))
    (username : string) (items : list item) : Prop :=
  obj_get "last_id" kv = None →
  new_items_of (UsersDict {[ username := JObj kv ]}) username items
  = Ok (List.filter has_id items).

(** The statement of C4 for a list of mirrors: whatever happens to the
    probes, the fetch returns a list. *)
Definition fetch_returns `{Host} (instances : list string) (username : string)
    (w : World) : Prop :=
  ∃ items, (fetch_latest_from_nitter instances username w).2 = Ok items.

(** The statement of C6 for the JSON channel: [True] exactly for a 2xx
    status with [errcode] 0 in the body. *)
Definition push_wecom_true_iff_2xx `{Host} (webhook text : string) (w : World) : Prop :=
  ∀ code body,
    status_and_body (urlopen (PostJson webhook (wecom_payload text)) w).1
    = Ok (code, body) →
    (push_wecom webhook text w).2 = Ok true
    ↔ (200 ≤ code < 300 ∧ reports_zero "errcode" body).

(** ** A scripted host, for concrete runs

    Feeds are fixed documents per address, and [scripted] tells how the
    probe of an address ends otherwise; the world is the list of the answers
    (status and body) the notification channel will give to the coming
    submissions, and the channel is unreachable once the list is used up.  The parsers know the documents
    and bodies of this section.  The interpreter has the default limit of
    4300 digits; outside ASCII it knows the Arabic-Indic digits (U+0660 to
    U+0669) as decimal digits and the letter U+00E9 as alphanumeric. *)
Module Scripted.

Fixpoint render (e : xml) : string :=
  let 'Element t txt cs := e in
  "<" +:+ t +:+ ">" +:+ default "" txt
  +:+ (fix go (l : list xml) : string :=
         match l with [] => "" | c :: l' => render c +:+ go l' end) cs
  +:+ "</" +:+ t +:+ ">".

Definition rss_item (t l d : string) : xml :=
  Element "item" None
    [ Element "title" (Some t) []; Element "link" (Some l) [];
      Element "pubDate" (Some d) []; Element "description" None [] ].

Definition rss (items : list xml) : xml :=
  Element "rss" None [ Element "channel" None items ].

Definition dq : string := String "034"%char EmptyString.

(** [{"errcode": 0}] and [{"errcode": 40008}] *)
Definition body_errcode (n : Z) : string :=
  "{" +:+ dq +:+ "errcode" +:+ dq +:+ ": " +:+ pretty n +:+ "}".
(** [{"code": 0}] *)
Definition body_code (n : Z) : string :=
  "{" +:+ dq +:+ "code" +:+ dq +:+ ": " +:+ pretty n +:+ "}".

Definition accepted : Z * string := (200, body_errcode 0).
Definition rejected : Z * string := (200, body_errcode 40008).

Definition loads (body : string) : option json :=
  if String.eqb body (body_errcode 0) then Some (JObj [("errcode", JVal (PInt 0))])
  else if String.eqb body (body_errcode 40008)
  then Some (JObj [("errcode", JVal (PInt 40008))])
  else if String.eqb body (body_code 0) then Some (JObj [("code", JVal (PInt 0))])
  else None.

Definition arabic_indic (c : string) : option nat :=
  match c with
  | String a (String b EmptyString) =>
      if ((N_of_ascii a =? 217) && (160 <=? N_of_ascii b) && (N_of_ascii b <=? 169))%N
      then Some (N.to_nat (N_of_ascii b - 160))
      else None
  | _ => None
  end.

Definition e_acute : string := Py.of_bytes [195; 169]%N.

Definition host_with (scripted : list (string * outcome))
    (feeds : list (string * xml)) : Host :=
  {| World := list (Z * string);
     urlopen r w :=
       match r with
       | Get url =>
           match List.find (λ p, String.eqb (fst p) url) scripted with
           | Some p => (snd p, w)
           | None =>
               match List.find (λ f, String.eqb (fst f) url) feeds with
               | Some f => (Response 200 (render (snd f)), w)
               | None => (URLError, w)
               end
           end
       | _ =>
           match w with
           | (code, body) :: w' => (Response code body, w')
           | [] => (URLError, [])
           end
       end;
     ET_fromstring body :=
       match List.find (λ f, String.eqb (render (snd f)) body) feeds with
       | Some f => Tree (snd f)
       | None => ParseError
       end;
     json_loads := loads;
     simple_translate s := s;
     utcnow_isoformat _ := "2024-01-06T00:00:00";
     os_environ := Environ None None;
     int_max_str_digits := 4300;
     unicode_decimal := arabic_indic;
     unicode_alnum c := String.eqb c e_acute;
     str_of_container v := Ok (match v with JObj _ => "{...}" | _ => "[...]" end) |}.

Definition host (feeds : list (string * xml)) : Host := host_with [] feeds.

Definition wecom_cfg (users : list string) : config :=
  Config (Some users) (Some ["https://nitter.net"])
    (Some (PushConfig (Some "wecom") (Some "https://qyapi.example/send") None)).

Definition wecom : channel :=
  Channel "wecom" (Some "https://qyapi.example/send") None.

(** Three entries of one account, oldest first. *)
Definition feed_jack : xml :=
  rss [ rss_item "one" "https://nitter.net/jack/status/101#m" "2024-01-01T10:00:00Z";
        rss_item "two" "https://nitter.net/jack/status/102#m" "2024-01-02T10:00:00Z";
        rss_item "three" "https://nitter.net/jack/status/103#m" "2024-01-03T10:00:00Z" ].

Definition jack_host : Host := host [("https://nitter.net/jack/rss", feed_jack)].

(** Two entries dated as RSS dates them; the first is the older one. *)
Definition feed_rss_dates : xml :=
  rss [ rss_item "old" "https://nitter.net/jack/status/201#m"
          "Mon, 01 Jan 2024 10:00:00 GMT";
        rss_item "new" "https://nitter.net/jack/status/202#m"
          "Fri, 05 Jan 2024 10:00:00 GMT" ].

Definition rss_dates_host : Host :=
  host [("https://nitter.net/jack/rss", feed_rss_dates)].

(** The first mirror does not answer in time while the response is awaited;
    the second serves the feed. *)
Definition slow_mirror_host : Host :=
  host_with [("https://slow.invalid/jack/rss", Escapes TimeoutError)]
            [("https://nitter.net/jack/rss", feed_jack)].

(** One entry whose fields are padded with white space: spaces, a tab, a
    line feed, and the no-break space U+00A0. *)
Definition nbsp : string := Py.of_bytes [194; 160]%N.

Definition feed_padded : xml :=
  rss [ rss_item ("  padded title " +:+ nbsp)
          (nbsp +:+ " https://nitter.net/jack/status/301#m" +:+ nl)
          (String "009"%char "2024-01-01T10:00:00Z ") ].

Definition padded_host : Host := host [("https://nitter.net/jack/rss", feed_padded)].

(** A host on which no feed is served. *)
Definition offline_host : Host := host [].

(** No account has anything stored. *)
Definition no_users : users_value := UsersDict ∅.

Definition empty_state : state := State no_users None.

(** The entries of [feed_jack], as the parser returns them. *)
Definition jack_items : list item :=
  [ Item "one" "https://nitter.net/jack/status/101#m" "2024-01-01T10:00:00Z" "";
    Item "two" "https://nitter.net/jack/status/102#m" "2024-01-02T10:00:00Z" "";
    Item "three" "https://nitter.net/jack/status/103#m" "2024-01-03T10:00:00Z" "" ].

(** The entries of [feed_rss_dates], as the fetch returns them. *)
Definition rss_dates_items : list item :=
  [ Item "new" "https://nitter.net/jack/status/202#m"
         "Fri, 05 Jan 2024 10:00:00 GMT" "";
    Item "old" "https://nitter.net/jack/status/201#m"
         "Mon, 01 Jan 2024 10:00:00 GMT" "" ].

(** The account's checkpoint with [tid] as its [last_id]. *)
Definition jack_at (tid : string) : users_value :=
  UsersDict {[ "jack" := record_of tid ]}.

(** A checkpoint in which the first entry of [feed_jack] is watermarked. *)
Definition jack_at_101 : users_value := jack_at "101".

(** A checkpoint whose [last_id] for the account is [null]. *)
Definition jack_at_null : users_value :=
  UsersDict {[ "jack" := JObj [("last_id", JVal PNone)] ]}.

(** A record of the account that holds no [last_id]. *)
Definition record_without_last_id : list (string * json) :=
  [("name", JVal (PStr "Jack"))].

(** A checkpoint that stores the identifier as a JSON number, with a second
    account. *)
Definition numeric_checkpoint : users_value :=
  UsersDict {[ "jack" := JObj [("last_id", JVal (PInt 102))];
               "jill" := JObj [("last_id", JVal (PStr "7"))] ]}.

(** A configuration that selects the JSON channel and gives no webhook. *)
Definition no_webhook_cfg (users : list string) : config :=
  Config (Some users) (Some ["https://nitter.net"])
    (Some (PushConfig (Some "wecom") None None)).

(** A serializer and a parser that are inverse to each other, on texts. *)
Definition dump_text (s : string) : list string := [s].
Definition load_text (s : string) : option string := Some s.

End Scripted.
(** * Properties *)

(** ** Texts *)

Lemma length_string_app (s1 s2 : string) :
  String.length (s1 +:+ s2) = (String.length s1 + String.length s2)%nat.
Proof. induction s1 as [|a s1 IH]; simpl; [done|]. by rewrite <-IH. Qed.

Lemma string_app_nil_r (s : string) : s +:+ "" = s.
Proof.
  induction s as [|a s IH]; [done|].
  change (String a (s +:+ "") = String a s). by rewrite IH.
Qed.

Lemma string_app_assoc (s1 s2 s3 : string) : (s1 +:+ s2) +:+ s3 = s1 +:+ (s2 +:+ s3).
Proof.
  induction s1 as [|a s1 IH]; [done|].
  change (String a ((s1 +:+ s2) +:+ s3) = String a (s1 +:+ (s2 +:+ s3))).
  by rewrite IH.
Qed.

Lemma string_app_cons (a : ascii) (s1 s2 : string) :
  String a s1 +:+ s2 = String a (s1 +:+ s2).
Proof. reflexivity. Qed.

Lemma string_rev_app_acc (s t : string) :
  String.rev_app s t = String.rev s +:+ t.
Proof.
  unfold String.rev. revert t. induction s as [|a s IH]; intros t; [done|].
  cbn [String.rev_app]. rewrite (IH (String a t)), (IH (String a "")).
  by rewrite string_app_assoc.
Qed.

Lemma string_rev_cons (c : ascii) (s : string) :
  String.rev (String c s) = String.rev s +:+ String c "".
Proof. unfold String.rev at 1. cbn [String.rev_app]. apply string_rev_app_acc. Qed.

Lemma string_rev_app (a b : string) :
  String.rev (a +:+ b) = String.rev b +:+ String.rev a.
Proof.
  induction a as [|c a IH].
  - change ("" +:+ b) with b. change (String.rev "") with "".
    by rewrite string_app_nil_r.
  - change (String c a +:+ b) with (String c (a +:+ b)).
    by rewrite !string_rev_cons, IH, string_app_assoc.
Qed.

Lemma string_rev_involutive (s : string) : String.rev (String.rev s) = s.
Proof.
  induction s as [|c s IH]; [done|].
  by rewrite string_rev_cons, string_rev_app, IH.
Qed.

(** *** Characters *)

Lemma join_app (l1 l2 : list string) :
  Py.join (l1 ++ l2) = Py.join l1 +:+ Py.join l2.
Proof.
  induction l1 as [|c l1 IH]; [done|].
  change (c +:+ Py.join (l1 ++ l2) = (c +:+ Py.join l1) +:+ Py.join l2).
  by rewrite IH, string_app_assoc.
Qed.

Lemma join_glue (a : ascii) (cs : list string) :
  Py.join (Py.glue a cs) = String a (Py.join cs).
Proof.
  destruct cs as [|c cs]; [done|]. unfold Py.glue.
  by destruct (Py.starts_cont c).
Qed.

(** Cutting a text into its characters loses nothing. *)
Lemma join_chars (s : string) : Py.join (Py.chars s) = s.
Proof.
  induction s as [|a s IH]; [done|].
  cbn [Py.chars]. by rewrite join_glue, IH.
Qed.

Lemma chars_starts (s c : string) (cs : list string) :
  Py.chars s = c :: cs → Py.starts_cont c = Py.starts_cont s.
Proof.
  destruct s as [|a s]; [done|]. cbn [Py.chars]. unfold Py.glue.
  destruct (Py.chars s) as [|c' cs']; [by intros [= <- <-]|].
  by destruct (Py.starts_cont c'); intros [= <- <-].
Qed.

Lemma chars_cons_lead (a : ascii) (s : string) :
  Py.starts_cont s = false → Py.chars (String a s) = String a "" :: Py.chars s.
Proof.
  intros Hs. cbn [Py.chars]. unfold Py.glue.
  destruct (Py.chars s) as [|c cs] eqn:Hc; [done|].
  by rewrite (chars_starts _ _ _ Hc), Hs.
Qed.

Lemma glue_app (a : ascii) (x y : list string) :
  x ≠ [] → Py.glue a (x ++ y) = Py.glue a x ++ y.
Proof.
  destruct x as [|c x]; [done|]. intros _. unfold Py.glue. simpl.
  by destruct (Py.starts_cont c).
Qed.

Lemma glue_ne (a : ascii) (cs : list string) : Py.glue a cs ≠ [].
Proof. destruct cs as [|c cs]; [done|]. unfold Py.glue. by destruct (Py.starts_cont c). Qed.

(** The characters of two texts put together are the characters of the
    first and those of the second, when the second starts a character. *)
Lemma chars_app (s1 s2 : string) :
  Py.starts_cont s2 = false → Py.chars (s1 +:+ s2) = Py.chars s1 ++ Py.chars s2.
Proof.
  intros Hs2. induction s1 as [|a s1 IH]; [done|].
  rewrite string_app_cons. cbn [Py.chars].
  destruct s1 as [|b s1]; [|rewrite IH].
  - change (Py.glue a (Py.chars ("" +:+ s2))) with (Py.chars (String a s2)).
    by rewrite chars_cons_lead.
  - rewrite glue_app; [done|]. cbn [Py.chars]. apply glue_ne.
Qed.

Lemma chars_is_char (s : string) : Forall (λ c, Py.is_char c = true) (Py.chars s).
Proof.
  induction s as [|a s IH]; [constructor|]. cbn [Py.chars]. unfold Py.glue.
  destruct IH as [|c cs Hc Hcs]; [by repeat constructor|].
  destruct (Py.starts_cont c) eqn:Hs.
  - constructor; [|done]. destruct c as [|b t]; [done|]. simpl in *. by rewrite Hs.
  - by repeat constructor.
Qed.

Lemma chars_tail_lead (s : string) :
  Forall (λ c, Py.is_lead_char c = true) (tail (Py.chars s)).
Proof.
  induction s as [|a s IH]; [constructor|]. cbn [Py.chars]. unfold Py.glue.
  pose proof (chars_is_char s) as Hall.
  destruct (Py.chars s) as [|c cs]; [constructor|].
  destruct (Py.starts_cont c) eqn:Hs; [done|]. simpl in *.
  constructor; [|done]. apply Forall_inv in Hall.
  destruct c as [|b t]; [done|]. simpl in *. by rewrite Hs.
Qed.

Lemma chars_well_split (s : string) : Py.well_split (Py.chars s).
Proof. split; [apply chars_is_char|apply chars_tail_lead]. Qed.

Lemma sublist_tail {A} (l1 l2 : list A) : sublist l1 l2 → sublist (tail l1) (tail l2).
Proof.
  induction 1 as [|x l1 l2 Hs _|x l1 l2 Hs IH]; simpl; [constructor|done|].
  destruct l1 as [|y l1]; [apply sublist_nil_l|]. simpl in *.
  etrans; [|exact Hs]. by apply sublist_cons.
Qed.

Lemma Forall_sublist {A} (P : A → Prop) (l1 l2 : list A) :
  sublist l1 l2 → Forall P l2 → Forall P l1.
Proof.
  induction 1 as [|x l1 l2 Hs IH|x l1 l2 Hs IH]; [done| |].
  - intros [Hx Hl]%Forall_cons. constructor; [done|by apply IH].
  - intros [_ Hl]%Forall_cons. by apply IH.
Qed.

Lemma well_split_sublist (l1 l2 : list string) :
  sublist l1 l2 → Py.well_split l2 → Py.well_split l1.
Proof.
  intros Hs [H1 H2]. split.
  - by eapply Forall_sublist.
  - eapply Forall_sublist; [|exact H2]. by apply sublist_tail.
Qed.

Lemma chars_single_go (t : string) (a : ascii) :
  Py.all_cont t = true → Py.chars (String a t) = [String a t].
Proof.
  revert a. induction t as [|b t IH]; intros a; [done|].
  cbn [Py.all_cont]. intros [Hb Ht]%andb_prop.
  change (Py.chars (String a (String b t))) with (Py.glue a (Py.chars (String b t))).
  rewrite (IH b Ht). unfold Py.glue. cbn [Py.starts_cont]. by rewrite Hb.
Qed.

Lemma chars_single (c : string) : Py.is_char c = true → Py.chars c = [c].
Proof. destruct c as [|a t]; [done|]. apply chars_single_go. Qed.

Lemma join_lead_starts (cs : list string) :
  Forall (λ c, Py.is_lead_char c = true) cs → Py.starts_cont (Py.join cs) = false.
Proof.
  intros [|c l Hc _]; [done|]. destruct c as [|a t]; [done|].
  apply andb_prop in Hc as [Ha _]. simpl. by destruct (Py.is_cont a).
Qed.

(** A text cut into characters, put together and cut again, is cut the same
    way. *)
Lemma chars_join (cs : list string) : Py.well_split cs → Py.chars (Py.join cs) = cs.
Proof.
  intros [Hc Hl]. induction cs as [|c cs IH]; [done|].
  apply Forall_cons in Hc as [Hc Hcs]. simpl in Hl.
  change (Py.join (c :: cs)) with (c +:+ Py.join cs).
  rewrite chars_app by (by apply join_lead_starts).
  rewrite chars_single by done. simpl. f_equal. apply IH; [done|].
  destruct Hl; [constructor|done].
Qed.

Lemma is_char_truthy (c : string) : Py.is_char c = true → Py.truthy c = true.
Proof. by destruct c. Qed.

Lemma join_truthy (cs : list string) :
  cs ≠ [] → Forall (λ c, Py.is_char c = true) cs → Py.truthy (Py.join cs) = true.
Proof.
  destruct cs as [|c cs]; [done|]. intros _ [Hc _]%Forall_cons.
  by destruct c.
Qed.

(** *** The slice *)

Lemma take_prefix (n : nat) (s : string) : ∃ rest, s = Py.take n s +:+ rest.
Proof.
  exists (Py.join (drop n (Py.chars s))). unfold Py.take.
  by rewrite <-join_app, take_drop, join_chars.
Qed.

Lemma len_take (n : nat) (s : string) :
  Py.len (Py.take n s) = Nat.min n (Py.len s).
Proof.
  unfold Py.len, Py.take. rewrite chars_join.
  - by rewrite length_take.
  - eapply well_split_sublist; [apply sublist_take|apply chars_well_split].
Qed.

Lemma chars_take (n : nat) (s : string) :
  Py.chars (Py.take n s) = take n (Py.chars s).
Proof.
  unfold Py.take. apply chars_join.
  eapply well_split_sublist; [apply sublist_take|apply chars_well_split].
Qed.

Lemma take_all (n : nat) (s : string) : (Py.len s ≤ n)%nat → Py.take n s = s.
Proof.
  unfold Py.len, Py.take. intros Hle. by rewrite take_ge, join_chars.
Qed.

(** *** Stripping *)

Lemma drop_while_drop {A} (p : A → bool) (l : list A) :
  ∃ n, Py.drop_while p l = drop n l.
Proof.
  induction l as [|x l [n IH]]; [by exists O|]. simpl.
  destruct (p x); [by exists (S n)|by exists O].
Qed.

Lemma drop_while_head {A} (p : A → bool) (l : list A) (x : A) :
  head (Py.drop_while p l) = Some x → p x = false.
Proof.
  induction l as [|y l IH]; [done|]. simpl.
  destruct (p y) eqn:Hy; [done|]. by intros [= <-].
Qed.

Lemma drop_while_idem {A} (p : A → bool) (l : list A) :
  Py.drop_while p (Py.drop_while p l) = Py.drop_while p l.
Proof.
  induction l as [|y l IH]; [done|]. simpl.
  destruct (p y) eqn:Hy; [done|]. simpl. by rewrite Hy.
Qed.

(** What is left of a list when the elements that satisfy [p] are taken off
    both ends. *)
Lemma trim_spec {A} (p : A → bool) (l : list A) :
  let l' := reverse (Py.drop_while p (reverse (Py.drop_while p l))) in
  sublist l' l
  ∧ (∀ x, head l' = Some x → p x = false)
  ∧ (∀ x, last l' = Some x → p x = false).
Proof.
  intros l'. subst l'.
  destruct (drop_while_drop p l) as [n Hn].
  destruct (drop_while_drop p (reverse (Py.drop_while p l))) as [m Hm].
  assert (reverse (Py.drop_while p (reverse (Py.drop_while p l)))
          = take (length (Py.drop_while p l) - m) (Py.drop_while p l)) as Htake.
  { by rewrite Hm, drop_reverse, reverse_involutive. }
  split; [|split].
  - rewrite Htake. etrans; [apply sublist_take|]. rewrite Hn. apply sublist_drop.
  - rewrite Htake. intros x Hx. apply (drop_while_head p l).
    destruct (Py.drop_while p l) as [|y k]; [by rewrite take_nil in Hx|].
    destruct (length (y :: k) - m)%nat; [done|]. done.
  - intros x. rewrite last_reverse. apply drop_while_head.
Qed.

(** The characters of a stripped text are what is left of the characters of
    the text. *)
Lemma chars_strip (s : string) :
  Py.chars (Py.strip s)
  = reverse (Py.drop_while Py.is_space (reverse (Py.drop_while Py.is_space (Py.chars s)))).
Proof.
  unfold Py.strip. apply chars_join.
  eapply well_split_sublist; [|apply chars_well_split].
  apply (trim_spec Py.is_space (Py.chars s)).
Qed.

(** What [strip] returns neither starts nor ends with a white-space
    character. *)
Lemma strip_stripped (s : string) : stripped (Py.strip s).
Proof.
  unfold stripped. rewrite chars_strip.
  destruct (trim_spec Py.is_space (Py.chars s)) as (_ & Hh & Hl). by split.
Qed.

(** Stripping a second time changes nothing. *)
Lemma strip_idem (s : string) : Py.strip (Py.strip s) = Py.strip s.
Proof.
  unfold Py.strip at 1. rewrite chars_strip.
  set (l := reverse (Py.drop_while Py.is_space
                       (reverse (Py.drop_while Py.is_space (Py.chars s))))).
  destruct (trim_spec Py.is_space (Py.chars s)) as (_ & Hh & Hl). fold l in Hh, Hl.
  assert (Py.drop_while Py.is_space l = l) as ->.
  { destruct l as [|x k]; [done|]. simpl. by rewrite (Hh x). }
  assert (Py.drop_while Py.is_space (reverse l) = reverse l) as ->.
  { destruct (reverse l) as [|x k] eqn:Hr; [done|]. simpl.
    rewrite (Hl x); [done|]. by rewrite <-head_reverse, Hr. }
  by rewrite reverse_involutive.
Qed.

(** *** Replacing *)

Lemma absent_cons (c a : ascii) (s : string) :
  absent c (String a s) = true → Ascii.eqb c a = false ∧ absent c s = true.
Proof.
  simpl. intros [Ha Hs]%andb_prop. split; [|done].
  rewrite Ascii.eqb_sym. by destruct (Ascii.eqb a c).
Qed.

Lemma prefix_absent (c : ascii) (old s : string) :
  absent c s = true → String.prefix (String c old) s = false.
Proof.
  destruct s as [|a s]; [done|]. intros [Ha _]%absent_cons.
  simpl. destruct (ascii_dec c a) as [->|]; [|done].
  by rewrite Ascii.eqb_refl in Ha.
Qed.

(** Replacing a text that starts with a byte the string does not have
    changes nothing. *)
Lemma replace_absent (c : ascii) (old new s : string) :
  absent c s = true → Py.replace (String c old) new s = s.
Proof.
  unfold Py.replace. induction s as [|a s IH]; [done|]. intros Hs.
  cbn [Py.replace_go]. rewrite prefix_absent by done.
  apply absent_cons in Hs as [_ Hs]. by rewrite IH.
Qed.

(** *** Bytes at the end *)

Lemma lstrip_by_head (p : ascii → bool) (s : string) :
  Py.lstrip_by p s = "" ∨ ∃ c u, Py.lstrip_by p s = String c u ∧ p c = false.
Proof.
  induction s as [|c s IH]; [by left|]. simpl.
  destruct (p c) eqn:Hc; [done|]. right. by exists c, s.
Qed.

Lemma rstrip_by_app_stripped (p : ascii → bool) (s : string) (c : ascii) :
  p c = true → Py.rstrip_by p (s +:+ String c "") = Py.rstrip_by p s.
Proof.
  intros Hc. unfold Py.rstrip_by. rewrite string_rev_app.
  change (String.rev (String c "") +:+ String.rev s) with (String c (String.rev s)).
  cbn [Py.lstrip_by]. by rewrite Hc.
Qed.

Lemma tmp_path_differs (path : string) : path +:+ ".tmp" ≠ path.
Proof.
  intros Heq. apply (f_equal String.length) in Heq.
  rewrite length_string_app in Heq. simpl in Heq. lia.
Qed.

(** ** The identifier in a link *)

Lemma drop_prefix_app (p s : string) : drop_prefix p (p +:+ s) = Some s.
Proof.
  induction p as [|a p IH]; [by destruct s|].
  rewrite string_app_cons. simpl. by rewrite Ascii.eqb_refl.
Qed.

Lemma drop_prefix_inv (p s s' : string) : drop_prefix p s = Some s' → s = p +:+ s'.
Proof.
  revert s. induction p as [|a p IH]; intros [|b s]; simpl; try done.
  - by intros [= <-].
  - by intros [= <-].
  - destruct (Ascii.eqb_spec a b) as [->|]; [|done].
    intros Hd. rewrite string_app_cons. f_equal. by apply IH.
Qed.

Lemma drop_prefix_cons (a b : ascii) (p s : string) :
  drop_prefix (String a p) (String b s)
  = if Ascii.eqb a b then drop_prefix p s else None.
Proof. reflexivity. Qed.

Lemma drop_prefix_no_slash (p u r s' : string) :
  absent "/" u = true → absent "/" p = true →
  drop_prefix (p +:+ "/") (u +:+ String "/" r) = Some s' →
  p = u ∧ s' = r.
Proof.
  revert u. induction p as [|b p IH]; intros [|a u].
  - intros _ _.
    change (drop_prefix "/" (String "/" r) = Some s' → "" = "" ∧ s' = r).
    rewrite drop_prefix_cons. simpl. by intros [= <-].
  - intros [Ha _]%absent_cons _. rewrite string_app_cons.
    change ("" +:+ "/") with "/".
    rewrite (drop_prefix_cons "/" a ""). by rewrite Ha.
  - intros _ [Hb _]%absent_cons. rewrite string_app_cons.
    change ("" +:+ String "/" r) with (String "/" r).
    rewrite drop_prefix_cons. rewrite Ascii.eqb_sym. by rewrite Hb.
  - intros [_ Hu]%absent_cons [_ Hp]%absent_cons. rewrite !string_app_cons.
    rewrite drop_prefix_cons.
    destruct (Ascii.eqb_spec b a) as [->|]; [|done].
    intros Hd. destruct (IH u Hu Hp Hd) as [-> ->]. done.
Qed.

Lemma is_digit_is_nat (a : ascii) :
  Py.is_digit a = true → ∃ d, Ascii.is_nat a = Some d.
Proof. unfold Py.is_digit. destruct (Ascii.is_nat a); eauto; done. Qed.

Lemma is_digit_is_word (a : ascii) : Py.is_digit a = true → Py.is_word a = true.
Proof.
  unfold Py.is_digit, Ascii.is_nat.
  destruct a as [[] [] [] [] [] [] [] []]; simpl; done.
Qed.

Lemma is_digit_below_127 (a : ascii) :
  Py.is_digit a = true → (N_of_ascii a <? 127)%N = true.
Proof.
  unfold Py.is_digit, Ascii.is_nat.
  destruct a as [[] [] [] [] [] [] [] []]; simpl; done.
Qed.

Section Identifier.
Context `{Host}.

(** A decimal digit is a word character. *)
Lemma is_decimal_is_word (c : string) : is_decimal c = true → is_word_char c = true.
Proof.
  destruct c as [|a [|b t]]; simpl.
  - by intros ->.
  - apply is_digit_is_word.
  - by intros ->.
Qed.

Lemma span_digits_inv (cs ds rest : list string) :
  span_digits cs = (ds, rest) →
  cs = ds ++ rest ∧ Forall (λ c, is_decimal c = true) ds.
Proof.
  revert ds rest. induction cs as [|c cs IH]; intros ds rest; simpl.
  { by intros [= <- <-]. }
  destruct (is_decimal c) eqn:Hc; [|by intros [= <- <-]].
  destruct (span_digits cs) as [ds' rest'] eqn:Hs. intros [= <- <-].
  destruct (IH ds' rest' eq_refl) as [-> Hd].
  split; [done|]. by constructor.
Qed.

Lemma span_digits_app (ds rest : list string) :
  Forall (λ c, is_decimal c = true) ds → word_boundary_after_digit rest = true →
  span_digits (ds ++ rest) = (ds, rest).
Proof.
  intros Hd Hb. induction Hd as [|c ds Hc Hd IH].
  - destruct rest as [|c rest]; [done|]. simpl in *.
    destruct (is_decimal c) eqn:Hc; [|done].
    apply is_decimal_is_word in Hc. by rewrite Hc in Hb.
  - simpl. by rewrite Hc, IH.
Qed.

Lemma match_status_at_inv (s tid : string) :
  match_status_at s = Some tid →
  ∃ s' ds rest,
    s = "/status/" +:+ s' ∧ Py.chars s' = ds ++ rest ∧ tid = Py.join ds
    ∧ ds ≠ [] ∧ Forall (λ c, is_decimal c = true) ds
    ∧ word_boundary_after_digit rest = true.
Proof.
  unfold match_status_at.
  destruct (drop_prefix "/status/" s) as [s'|] eqn:Hp; [|done].
  apply drop_prefix_inv in Hp as ->.
  destruct (span_digits (Py.chars s')) as [ds rest] eqn:Hs.
  apply span_digits_inv in Hs as [Hs Hd].
  destruct ds as [|d ds]; [done|].
  destruct (word_boundary_after_digit rest) eqn:Hb; [|done].
  intros [= <-]. by exists s', (d :: ds), rest.
Qed.

Lemma match_status_at_app (s' : string) (ds rest : list string) :
  Py.chars s' = ds ++ rest → ds ≠ [] →
  Forall (λ c, is_decimal c = true) ds →
  word_boundary_after_digit rest = true →
  match_status_at ("/status/" +:+ s') = Some (Py.join ds).
Proof.
  intros Hs Hne Hd Hb. unfold match_status_at.
  rewrite drop_prefix_app, Hs, span_digits_app by done.
  destruct ds as [|d ds]; [done|]. by rewrite Hb.
Qed.

Lemma extract_tweet_id_cons (a : ascii) (s : string) :
  extract_tweet_id (String a s)
  = match match_status_at (String a s) with
    | Some tid => Some tid
    | None => extract_tweet_id s
    end.
Proof. reflexivity. Qed.

Lemma extract_tweet_id_skip (a : ascii) (s : string) :
  match_status_at (String a s) = None →
  extract_tweet_id (String a s) = extract_tweet_id s.
Proof. intros Hm. by rewrite extract_tweet_id_cons, Hm. Qed.

(** Where the identifier is found: after some occurrence of ["/status/"]. *)
Lemma extract_tweet_id_inv (l tid : string) :
  extract_tweet_id l = Some tid →
  ∃ pre s' ds rest,
    l = pre +:+ "/status/" +:+ s' ∧ Py.chars s' = ds ++ rest ∧ tid = Py.join ds
    ∧ ds ≠ [] ∧ Forall (λ c, is_decimal c = true) ds
    ∧ word_boundary_after_digit rest = true.
Proof.
  induction l as [|a l IH].
  { simpl. done. }
  rewrite extract_tweet_id_cons.
  destruct (match_status_at (String a l)) as [tid'|] eqn:Hm.
  - intros [= ->]. apply match_status_at_inv in Hm as (s' & ds & rest & Hl & Hrest).
    exists "", s', ds, rest. by rewrite Hl.
  - intros Hx. destruct (IH Hx) as (pre & s' & ds & rest & -> & Hrest).
    exists (String a pre), s', ds, rest. by rewrite string_app_cons.
Qed.

(** What [extract_tweet_id] returns is a non-empty text, made of decimal
    digits, which are its characters. *)
Lemma extract_tweet_id_digits (l tid : string) :
  extract_tweet_id l = Some tid →
  Py.truthy tid = true
  ∧ Py.chars tid ≠ []
  ∧ Forall (λ c, is_decimal c = true) (Py.chars tid).
Proof.
  intros (pre & s' & ds & rest & _ & Hs & -> & Hne & Hd & _)%extract_tweet_id_inv.
  assert (Py.well_split ds) as Hwf.
  { eapply well_split_sublist; [|apply (chars_well_split s')].
    rewrite Hs. by apply sublist_inserts_r. }
  rewrite chars_join by done. split; [|done].
  apply join_truthy; [done|]. apply Hwf.
Qed.

(** X1: [extract_tweet_id] returns an identifier only if the link holds
    ["/status/"] and the characters after it are: the characters of the
    identifier, at least one, each a decimal digit; and then the end of the
    link or a character that is not alphanumeric and not the underscore.  And
    it returns an identifier for every link that holds such an occurrence.
    A character of ASCII is a decimal digit or a word character by the ASCII
    classes; outside ASCII the Unicode database of the host decides. *)
Theorem extract_tweet_id_spec (l : string) :
  (∀ tid, extract_tweet_id l = Some tid →
     ∃ pre s' ds rest,
       l = pre +:+ "/status/" +:+ s' ∧ Py.chars s' = ds ++ rest ∧ tid = Py.join ds
       ∧ ds ≠ [] ∧ Forall (λ c, is_decimal c = true) ds
       ∧ word_boundary_after_digit rest = true)
  ∧ (∀ pre s' ds rest,
       l = pre +:+ "/status/" +:+ s' → Py.chars s' = ds ++ rest → ds ≠ [] →
       Forall (λ c, is_decimal c = true) ds →
       word_boundary_after_digit rest = true →
       is_Some (extract_tweet_id l)).
Proof.
  split; [apply extract_tweet_id_inv|].
  intros pre s' ds rest -> Hs Hne Hd Hb. induction pre as [|a pre IH].
  - change ("" +:+ "/status/" +:+ s') with ("/status/" +:+ s').
    pose proof (match_status_at_app s' ds rest Hs Hne Hd Hb) as Hm.
    change ("/status/" +:+ s') with (String "/" ("status/" +:+ s')) in *.
    rewrite extract_tweet_id_cons, Hm. eauto.
  - rewrite string_app_cons, extract_tweet_id_cons.
    destruct (match_status_at _); eauto.
Qed.

(** *** The canonical link *)

(** A text without a slash holds no match, and the search goes past it. *)
Lemma extract_tweet_id_past (u rest : string) :
  absent "/" u = true → extract_tweet_id (u +:+ rest) = extract_tweet_id rest.
Proof.
  induction u as [|a u IH]; [done|].
  intros [Ha Hu]%absent_cons. rewrite string_app_cons, extract_tweet_id_skip.
  - by apply IH.
  - unfold match_status_at.
    rewrite (drop_prefix_cons "/" a "status/"). by rewrite Ha.
Qed.

(** At the slash before the account name, the pattern does not match. *)
Lemma match_status_at_user (u tid : string) :
  absent "/" u = true →
  match_status_at (String "/" (u +:+ "/status/" +:+ tid)) = None.
Proof.
  intros Hu. unfold match_status_at.
  change (drop_prefix "/status/" (String "/" (u +:+ "/status/" +:+ tid)))
    with (drop_prefix ("status" +:+ "/") (u +:+ String "/" ("status/" +:+ tid))).
  destruct (drop_prefix _ _) as [s'|] eqn:Hd; [|done].
  apply drop_prefix_no_slash in Hd as [_ ->]; [|done|done].
  change ("status/" +:+ tid) with (String "s" ("tatus/" +:+ tid)).
  by rewrite chars_cons_lead.
Qed.

Lemma x_com_app (x : string) :
  "https://x.com/" +:+ x
  = String "h" (String "t" (String "t" (String "p" (String "s" (String ":"
      (String "/" (String "/" (String "x" (String "." (String "c" (String "o"
        (String "m" (String "/" x))))))))))))).
Proof. reflexivity. Qed.

(** The identifier put into the canonical link is the one found in it. *)
Lemma extract_build_x_link (username tid : string) :
  absent "/" username = true →
  Py.chars tid ≠ [] → Forall (λ c, is_decimal c = true) (Py.chars tid) →
  extract_tweet_id (build_x_link username tid) = Some tid.
Proof.
  intros Hu Hne Hd. unfold build_x_link. rewrite x_com_app.
  do 13 (rewrite extract_tweet_id_skip by reflexivity).
  rewrite extract_tweet_id_skip by (by apply match_status_at_user).
  rewrite (extract_tweet_id_past username) by done.
  pose proof (match_status_at_app tid (Py.chars tid) [] (eq_sym (app_nil_r _))
                Hne Hd eq_refl) as Hm.
  rewrite join_chars in Hm.
  change ("/status/" +:+ tid) with (String "/" ("status/" +:+ tid)) in *.
  by rewrite extract_tweet_id_cons, Hm.
Qed.

(** X2: for an account name without a slash, the text of a message is
    ["@name:"], then the title part, then a newline and the link of the
    message; that link carries the identifier of the entry's own link; and it
    is the canonical [https://x.com/name/status/id] when the entry has an
    identifier, whatever mirror its link names, and the entry's link as it is
    otherwise. *)
Theorem format_message_link (username : string) (it : item) :
  absent "/" username = true →
  (∃ body, (format_message username it).1
           = "@" +:+ username +:+ ":" +:+ body +:+ nl +:+ (format_message username it).2)
  ∧ extract_tweet_id (format_message username it).2 = extract_tweet_id (link it)
  ∧ match extract_tweet_id (link it) with
    | Some tid =>
        (format_message username it).2
        = "https://x.com/" +:+ username +:+ "/status/" +:+ tid
    | None => (format_message username it).2 = link it
    end.
Proof.
  intros Hu. unfold format_message. cbv zeta.
  set (clean := Py.replace "&gt;" ">" (Py.replace "&lt;" "<"
                  (Py.replace "&amp;" "&" (title it)))).
  destruct (extract_tweet_id (link it)) as [tid|] eqn:Hx;
    cbn [default fst snd]; unfold id.
  - destruct (extract_tweet_id_digits _ _ Hx) as (Ht & Hne & Hd). rewrite Ht.
    split; [|split; [by apply extract_build_x_link|done]].
    destruct (negb (String.eqb (simple_translate clean) clean)
              && Py.truthy (Py.strip (simple_translate clean))).
    + exists (nl +:+ simple_translate clean +:+ nl +:+ nl +:+ label_original
              +:+ clean).
      by rewrite !string_app_assoc.
    + exists (" " +:+ clean). by rewrite !string_app_assoc.
  - cbn [Py.truthy]. split; [|by rewrite Hx].
    destruct (negb (String.eqb (simple_translate clean) clean)
              && Py.truthy (Py.strip (simple_translate clean))).
    + exists (nl +:+ simple_translate clean +:+ nl +:+ nl +:+ label_original
              +:+ clean).
      by rewrite !string_app_assoc.
    + exists (" " +:+ clean). by rewrite !string_app_assoc.
Qed.

(** X3: a title without an ampersand is not altered by the decoding of
    entities; when moreover the translator returns it as it is, or returns
    only white space, the text of the message is ["@name: "], the title, a
    newline and the link of the message. *)
Theorem format_message_plain (username : string) (it : item) :
  absent "&" (title it) = true →
  simple_translate (title it) = title it
  ∨ Py.strip (simple_translate (title it)) = "" →
  (format_message username it).1
  = "@" +:+ username +:+ ": " +:+ title it +:+ nl +:+ (format_message username it).2.
Proof.
  intros Hamp Htr. unfold format_message. cbv zeta. cbn [fst snd].
  rewrite (replace_absent "&" "amp;" "&" (title it)) by done.
  rewrite (replace_absent "&" "lt;" "<" (title it)) by done.
  rewrite (replace_absent "&" "gt;" ">" (title it)) by done.
  destruct Htr as [-> | ->]; [by rewrite String.eqb_refl|].
  by rewrite andb_false_r.
Qed.

End Identifier.

(** X2: the message for the first entry of the scripted feed. *)
Lemma format_message_link_witness :
  absent "/" "jack" = true
  ∧ (@format_message Scripted.jack_host "jack"
       (Item "one" "https://nitter.net/jack/status/101#m" "2024-01-01T10:00:00Z" "")).2
    = "https://x.com/jack/status/101".
Proof.
  split; [reflexivity|].
  exact (proj2 (proj2 (@format_message_link Scripted.jack_host "jack"
                         (Item "one" "https://nitter.net/jack/status/101#m"
                               "2024-01-01T10:00:00Z" "") eq_refl))).
Defined.

(** X3: the same entry, with the translator of the scripted host, which
    returns its input. *)
Lemma format_message_plain_witness :
  absent "&" "one" = true
  ∧ (@format_message Scripted.jack_host "jack"
       (Item "one" "https://nitter.net/jack/status/101#m" "2024-01-01T10:00:00Z" "")).1
    = "@jack: one" +:+ nl +:+ "https://x.com/jack/status/101".
Proof.
  split; [reflexivity|].
  exact (@format_message_plain Scripted.jack_host "jack"
           (Item "one" "https://nitter.net/jack/status/101#m"
                 "2024-01-01T10:00:00Z" "") eq_refl (or_introl eq_refl)).
Defined.

(** ** Reading integers *)

Lemma below_127_starts (s : string) :
  Py.below_127 s = true → Py.starts_cont s = false.
Proof.
  destruct s as [|a s]; [done|]. simpl. intros [Ha _]%andb_prop.
  unfold Py.is_cont. apply N.ltb_lt in Ha.
  destruct (128 <=? N_of_ascii a)%N eqn:Hge; [|done].
  apply N.leb_le in Hge. lia.
Qed.

(** A text of ASCII characters is read as it stands. *)
Lemma to_ascii_below_127 (decimal : string → option nat) (s : string) :
  Py.below_127 s = true → Py.to_ascii decimal (Py.chars s) = Some s.
Proof.
  induction s as [|a s IH]; [done|]. cbn [Py.below_127].
  intros [Ha Hs]%andb_prop.
  rewrite chars_cons_lead by (by apply below_127_starts).
  cbn [Py.to_ascii Py.to_ascii_char]. by rewrite Ha, IH.
Qed.

Lemma int_below_127 (max_digits : nat) (decimal : string → option nat) (s : string) :
  Py.below_127 s = true →
  Py.int max_digits decimal s
  = if Py.exceeds max_digits (Py.count_digits s) then None else Py.int_ascii s.
Proof. intros Hs. unfold Py.int. by rewrite to_ascii_below_127. Qed.

Lemma all_digits_below_127 (s : string) :
  Py.all_digits s = true → Py.below_127 s = true.
Proof.
  induction s as [|a s IH]; [done|]. simpl. intros [Ha Hs]%andb_prop.
  by rewrite is_digit_below_127, IH.
Qed.

Lemma count_all_digits (s : string) :
  Py.all_digits s = true → Py.count_digits s = String.length s.
Proof.
  induction s as [|a s IH]; [done|]. simpl. intros [-> Hs]%andb_prop.
  by rewrite IH.
Qed.

(** *** [str] of an integer, read back by [int] *)

(** The character of a digit below ten is read back as that digit. *)
Lemma is_nat_pretty_N_char (x : N) :
  (x < 10)%N → Ascii.is_nat (pretty_N_char x) = Some (N.to_nat x).
Proof.
  intros Hx. destruct x as [|p]; [done|].
  do 4 (try (destruct p as [p|p|]; try done; try lia)).
Qed.

Lemma all_digits_pretty_N_go (x : N) (s : string) :
  Py.all_digits s = true → Py.all_digits (pretty_N_go x s) = true.
Proof.
  revert s. induction (N.lt_wf_0 x) as [x _ IH]. intros s Hs.
  destruct (decide (x = 0)%N) as [->|Hx]; [by rewrite pretty_N_go_0|].
  rewrite pretty_N_go_step by lia. apply IH; [apply N.div_lt; lia|].
  simpl. rewrite Hs, andb_true_r. unfold Py.is_digit.
  rewrite is_nat_pretty_N_char; [done|]. apply N.mod_lt. lia.
Qed.

Lemma all_digits_pretty_N (x : N) : Py.all_digits (pretty x) = true.
Proof.
  unfold pretty, pretty_N. case_decide; [done|]. by apply all_digits_pretty_N_go.
Qed.

(** The decimal digits of a positive number are read back as that number. *)
Lemma int_unsigned_pretty_N_go (x : N) (s : string) :
  (0 < x)%N →
  Py.int_unsigned (pretty_N_go x s) = Py.int_digits (Z.of_N x) false s.
Proof.
  revert s. induction (N.lt_wf_0 x) as [x _ IH]. intros s Hx.
  rewrite pretty_N_go_step by done.
  assert (x `mod` 10 < 10)%N as Hmod by (apply N.mod_lt; lia).
  pose proof (N.div_mod x 10 ltac:(lia)) as Hdm.
  destruct (decide (x `div` 10 = 0)%N) as [Hz|Hnz].
  - rewrite Hz, pretty_N_go_0. simpl.
    rewrite is_nat_pretty_N_char by done. f_equal. lia.
  - rewrite IH; [|apply N.div_lt; lia|lia]. simpl.
    rewrite is_nat_pretty_N_char by done. f_equal. lia.
Qed.

(** A text that starts with a digit is read as it stands: no white space, no
    sign. *)
Lemma int_of_int_unsigned (s : string) (v : Z) :
  Py.int_unsigned s = Some v → Py.int_ascii s = Some v.
Proof.
  destruct s as [|a s]; [done|]. simpl.
  destruct (Ascii.is_nat a) as [d|] eqn:Hd; [|done]. intros Hv.
  unfold Py.int_ascii.
  assert (Py.lstrip_by Ascii.is_space (String a s) = String a s) as ->.
  { revert Hd. simpl. unfold Ascii.is_nat, Ascii.is_space.
    destruct a as [[] [] [] [] [] [] [] []]; simpl; done. }
  assert (Py.int_unsigned (String a s) = Some v) as Hu by (simpl; by rewrite Hd).
  revert Hd. unfold Ascii.is_nat.
  destruct a as [[] [] [] [] [] [] [] []]; try done.
Qed.

(** The decimal text of an integer, read as ASCII, is the integer. *)
Lemma int_ascii_pretty (z : Z) : Py.int_ascii (pretty z) = Some z.
Proof.
  destruct z as [|p|p]; [done| |].
  - apply int_of_int_unsigned. unfold pretty, pretty_Z, pretty, pretty_positive, pretty, pretty_N.
    rewrite decide_False by done. by rewrite int_unsigned_pretty_N_go.
  - unfold pretty, pretty_Z, pretty, pretty_positive, pretty, pretty_N.
    rewrite decide_False by done. unfold Py.int_ascii.
    change (Py.lstrip_by Ascii.is_space ("-" +:+ pretty_N_go (N.pos p) ""))
      with (String "-" (pretty_N_go (N.pos p) "")).
    cbv iota beta. rewrite int_unsigned_pretty_N_go by done. done.
Qed.

Lemma pretty_Z_digits (z : Z) :
  Py.below_127 (pretty z) = true
  ∧ Py.count_digits (pretty z) = String.length (pretty (Z.abs z)).
Proof.
  destruct z as [|p|p]; [done| |].
  - change (pretty (Z.pos p)) with (pretty (N.pos p)).
    change (pretty (Z.abs (Z.pos p))) with (pretty (N.pos p)).
    pose proof (all_digits_pretty_N (N.pos p)) as Hd.
    split; [by apply all_digits_below_127|by apply count_all_digits].
  - change (pretty (Z.neg p)) with (String "-" (pretty (N.pos p))).
    change (pretty (Z.abs (Z.neg p))) with (pretty (N.pos p)).
    pose proof (all_digits_pretty_N (N.pos p)) as Hd. simpl.
    split; [by apply all_digits_below_127|by apply count_all_digits].
Qed.

Section Reading.
Context `{Host}.

(** [int(str(n))] is [n], whenever [str(n)] is within the limit on digits:
    an integer stored as [last_id] is read back. *)
Lemma int_py_str_int (z : Z) (l : string) :
  py_str (JVal (PInt z)) = Ok l → l = pretty z ∧ py_int l = Some z.
Proof.
  simpl. destruct (Py.exceeds _ _) eqn:Hex; [done|]. intros [= <-].
  split; [done|]. unfold py_int.
  destruct (pretty_Z_digits z) as [Hb Hc].
  rewrite int_below_127 by done. rewrite Hc, Hex. apply int_ascii_pretty.
Qed.

End Reading.

(** ** The sort *)

Lemma insert_by_pubDate_perm (x : item) (l : list item) :
  insert_by_pubDate x l ≡ₚ x :: l.
Proof.
  induction l as [|y l IH]; simpl; [done|].
  destruct (String.leb _ _); [done|]. rewrite IH. apply Permutation_swap.
Qed.

Lemma sort_by_pubDate_perm (l : list item) : sort_by_pubDate l ≡ₚ l.
Proof.
  induction l as [|x l IH]; simpl; [done|].
  rewrite insert_by_pubDate_perm. by f_equiv.
Qed.

Lemma sort_by_pubDate_elem (x : item) (l : list item) :
  x ∈ sort_by_pubDate l ↔ x ∈ l.
Proof. by rewrite sort_by_pubDate_perm. Qed.

Lemma sort_by_pubDate_nil (l : list item) : sort_by_pubDate l = [] → l = [].
Proof.
  intros Hs. apply Permutation_nil_r. rewrite <-Hs.
  symmetry. apply sort_by_pubDate_perm.
Qed.

Lemma insert_by_pubDate_sorted (x : item) (l : list item) :
  Sorted pubDate_text_le l → Sorted pubDate_text_le (insert_by_pubDate x l).
Proof.
  induction l as [|y l IH]; simpl; intros Hs.
  - repeat constructor.
  - destruct (String.leb (pubDate x) (pubDate y)) eqn:Hxy.
    + constructor; [done|]. constructor. unfold pubDate_text_le, String.le.
      by rewrite Hxy.
    + apply Sorted_inv in Hs as [Hs Hhd]. constructor; [by apply IH|].
      assert (pubDate_text_le y x) as Hyx.
      { unfold pubDate_text_le, String.le.
        destruct (String.leb_total (pubDate x) (pubDate y)) as [Hle|Hle];
          [congruence | by rewrite Hle]. }
      destruct l as [|z l]; simpl; [by constructor|].
      destruct (String.leb (pubDate x) (pubDate z)); constructor; try done.
      by inversion Hhd.
Qed.

Lemma sort_by_pubDate_sorted (l : list item) :
  Sorted pubDate_text_le (sort_by_pubDate l).
Proof.
  induction l as [|x l IH]; simpl; [constructor|].
  by apply insert_by_pubDate_sorted.
Qed.

Lemma sort_by_pubDate_sorted_id (l : list item) :
  Sorted pubDate_text_le l → sort_by_pubDate l = l.
Proof.
  induction 1 as [|x l Hs IH Hhd]; simpl; [done|]. rewrite IH.
  destruct Hhd as [|y l Hxy]; simpl; [done|].
  unfold pubDate_text_le, String.le in Hxy. by destruct (String.leb _ _).
Qed.

Global Instance pubDate_text_le_trans : Transitive pubDate_text_le.
Proof. intros a b c. unfold pubDate_text_le. apply transitivity. Qed.

Lemma filter_strongly_sorted {A} (R : A → A → Prop) (f : A → bool) (l : list A) :
  StronglySorted R l → StronglySorted R (List.filter f l).
Proof.
  induction 1 as [|x l Hs IH Hall]; simpl; [constructor|].
  destruct (f x); [|done]. constructor; [done|].
  apply List.Forall_forall. intros y [Hy _]%filter_In.
  by eapply List.Forall_forall in Hall.
Qed.

(** Sorting the kept entries of a feed that is already sorted changes
    nothing. *)
Lemma sort_filter_sorted (f : item → bool) (items : list item) :
  Sorted pubDate_text_le items →
  sort_by_pubDate (List.filter f items) = List.filter f items.
Proof.
  intros Hs. apply sort_by_pubDate_sorted_id, StronglySorted_Sorted.
  apply filter_strongly_sorted, Sorted_StronglySorted; [|done].
  intros a b c. apply pubDate_text_le_trans.
Qed.

Lemma insert_by_pubDate_filter (k : string) (x : item) (l : list item) :
  List.filter (λ y, String.eqb (pubDate y) k) (insert_by_pubDate x l)
  = List.filter (λ y, String.eqb (pubDate y) k) (x :: l).
Proof.
  induction l as [|y l IH]; [done|]. cbn [insert_by_pubDate].
  destruct (String.leb (pubDate x) (pubDate y)) eqn:Hxy; [done|].
  cbn [List.filter] in *. rewrite IH.
  destruct (String.eqb (pubDate x) k) eqn:Hx; [|done].
  destruct (String.eqb (pubDate y) k) eqn:Hy; [|done].
  apply String.eqb_eq in Hx, Hy. rewrite Hx, Hy in Hxy.
  destruct (String.leb_total k k); congruence.
Qed.

(** X5: the sort on the dates gives a rearrangement of the list that is
    ordered by the text of the dates, and keeps the entries of equal date in
    the order they had; sorting a second time changes nothing. *)
Theorem sort_by_pubDate_stable (l : list item) :
  sort_by_pubDate l ≡ₚ l
  ∧ Sorted pubDate_text_le (sort_by_pubDate l)
  ∧ (∀ k, List.filter (λ y, String.eqb (pubDate y) k) (sort_by_pubDate l)
          = List.filter (λ y, String.eqb (pubDate y) k) l)
  ∧ sort_by_pubDate (sort_by_pubDate l) = sort_by_pubDate l.
Proof.
  split; [apply sort_by_pubDate_perm|].
  split; [apply sort_by_pubDate_sorted|].
  split; [|apply sort_by_pubDate_sorted_id, sort_by_pubDate_sorted].
  intros k. induction l as [|x l IH]; [done|].
  cbn [sort_by_pubDate foldr]. rewrite insert_by_pubDate_filter.
  cbn [List.filter]. fold (sort_by_pubDate l). by rewrite IH.
Qed.

(** ** Running the monad *)

Section Run.
Context `{Host}.

Lemma run_bind {A B} (m : M A) (f : A → M B) (w : World) :
  (m ≫= f) w =
    let '(w1, t1, r) := m w in
    match r with
    | Ok a => let '(w2, t2, r2) := f a w1 in (w2, t1 ++ t2, r2)
    | Raise e => (w1, t1, Raise e)
    end.
Proof. reflexivity. Qed.

Lemma run_ret {A} (a : A) (w : World) : (mret a : M A) w = (w, [], Ok a).
Proof. reflexivity. Qed.

Lemma run_print (l : line) (w : World) : print l w = (w, [Print l], Ok tt).
Proof. reflexivity. Qed.

Lemma run_submit (r : request) (w : World) :
  submit r w
  = ((urlopen r w).2, [Request r (urlopen r w).1], status_and_body (urlopen r w).1).
Proof. unfold submit. by destruct (urlopen r w). Qed.

End Run.

(** ** The push functions *)

Section Push.
Context `{Host}.

Lemma wecom_accepted_iff (body : string) :
  wecom_accepted body = true ↔ reports_zero "errcode" body.
Proof.
  unfold wecom_accepted, reports_zero. split.
  - destruct (json_loads body) as [[| |kv]|]; try done.
    destruct (obj_get "errcode" kv) as [v|] eqn:Hget; simpl; [|done]. eauto.
  - intros (kv & v & -> & -> & Hz). done.
Qed.

Lemma serverchan_accepted_iff (body : string) :
  serverchan_accepted body = true ↔ reports_zero "code" body.
Proof.
  unfold serverchan_accepted, reports_zero. split.
  - destruct (json_loads body) as [[| |kv]|]; try done.
    destruct (obj_get "code" kv) as [v|] eqn:Hget; simpl; [|done]. eauto.
  - intros (kv & v & -> & -> & Hz). done.
Qed.

Lemma run_push_wecom (webhook text : string) (w : World) :
  let r := PostJson webhook (wecom_payload text) in
  push_wecom webhook text w
  = ((urlopen r w).2, [Request r (urlopen r w).1], pushed r (urlopen r w).1).
Proof.
  unfold push_wecom, http_post_json, pushed, confirms.
  rewrite run_bind, run_submit.
  destruct (status_and_body _) as [[code body]|e]; simpl; [|done].
  by destruct (code =? 200).
Qed.

Lemma run_push_serverchan (sendkey title desp : string) (w : World) :
  let r := PostForm ("https://sctapi.ftqq.com/" +:+ sendkey +:+ ".send")
                    [("title", title); ("desp", desp)] in
  push_serverchan sendkey title desp w
  = ((urlopen r w).2, [Request r (urlopen r w).1], pushed r (urlopen r w).1).
Proof.
  unfold push_serverchan, http_post_form, pushed, confirms.
  rewrite run_bind, run_submit.
  destruct (status_and_body _) as [[code body]|e]; simpl; [|done].
  by destruct (code =? 200).
Qed.

(** C6, as amended: for every way the exchange ends that the transport
    functions report (a response, an [HTTPError], a [URLError]), each push
    function returns a boolean, and the boolean is [True] exactly when the
    status is 200 (not any other 2xx status) and the body parses to an object
    whose [errcode] (JSON channel) or [code] (form channel) equals [0].  Any
    other exception of the exchange passes through the push function. *)
Theorem push_true_iff_200_and_zero (webhook text sendkey title desp : string)
    (w : World) :
  (∀ code body,
     status_and_body (urlopen (PostJson webhook (wecom_payload text)) w).1
     = Ok (code, body) →
     ∃ b, (push_wecom webhook text w).2 = Ok b
          ∧ (b = true ↔ code = 200 ∧ reports_zero "errcode" body))
  ∧ (∀ code body,
       status_and_body
         (urlopen (PostForm ("https://sctapi.ftqq.com/" +:+ sendkey +:+ ".send")
                     [("title", title); ("desp", desp)]) w).1
       = Ok (code, body) →
       ∃ b, (push_serverchan sendkey title desp w).2 = Ok b
            ∧ (b = true ↔ code = 200 ∧ reports_zero "code" body))
  ∧ (∀ e,
       (urlopen (PostJson webhook (wecom_payload text)) w).1 = Escapes e →
       (push_wecom webhook text w).2 = Raise e)
  ∧ (∀ e,
       (urlopen (PostForm ("https://sctapi.ftqq.com/" +:+ sendkey +:+ ".send")
                   [("title", title); ("desp", desp)]) w).1 = Escapes e →
       (push_serverchan sendkey title desp w).2 = Raise e).
Proof.
  rewrite run_push_wecom, run_push_serverchan. unfold pushed, confirms.
  cbn [fst snd]. split; [|split; [|split]].
  - intros code body ->. eexists; split; [done|].
    rewrite andb_true_iff, Z.eqb_eq, wecom_accepted_iff. done.
  - intros code body ->. eexists; split; [done|].
    rewrite andb_true_iff, Z.eqb_eq, serverchan_accepted_iff. done.
  - by intros e ->.
  - by intros e ->.
Qed.

(** C10: [push_wecom] submits one request, a JSON payload whose text content
    is the first 4096 characters of the message: its characters are the
    first 4096 of the message's, it is a prefix of the message with
    [min 4096 (len text)] characters, and it is the message itself when that
    has at most 4096 characters. *)
Theorem push_wecom_sends_first_4096 (webhook text : string) (w : World) :
  requests (push_wecom webhook text w).1.2 =
    [PostJson webhook
       (JObj [ ("msgtype", JVal (PStr "text"));
               ("text", JObj [ ("content", JVal (PStr (Py.take 4096 text))) ]) ])]
  ∧ Py.chars (Py.take 4096 text) = take 4096 (Py.chars text)
  ∧ (∃ rest, text = Py.take 4096 text +:+ rest)
  ∧ Py.len (Py.take 4096 text) = Nat.min 4096 (Py.len text)
  ∧ (if decide (Py.len text ≤ 4096)%nat
     then Py.take 4096 text = text
     else Py.len (Py.take 4096 text) = 4096%nat).
Proof.
  split; [by rewrite run_push_wecom|].
  split; [apply chars_take|].
  split; [apply take_prefix|].
  split; [apply len_take|].
  case_decide as Hlen; [by apply take_all|].
  rewrite len_take. lia.
Qed.

End Push.

(** ** The fetch *)

Section Fetch.
Context `{Host}.

Lemma run_fetch_cons (base : string) (rest : list string) (username : string)
    (w : World) :
  fetch_latest_from_nitter (base :: rest) username w =
    let url := rss_url base username in
    let w1 := (urlopen (Get url) w).2 in
    match status_and_body (probe url w) with
    | Raise e => (w1, [Request (Get url) (probe url w)], Raise e)
    | Ok cb =>
        if usable cb
        then (w1, [Request (Get url) (probe url w)],
              result_bind (parse_rss_items cb.2) (λ items, Ok (sort_by_pubDate items)))
        else let '(w2, t, r) := fetch_latest_from_nitter rest username w1 in
             (w2, Request (Get url) (probe url w) :: t, r)
    end.
Proof.
  simpl. rewrite run_bind. unfold http_get. rewrite run_submit.
  unfold usable, probe.
  destruct (status_and_body _) as [[code body]|e]; simpl; [|done].
  destruct ((code =? 200) && Py.truthy body).
  - rewrite run_bind. unfold lift. by destruct (parse_rss_items body).
  - by destruct (fetch_latest_from_nitter rest username _) as [[w2 t] r].
Qed.

Lemma fetch_all_passed_over (instances : list string) (username : string) (w : World) :
  all_passed_over (urls_of instances username) w →
  fetch_latest_from_nitter instances username w =
    (world_after (urls_of instances username) w,
     probes (urls_of instances username) w, Ok []).
Proof.
  revert w; induction instances as [|base rest IH]; intros w; [done|].
  intros [(cb & Hcb & Hbad) Hrest]. rewrite run_fetch_cons; simpl.
  rewrite Hcb, Hbad. by rewrite IH.
Qed.

Lemma world_after_app (urls1 urls2 : list string) (w : World) :
  world_after (urls1 ++ urls2) w = world_after urls2 (world_after urls1 w).
Proof. revert w. induction urls1 as [|u urls1 IH]; intros w; [done|]. apply IH. Qed.

Lemma probes_app (urls1 urls2 : list string) (w : World) :
  probes (urls1 ++ urls2) w = probes urls1 w ++ probes urls2 (world_after urls1 w).
Proof.
  revert w. induction urls1 as [|u urls1 IH]; intros w; [done|].
  simpl. by rewrite IH.
Qed.

(** The fetch up to the first mirror that is not passed over. *)
Lemma fetch_after_passed_over (pre rest : list string) (username : string) (w : World) :
  all_passed_over (urls_of pre username) w →
  fetch_latest_from_nitter (pre ++ rest) username w =
    let '(w2, t, r) :=
      fetch_latest_from_nitter rest username (world_after (urls_of pre username) w) in
    (w2, probes (urls_of pre username) w ++ t, r).
Proof.
  revert w; induction pre as [|b pre IH]; intros w.
  - intros _. simpl. by destruct (fetch_latest_from_nitter rest username w) as [[??]?].
  - intros [(cb & Hcb & Hbad) Hrest].
    change ((b :: pre) ++ rest) with (b :: (pre ++ rest)).
    rewrite run_fetch_cons; simpl. rewrite Hcb, Hbad. rewrite (IH _ Hrest).
    by destruct (fetch_latest_from_nitter rest username _) as [[??]?].
Qed.


(** The fetch prints nothing and only submits [GET] requests. *)
Lemma fetch_trace (instances : list string) (username : string) (w : World) :
  delivery_lines (fetch_latest_from_nitter instances username w).1.2 = []
  ∧ posts (fetch_latest_from_nitter instances username w).1.2 = []
  ∧ Forall (λ r, ∃ base, base ∈ instances ∧ r = Get (rss_url base username))
      (requests (fetch_latest_from_nitter instances username w).1.2).
Proof.
  revert w; induction instances as [|base rest IH]; intros w.
  - repeat split; constructor.
  - rewrite run_fetch_cons; cbv zeta.
    assert (∃ b, b ∈ base :: rest ∧ Get (rss_url base username) = Get (rss_url b username))
      as Hhere by (exists base; split; [by left|done]).
    destruct (status_and_body _) as [cb|e]; [|by repeat split; repeat constructor].
    destruct (usable cb); [by repeat split; repeat constructor|].
    destruct (IH (urlopen (Get (rss_url base username)) w).2) as (Hd & Hp & Hq).
    destruct (fetch_latest_from_nitter rest username _) as [[w2 t] r].
    simpl in *. repeat split; try done. constructor; [done|].
    eapply Forall_impl; [exact Hq|]. intros r' (b & Hb & ->).
    exists b. split; [by right|done].
Qed.

(** With a transport that reports and a parser that raises nothing but
    [ParseError], the fetch returns. *)
Lemma fetch_returns_when_reported (instances : list string) (username : string)
    (w : World) :
  transport_reports → parser_reports →
  ∃ items, (fetch_latest_from_nitter instances username w).2 = Ok items.
Proof.
  intros Ht Hp. revert w; induction instances as [|base rest IH]; intros w.
  - by exists [].
  - rewrite run_fetch_cons; cbv zeta. unfold probe.
    destruct (Ht (Get (rss_url base username)) w) as [cb ->].
    destruct (usable cb).
    + unfold parse_rss_items, parse_rss_items_tree. cbn [snd].
      specialize (Hp cb.2).
      destruct (ET_fromstring cb.2) as [root| |e]; [| |by destruct (Hp e)].
      * destruct (parse_channel root); simpl; eauto.
      * simpl; eauto.
    + destruct (IH (urlopen (Get (rss_url base username)) w).2) as [items Hr].
      destruct (fetch_latest_from_nitter rest username _) as [[w2 t] r].
      simpl in *. eauto.
Qed.

(** What the fetch returns is sorted by the text of the dates. *)
Lemma fetch_sorted_by_text (instances : list string) (username : string)
    (w : World) (items : list item) :
  (fetch_latest_from_nitter instances username w).2 = Ok items →
  Sorted pubDate_text_le items.
Proof.
  revert w; induction instances as [|base rest IH]; intros w.
  - intros [= <-]. constructor.
  - rewrite run_fetch_cons; cbv zeta.
    destruct (status_and_body _) as [cb|e]; [|done].
    destruct (usable cb).
    + cbn [snd]. destruct (parse_rss_items cb.2); [|done].
      intros [= <-]. apply sort_by_pubDate_sorted.
    + specialize (IH (urlopen (Get (rss_url base username)) w).2).
      by destruct (fetch_latest_from_nitter rest username _) as [[w2 t] r].
Qed.

(** X6: a mirror may be configured with or without a slash at its end: the
    address of the feed is the same, in it the name of the account follows
    a part that does not end with a slash, and the fetch does the same with
    either form. *)
Theorem rss_url_trailing_slash (base username : string) :
  rss_url (base +:+ "/") username = rss_url base username
  ∧ (∃ stem, rss_url base username = stem +:+ "/" +:+ username +:+ "/rss"
             ∧ ∀ u c, stem = u +:+ String c "" → c ≠ "/"%char)
  ∧ ∀ rest w, fetch_latest_from_nitter ((base +:+ "/") :: rest) username w
              = fetch_latest_from_nitter (base :: rest) username w.
Proof.
  assert (rss_url (base +:+ "/") username = rss_url base username) as Heq.
  { unfold rss_url, Py.rstrip_slash. by rewrite rstrip_by_app_stripped. }
  split; [done|]. split.
  - exists (Py.rstrip_slash base). split; [done|].
    unfold Py.rstrip_slash, Py.rstrip_by. intros u c Hs.
    apply (f_equal String.rev) in Hs.
    rewrite string_rev_involutive, string_rev_app in Hs.
    change (String.rev (String c "") +:+ String.rev u)
      with (String c (String.rev u)) in Hs.
    destruct (lstrip_by_head (λ c, Ascii.eqb c "/"%char) (String.rev base))
      as [He|(c' & u' & He & Hc)]; rewrite He in Hs; [done|].
    injection Hs as -> _. intros ->. by rewrite Ascii.eqb_refl in Hc.
  - intros rest w. by rewrite !run_fetch_cons, Heq.
Qed.

Lemma run_best_cons (base : string) (rest : list string) (username : string)
    (w : World) :
  best_nitter_url (base :: rest) username w =
    let url := rss_url base username in
    let w1 := (urlopen (Get url) w).2 in
    match status_and_body (probe url w) with
    | Raise e => (w1, [Request (Get url) (probe url w)], Raise e)
    | Ok cb =>
        if usable cb
        then (w1, [Request (Get url) (probe url w)], Ok (Some url))
        else let '(w2, t, r) := best_nitter_url rest username w1 in
             (w2, Request (Get url) (probe url w) :: t, r)
    end.
Proof.
  simpl. rewrite run_bind. unfold http_get. rewrite run_submit.
  unfold usable, probe.
  destruct (status_and_body _) as [[code body]|e]; simpl; [|done].
  destruct ((code =? 200) && Py.truthy body); [done|].
  by destruct (best_nitter_url rest username _) as [[w2 t] r].
Qed.

(** X7: [best_nitter_url] probes the mirrors as [fetch_latest_from_nitter]
    does: from the same world it submits the same requests, with the same
    outcomes, and leaves the same world.  It returns [None] exactly when
    every mirror is passed over; when it returns an address, that is the
    feed address on the first mirror that answers with status 200 and a
    non-empty body, the mirror whose parsed and sorted entries the fetch
    gives; and it raises exactly when the probe of the first mirror that is
    not passed over ends in an exception the transport does not report,
    which the fetch then raises as well. *)
Theorem best_nitter_url_agrees (instances : list string) (username : string)
    (w : World) :
  (best_nitter_url instances username w).1
  = (fetch_latest_from_nitter instances username w).1
  ∧ ((best_nitter_url instances username w).2 = Ok None
     ↔ all_passed_over (urls_of instances username) w)
  ∧ (∀ url, (best_nitter_url instances username w).2 = Ok (Some url) →
       ∃ pre base post body,
         instances = pre ++ base :: post ∧ url = rss_url base username
         ∧ all_passed_over (urls_of pre username) w
         ∧ serves (probe url (world_after (urls_of pre username) w)) body
         ∧ (fetch_latest_from_nitter instances username w).2
           = result_bind (parse_rss_items body) (λ items, Ok (sort_by_pubDate items)))
  ∧ (∀ e, (best_nitter_url instances username w).2 = Raise e →
       (∃ pre base post,
          instances = pre ++ base :: post
          ∧ all_passed_over (urls_of pre username) w
          ∧ probe (rss_url base username) (world_after (urls_of pre username) w)
            = Escapes e)
       ∧ (fetch_latest_from_nitter instances username w).2 = Raise e).
Proof.
  revert w. induction instances as [|base rest IH]; intros w.
  { repeat split; try done. }
  rewrite run_best_cons, run_fetch_cons. cbv zeta.
  change (urls_of (base :: rest) username)
    with (rss_url base username :: urls_of rest username).
  cbn [all_passed_over]. unfold passed_over at 1.
  destruct (status_and_body (probe (rss_url base username) w)) as [cb|e] eqn:Hsb.
  - destruct (usable cb) eqn:Hu.
    + split; [done|]. split; [|split].
      * split; [done|]. intros [(cb' & [= <-] & Hcb') _]. congruence.
      * intros url [= <-]. exists [], base, rest, cb.2.
        repeat split; try done.
        -- unfold usable in Hu. apply andb_prop in Hu as [Hc%Z.eqb_eq _].
           simpl. rewrite Hsb. destruct cb as [code body]; simpl in *. by subst.
        -- unfold usable in Hu. by apply andb_prop in Hu as [_ ?].
      * done.
    + destruct (IH (urlopen (Get (rss_url base username)) w).2)
        as (Hsame & Hnone & Hsome & Hraise).
      destruct (best_nitter_url rest username _) as [[w2 t2] r2].
      destruct (fetch_latest_from_nitter rest username _) as [[w3 t3] r3].
      cbn [fst snd] in *. injection Hsame as -> ->.
      split; [done|]. split; [|split].
      * rewrite Hnone. split; [|by intros [_ ?]].
        intros Hrest. split; [by exists cb|done].
      * intros url Hurl. destruct (Hsome url Hurl)
          as (pre & b & post & body & -> & -> & Hfail & Hus & Hfetch).
        exists (base :: pre), b, post, body.
        split; [done|]. split; [done|]. split; [|done].
        split; [by exists cb|done].
      * intros e He. destruct (Hraise e He) as [(pre & b & post & -> & Hfail & Hp) Hf].
        split; [|done]. exists (base :: pre), b, post.
        split; [done|]. split; [|done]. split; [by exists cb|done].
  - split; [done|]. split; [|split].
    + split; [done|]. by intros [(cb' & ? & _) _].
    + done.
    + intros e' [= <-]. split; [|done]. exists [], base, rest.
      repeat split; try done. simpl. unfold status_and_body in Hsb.
      by destruct (probe (rss_url base username) w); simplify_eq.
Qed.

End Fetch.

(** ** Reading a trace *)

Lemma delivery_lines_app (t1 t2 : list event) :
  delivery_lines (t1 ++ t2) = delivery_lines t1 ++ delivery_lines t2.
Proof. apply omap_app. Qed.

Lemma sent_ids_app (t1 t2 : list event) : sent_ids (t1 ++ t2) = sent_ids t1 ++ sent_ids t2.
Proof. apply omap_app. Qed.

Lemma requests_app (t1 t2 : list event) : requests (t1 ++ t2) = requests t1 ++ requests t2.
Proof. apply omap_app. Qed.

Lemma posts_app (t1 t2 : list event) : posts (t1 ++ t2) = posts t1 ++ posts t2.
Proof. apply omap_app. Qed.

(** The [[sent]] lines are the outcome lines marked as sent. *)
Lemma sent_ids_delivery_lines (t : list event) :
  sent_ids t = omap (λ l, if l.2 : bool then l.1 else None) (delivery_lines t).
Proof.
  induction t as [|[r o|[]] t IH]; simpl; try done.
  unfold sent_ids, delivery_lines in *; simpl. by rewrite IH.
Qed.

Lemma sent_in_sent_ids (u tid : string) (t : list event) :
  Print (Sent u tid) ∈ t → tid ∈ sent_ids t.
Proof.
  intros Hin. unfold sent_ids. apply list_elem_of_omap.
  by exists (Print (Sent u tid)).
Qed.

(** ** The delivery loop *)

Section Deliver.
Context `{Host}.

Lemma delivery_confirmed_app_l (ch : channel) (username tid : string)
    (t1 t2 : list event) :
  delivery_confirmed ch username tid t2 → delivery_confirmed ch username tid (t1 ++ t2).
Proof.
  intros (it & r & o & pre & post & -> & Hr & Hx & Hc).
  exists it, r, o, (t1 ++ pre), post. by rewrite <-app_assoc.
Qed.

Lemma delivery_confirmed_app_r (ch : channel) (username tid : string)
    (t1 t2 : list event) :
  delivery_confirmed ch username tid t1 → delivery_confirmed ch username tid (t1 ++ t2).
Proof.
  intros (it & r & o & pre & post & -> & Hr & Hx & Hc).
  exists it, r, o, pre, (post ++ t2). by rewrite <-app_assoc.
Qed.

Lemma delivery_confirmed_sent (ch : channel) (username tid : string) (t : list event) :
  delivery_confirmed ch username tid t → Print (Sent username tid) ∈ t.
Proof.
  intros (it & r & o & pre & post & -> & _). apply elem_of_app; right.
  right; left.
Qed.

Lemma has_id_iff (it : item) : has_id it = true ↔ is_Some (extract_tweet_id (link it)).
Proof.
  unfold has_id. destruct (extract_tweet_id (link it)) as [tid|] eqn:Hx; simpl.
  - apply extract_tweet_id_digits in Hx as [-> _]. split; eauto.
  - split; [done|]. by intros [? ?].
Qed.

Lemma post_of_configured (ch : channel) (username : string) (it : item) :
  if configured ch
  then ∃ r, post_of ch username it = Some r ∧ is_post r = true
  else post_of ch username it = None.
Proof.
  unfold configured, post_of. destruct (format_message username it) as [msg x_link].
  destruct (String.eqb (method ch) "wecom" && opt_truthy (wecom_webhook ch)); simpl;
    [by eauto|].
  destruct (String.eqb (method ch) "serverchan" && opt_truthy (serverchan_key ch));
    by eauto.
Qed.

Lemma run_push_item (ch : channel) (username : string) (it : item) (w : World) :
  push_item ch username it w =
    match post_of ch username it with
    | Some r => ((urlopen r w).2, [Request r (urlopen r w).1], pushed r (urlopen r w).1)
    | None => (w, [Print WarnNoPushMethod], Ok false)
    end.
Proof.
  unfold push_item, post_of. destruct (format_message username it) as [msg x_link].
  destruct (String.eqb (method ch) "wecom" && opt_truthy (wecom_webhook ch)).
  { by rewrite run_push_wecom. }
  destruct (String.eqb (method ch) "serverchan" && opt_truthy (serverchan_key ch)).
  { by rewrite run_push_serverchan. }
  done.
Qed.

(** One iteration of the loop: the attempt, its outcome line, the rest. *)
Lemma run_deliver_cons (ch : channel) (username : string) (it : item)
    (rest : list item) (latest : option string) (w : World) :
  deliver ch username (it :: rest) latest w =
    let '(w1, t1, r1) := push_item ch username it w in
    match r1 with
    | Raise e => (w1, t1, Raise e)
    | Ok ok =>
        let tid := extract_tweet_id (link it) in
        let sent := ok && opt_truthy tid in
        let '(w2, t2, r2) :=
          deliver ch username rest (if sent then tid else latest) w1 in
        (w2,
         t1 ++ Print (if sent then Sent username (default "" tid) else Fail username tid)
            :: t2,
         r2)
    end.
Proof.
  simpl. rewrite run_bind.
  destruct (push_item ch username it w) as [[w1 t1] [ok|e]]; [|done].
  destruct (ok && opt_truthy (extract_tweet_id (link it)));
    rewrite run_bind, run_print;
    by destruct (deliver ch username rest _ _) as [[w2 t2] r2].
Qed.

(** A loop that returns has submitted the request of every entry, in order;
    it has printed one outcome line per entry, in order, naming the entry's
    identifier, [[sent]] exactly when the channel confirmed; it returns the
    identifier of the last [[sent]] line, or the value it started from; and
    every [[sent]] line follows the confirmed delivery of an entry of the
    list. *)
Lemma run_deliver (ch : channel) (username : string) (new_items : list item)
    (latest latest' : option string) (w : World) :
  Forall (λ it, has_id it = true) new_items →
  (deliver ch username new_items latest w).2 = Ok latest' →
  (posts (deliver ch username new_items latest w).1.2).*1
  = omap (post_of ch username) new_items
  ∧ delivery_lines (deliver ch username new_items latest w).1.2
    = zip_with (λ it v, (extract_tweet_id (link it), v)) new_items
        (verdicts ch (length new_items)
           (posts (deliver ch username new_items latest w).1.2))
  ∧ latest' = from_option Some latest
                (last (sent_ids (deliver ch username new_items latest w).1.2))
  ∧ (∀ tid, tid ∈ sent_ids (deliver ch username new_items latest w).1.2 →
       delivery_confirmed ch username tid (deliver ch username new_items latest w).1.2
       ∧ ∃ it, it ∈ new_items ∧ extract_tweet_id (link it) = Some tid).
Proof.
  revert latest w. induction new_items as [|it rest IH]; intros latest w Hids.
  { intros [= <-]. unfold verdicts. simpl.
    destruct (configured ch); (do 3 (split; [done|]));
      intros tid Hin; by apply elem_of_nil in Hin. }
  apply Forall_cons in Hids as [Hid Hids].
  apply has_id_iff in Hid as [tid Htid].
  pose proof Htid as [Ht _]%extract_tweet_id_digits.
  rewrite run_deliver_cons, run_push_item.
  pose proof (post_of_configured ch username it) as Hpost.
  unfold verdicts in *. destruct (configured ch) eqn:Hcfg.
  - destruct Hpost as (r & Hpo & Hr). rewrite Hpo. unfold pushed.
    destruct (status_and_body (urlopen r w).1) as [cb|e] eqn:Hsb; [|done].
    rewrite Htid. cbn [opt_truthy default]. unfold id. rewrite Ht, andb_true_r.
    set (ok := confirms r (urlopen r w).1) in *.
    specialize (IH (if ok then Some tid else latest) (urlopen r w).2 Hids).
    destruct (deliver ch username rest _ _) as [[w2 t2] r2]. cbn [fst snd] in *.
    intros ->. destruct (IH eq_refl) as (Hp & Hl & Hr2 & Hs).
    rewrite !posts_app, !delivery_lines_app, !sent_ids_app.
    assert (posts [Request r (urlopen r w).1] = [(r, (urlopen r w).1)]) as ->
      by (simpl; by rewrite Hr).
    change (delivery_lines [Request r (urlopen r w).1]) with (@nil (option string * bool)).
    change (sent_ids [Request r (urlopen r w).1]) with (@nil string).
    cbn [app].
    change (Print ?l :: t2) with ([Print l] ++ t2).
    rewrite !posts_app, !delivery_lines_app, !sent_ids_app.
    assert (posts [Print (if ok then Sent username tid else Fail username (Some tid))]
            = []) as -> by (by destruct ok).
    assert (delivery_lines
              [Print (if ok then Sent username tid else Fail username (Some tid))]
            = [(Some tid, ok)]) as -> by (by destruct ok).
    assert (sent_ids [Print (if ok then Sent username tid else Fail username (Some tid))]
            = if ok then [tid] else []) as -> by (by destruct ok).
    cbn [app fmap list_fmap omap list_omap fst snd length zip_with].
    rewrite Hpo, Htid. cbn [mbind option_bind].
    fold (omap (post_of ch username) rest).
    split; [by rewrite <-Hp|]. split; [by rewrite <-Hl|]. split.
    + rewrite Hr2. destruct ok eqn:Hok; cbn [app]; [|done].
      rewrite last_cons. by destruct (last (sent_ids t2)).
    + intros tid' Hin.
      assert (tid' = tid ∧ ok = true ∨ tid' ∈ sent_ids t2) as [[-> Hok]|Hin'].
      { destruct ok; [|by right]. apply elem_of_cons in Hin as [->|?]; [by left|by right]. }
      * split; [|exists it; split; [by left|done]].
        exists it, r, (urlopen r w).1, [], t2. rewrite Hok.
        by repeat split.
      * destruct (Hs tid' Hin') as [Hc (it' & Hit' & Hx')].
        split; [|exists it'; split; [by right|done]].
        by apply (delivery_confirmed_app_l _ _ _
                    [Request r (urlopen r w).1;
                     Print (if ok then Sent username tid else Fail username (Some tid))])
          in Hc.
  - rewrite Hpost. cbn [andb]. rewrite Htid.
    specialize (IH latest w Hids).
    destruct (deliver ch username rest _ _) as [[w2 t2] r2]. cbn [fst snd] in *.
    intros ->. destruct (IH eq_refl) as (Hp & Hl & Hr2 & Hs).
    cbn [app posts delivery_lines sent_ids omap list_omap fmap list_fmap length
         replicate zip_with].
    fold (posts t2). fold (delivery_lines t2). fold (sent_ids t2).
    fold (omap (post_of ch username) rest). rewrite Hpost, Htid.
    split; [done|]. split; [by rewrite <-Hl|]. split; [done|].
    intros tid' Hin. destruct (Hs tid' Hin) as [Hc (it' & Hit' & Hx')].
    split; [|exists it'; split; [by right|done]].
    by apply (delivery_confirmed_app_l _ _ _
                [Print WarnNoPushMethod; Print (Fail username (Some tid))]) in Hc.
Qed.

(** With a transport that reports, the loop returns. *)
Lemma deliver_returns (ch : channel) (username : string) (new_items : list item)
    (latest : option string) (w : World) :
  transport_reports →
  ∃ latest', (deliver ch username new_items latest w).2 = Ok latest'.
Proof.
  intros Ht. revert latest w. induction new_items as [|it rest IH]; intros latest w.
  { by eexists. }
  rewrite run_deliver_cons, run_push_item.
  destruct (post_of ch username it) as [r|].
  - unfold pushed. destruct (Ht r w) as [cb ->].
    destruct (IH (if confirms r (urlopen r w).1 && opt_truthy (extract_tweet_id (link it))
                  then extract_tweet_id (link it) else latest) (urlopen r w).2)
      as [latest' Hl].
    destruct (deliver ch username rest _ _) as [[w2 t2] r2]. simpl in *. eauto.
  - destruct (IH latest w) as [latest' Hl]. cbn [andb].
    destruct (deliver ch username rest _ _) as [[w2 t2] r2]. simpl in *. eauto.
Qed.

End Deliver.

(** ** The watermark filter *)

Section Select.
Context `{Host}.

Lemma newer_None (it : item) : newer None it = has_id it.
Proof.
  unfold newer, has_id. destruct (extract_tweet_id (link it)) as [tid|] eqn:Hx; [|done].
  apply extract_tweet_id_digits in Hx as [Ht _]. simpl. by rewrite Ht.
Qed.

Lemma newer_Some (l : string) (z : Z) (it : item) :
  py_int l = Some z → newer (Some l) it = id_above z it.
Proof.
  intros Hl. unfold newer, id_above, id_of.
  destruct (extract_tweet_id (link it)) as [tid|]; [|done]. simpl.
  rewrite Hl. by destruct (py_int tid).
Qed.

(** When the filter returns, it returns the entries that are [newer]. *)
Lemma select_new_items_filter (last_id : option string) (items new_items : list item) :
  select_new_items last_id items = Ok new_items →
  new_items = List.filter (newer last_id) items.
Proof.
  revert new_items; induction items as [|it rest IH]; intros new_items; simpl.
  { by intros [= <-]. }
  unfold newer at 1.
  destruct (extract_tweet_id (link it)) as [tid|] eqn:Hx; simpl.
  - pose proof Hx as [-> _]%extract_tweet_id_digits. simpl.
    unfold is_newer. destruct last_id as [l|]; simpl.
    + destruct (py_int tid) as [a|]; [|done].
      destruct (py_int l) as [b|]; simpl; [|done].
      destruct (select_new_items (Some l) rest) as [more|]; simpl; [|done].
      intros [= <-]. rewrite <-(IH more eq_refl). done.
    + destruct (select_new_items None rest) as [more|]; simpl; [|done].
      intros [= <-]. by rewrite <-(IH more eq_refl).
  - apply IH.
Qed.

(** Without a watermark the filter returns, with every entry that has an
    identifier. *)
Lemma select_new_items_none (items : list item) :
  select_new_items None items = Ok (List.filter has_id items).
Proof.
  induction items as [|it rest IH]; [done|]. cbn [select_new_items List.filter].
  fold (has_id it). destruct (has_id it); [|done]. simpl. by rewrite IH.
Qed.

(** With a watermark that reads as [z] and identifiers that [int()] reads,
    the filter returns, with the entries whose identifier is above [z]. *)
Lemma select_new_items_ok (l : string) (z : Z) (items : list item) :
  py_int l = Some z → ids_readable items →
  select_new_items (Some l) items = Ok (List.filter (id_above z) items).
Proof.
  intros Hl Hread. induction items as [|it rest IH]; [done|].
  cbn [select_new_items List.filter]. rewrite IH; last first.
  { intros it' tid' Hin. apply Hread. by right. }
  assert (id_above z it
          = match extract_tweet_id (link it) with
            | Some tid => match py_int tid with Some a => z <? a | None => false end
            | None => false
            end) as ->
    by (unfold id_above, id_of; by destruct (extract_tweet_id (link it))).
  destruct (extract_tweet_id (link it)) as [tid|] eqn:Hx; simpl; [|done].
  pose proof Hx as [-> _]%extract_tweet_id_digits. simpl.
  destruct (Hread it tid) as [a Ha]; [by left|done|].
  rewrite Ha, Hl. simpl. by destruct (z <? a).
Qed.

(** An entry the filter keeps has an identifier; against a watermark, both
    read as integers, and the identifier is the greater one. *)
Lemma newer_inv (last_id : option string) (it : item) :
  newer last_id it = true →
  ∃ tid, extract_tweet_id (link it) = Some tid
         ∧ match last_id with
           | Some l => ∃ a b, py_int tid = Some a ∧ py_int l = Some b ∧ b < a
           | None => True
           end.
Proof.
  unfold newer. destruct (extract_tweet_id (link it)) as [tid|] eqn:Hx; [|done].
  destruct last_id as [l|]; [|by exists tid].
  destruct (py_int tid) as [a|] eqn:Ha; [|done].
  destruct (py_int l) as [b|] eqn:Hb; [|done].
  intros Hlt%Z.ltb_lt. exists tid. split; [done|]. by exists a, b.
Qed.

Lemma newer_has_id (last_id : option string) (items : list item) :
  Forall (λ it, has_id it = true) (sort_by_pubDate (List.filter (newer last_id) items)).
Proof.
  apply Forall_forall. intros it Hin.
  apply sort_by_pubDate_elem, list_elem_of_In, filter_In in Hin as [_ Hn].
  apply newer_inv in Hn as (tid & Hx & _). apply has_id_iff. eauto.
Qed.

End Select.

(** ** One account *)

Section Account.
Context `{Host}.

(** The body of the loop, by cases on what the fetch, line 316 and the filter
    give. *)
Lemma run_process_account (ch : channel) (instances : list string)
    (username : string) (users_state : users_value) (w : World) :
  process_account ch instances username users_state w =
    let '(w1, t1, r1) := fetch_latest_from_nitter instances username w in
    match r1 with
    | Raise e => (w1, t1, Raise e)
    | Ok [] => (w1, t1 ++ [Print (InfoNoItems username)], Ok users_state)
    | Ok items =>
        match last_id_of users_state username with
        | Raise e => (w1, t1, Raise e)
        | Ok last_id =>
            match select_new_items last_id items with
            | Raise e => (w1, t1, Raise e)
            | Ok [] => (w1, t1 ++ [Print (InfoNoNewTweets username)], Ok users_state)
            | Ok new_items =>
                let '(w2, t2, r2) :=
                  deliver ch username (sort_by_pubDate new_items) last_id w1 in
                (w2, t1 ++ t2,
                 result_bind r2 (λ latest, advance username latest users_state))
            end
        end
    end.
Proof.
  unfold process_account. rewrite run_bind.
  destruct (fetch_latest_from_nitter instances username w) as [[w1 t1] [items|e]];
    [|done].
  destruct items as [|it items]; [done|].
  rewrite run_bind. unfold lift.
  destruct (last_id_of users_state username) as [last_id|e]; [|by rewrite app_nil_r].
  rewrite run_bind.
  destruct (select_new_items last_id (it :: items)) as [new_items|e];
    [|by rewrite !app_nil_r].
  destruct new_items as [|n new_items]; [done|].
  rewrite run_bind.
  destruct (deliver ch username _ _ w1) as [[w2 t2] [latest|e]]; simpl;
    [|done].
  unfold advance. destruct (opt_truthy latest); simpl; by rewrite ?app_nil_r.
Qed.

(** A processing that returns, read back: the feed it got; the entries
    [new] it attempted, which are the sorted output of the filter; the
    submissions and the outcome lines of its trace; the state it returns. *)
Lemma process_account_inv (ch : channel) (instances : list string)
    (username : string) (users_state users_state' : users_value) (w : World) :
  (process_account ch instances username users_state w).2 = Ok users_state' →
  ∃ items new,
    (fetch_latest_from_nitter instances username w).2 = Ok items
    ∧ (items = [] ∧ new = [] ∧ users_state' = users_state
       ∨ ∃ last_id,
           last_id_of users_state username = Ok last_id
           ∧ select_new_items last_id items = Ok (List.filter (newer last_id) items)
           ∧ new = sort_by_pubDate (List.filter (newer last_id) items)
           ∧ (new = [] ∧ users_state' = users_state
              ∨ advance username
                  (from_option Some last_id
                     (last (sent_ids
                              (process_account ch instances username users_state w).1.2)))
                  users_state
                = Ok users_state'))
    ∧ (posts (process_account ch instances username users_state w).1.2).*1
      = omap (post_of ch username) new
    ∧ delivery_lines (process_account ch instances username users_state w).1.2
      = zip_with (λ it v, (extract_tweet_id (link it), v)) new
          (verdicts ch (length new)
             (posts (process_account ch instances username users_state w).1.2))
    ∧ (∀ tid,
         tid ∈ sent_ids (process_account ch instances username users_state w).1.2 →
         delivery_confirmed ch username tid
           (process_account ch instances username users_state w).1.2
         ∧ ∃ it, it ∈ new ∧ extract_tweet_id (link it) = Some tid).
Proof.
  rewrite run_process_account.
  pose proof (fetch_trace instances username w) as (Hd & Hp & _).
  destruct (fetch_latest_from_nitter instances username w) as [[w1 t1] [items|e]];
    cbn [fst snd] in *; [|done].
  assert (sent_ids t1 = []) as Hs1 by (by rewrite sent_ids_delivery_lines, Hd).
  assert (∀ l, delivery_lines [Print l] = [] →
               posts (t1 ++ [Print l]) = [] ∧ delivery_lines (t1 ++ [Print l]) = []
               ∧ sent_ids (t1 ++ [Print l]) = []) as Hquiet.
  { intros l Hl. rewrite posts_app, delivery_lines_app, !sent_ids_delivery_lines.
    rewrite delivery_lines_app, Hl, Hp, Hd. done. }
  destruct items as [|it items].
  { intros [= <-]. exists [], []. cbn [fst snd].
    destruct (Hquiet (InfoNoItems username) eq_refl) as (-> & -> & ->).
    split; [done|]. split; [by left|]. split; [done|]. split; [done|].
    intros tid Hin. by apply elem_of_nil in Hin. }
  destruct (last_id_of users_state username) as [last_id|e]; [|done].
  destruct (select_new_items last_id (it :: items)) as [new_items|e] eqn:Hsel; [|done].
  pose proof (select_new_items_filter _ _ _ Hsel) as Hnew.
  destruct new_items as [|n new_items'].
  { intros [= <-]. exists (it :: items), []. cbn [fst snd].
    destruct (Hquiet (InfoNoNewTweets username) eq_refl) as (-> & -> & ->).
    split; [done|]. split.
    { right. exists last_id. rewrite <-Hnew. split; [done|]. split; [done|].
      split; [done|]. by left. }
    split; [done|]. split; [done|].
    intros tid Hin. by apply elem_of_nil in Hin. }
  rewrite Hnew.
  pose proof (newer_has_id last_id (it :: items)) as Hids.
  pose proof (run_deliver ch username
                (sort_by_pubDate (List.filter (newer last_id) (it :: items)))
                last_id) as Hrun.
  specialize (λ latest', Hrun latest' w1 Hids).
  destruct (deliver ch username _ last_id w1) as [[w2 t2] [latest|e]];
    cbn [fst snd result_bind] in *; [|done].
  destruct (Hrun latest eq_refl) as (Hp2 & Hl2 & Hlatest & Hs2).
  intros Hadv.
  exists (it :: items), (sort_by_pubDate (List.filter (newer last_id) (it :: items))).
  rewrite posts_app, delivery_lines_app, sent_ids_app, Hp, Hd, Hs1.
  cbn [app]. split; [done|]. split; [|split; [done|]; split; [done|]].
  - right. exists last_id. split; [done|]. split; [by rewrite Hsel, Hnew|].
    split; [done|]. right. by rewrite <-Hlatest.
  - intros tid Hin. destruct (Hs2 tid Hin) as [Hc Hit].
    split; [by apply delivery_confirmed_app_l|done].
Qed.

End Account.

(** ** The stored watermark *)

Section Watermark.
Context `{Host}.

Lemma last_id_of_set (username tid : string) (users_state users_state' : users_value) :
  users_set username (record_of tid) users_state = Ok users_state' →
  last_id_of users_state' username = Ok (Some tid).
Proof.
  destruct users_state as [d|]; [|done]. intros [= <-].
  unfold last_id_of. by rewrite lookup_insert_eq.
Qed.

Lemma last_id_of_set_ne (username u : string) (rec : json)
    (users_state users_state' : users_value) :
  username ≠ u →
  users_set username rec users_state = Ok users_state' →
  last_id_of users_state' u = last_id_of users_state u.
Proof.
  intros Hne. destruct users_state as [d|]; [|done]. intros [= <-].
  unfold last_id_of. by rewrite lookup_insert_ne.
Qed.

Lemma last_id_of_advance_ne (username u : string) (latest : option string)
    (users_state users_state' : users_value) :
  username ≠ u →
  advance username latest users_state = Ok users_state' →
  last_id_of users_state' u = last_id_of users_state u.
Proof.
  intros Hne. unfold advance. destruct (opt_truthy latest).
  - by apply last_id_of_set_ne.
  - by intros [= <-].
Qed.

(** Storing back the [last_id] read at line 316 changes nothing of what is
    read from the account. *)
Lemma last_id_of_advance_same (username : string) (last_id : option string)
    (users_state users_state' : users_value) :
  last_id_of users_state username = Ok last_id →
  advance username last_id users_state = Ok users_state' →
  last_id_of users_state' username = Ok last_id.
Proof.
  intros Hl. unfold advance. destruct (opt_truthy last_id) eqn:Ht.
  - destruct last_id as [l|]; [|done]. apply last_id_of_set.
  - by intros [= <-].
Qed.

Global Instance watermark_le_refl : Reflexive watermark_le.
Proof. intros [x|]; simpl; [lia|done]. Qed.

Global Instance watermark_le_trans : Transitive watermark_le.
Proof. intros [x|] [y|] [z|]; simpl; try done; lia. Qed.

Lemma watermark_same (users_state users_state' : users_value) (u : string) :
  last_id_of users_state' u = last_id_of users_state u →
  watermark users_state' u = watermark users_state u.
Proof. unfold watermark. by intros ->. Qed.

(** With a configured channel every entry has its request; without, none
    has. *)
Lemma omap_post_of (ch : channel) (username : string) (new : list item) :
  if configured ch
  then length (omap (post_of ch username) new) = length new
  else omap (post_of ch username) new = [].
Proof.
  induction new as [|it new IH]; [by destruct (configured ch)|]. simpl.
  pose proof (post_of_configured ch username it) as Hp.
  destruct (configured ch).
  - destruct Hp as (r & -> & _). simpl. f_equal. apply IH.
  - rewrite Hp. apply IH.
Qed.

Lemma verdicts_length (ch : channel) (username : string) (new : list item)
    (ps : list (request * outcome)) :
  ps.*1 = omap (post_of ch username) new →
  length (verdicts ch (length new) ps) = length new.
Proof.
  unfold verdicts. intros Hps. pose proof (omap_post_of ch username new) as Hlen.
  destruct (configured ch).
  - by rewrite length_fmap, <-(length_fmap fst ps), Hps.
  - by rewrite length_replicate.
Qed.

Lemma zip_with_fst {A B C} (g : A → C) (l : list A) (vs : list B) :
  length vs = length l →
  (zip_with (λ a v, (g a, v)) l vs).*1 = g <$> l.
Proof.
  revert vs. induction l as [|a l IH]; intros [|v vs] Hlen; simpl in *; try done.
  f_equal. apply IH. lia.
Qed.

(** What the processing of [username] does to the stored [last_id] of any
    account [u]: it reads as before, or it is the identifier of an entry
    whose delivery for [u] was confirmed in this processing; and the
    watermark does not decrease. *)
Lemma process_account_last_id (ch : channel) (instances : list string)
    (username : string) (users_state users_state' : users_value)
    (w : World) (u : string) :
  (process_account ch instances username users_state w).2 = Ok users_state' →
  (last_id_of users_state' u = last_id_of users_state u
   ∨ ∃ tid, last_id_of users_state' u = Ok (Some tid)
            ∧ delivery_confirmed ch u tid
                (process_account ch instances username users_state w).1.2)
  ∧ watermark_le (watermark users_state u) (watermark users_state' u).
Proof.
  intros Hok.
  destruct (process_account_inv _ _ _ _ _ _ Hok)
    as (items & new & Hf & Hcase & _ & _ & Hsent).
  assert (last_id_of users_state' u = last_id_of users_state u →
          (last_id_of users_state' u = last_id_of users_state u
           ∨ ∃ tid, last_id_of users_state' u = Ok (Some tid)
                    ∧ delivery_confirmed ch u tid
                        (process_account ch instances username users_state w).1.2)
          ∧ watermark_le (watermark users_state u) (watermark users_state' u)) as Hsame.
  { intros Heq. split; [by left|]. by rewrite (watermark_same _ _ _ Heq). }
  destruct Hcase as [(_ & _ & ->)|(last_id & Hl & _ & Hnew & [[_ ->]|Hadv])];
    [by apply Hsame|by apply Hsame|].
  destruct (decide (username = u)) as [->|Hne];
    [|by eapply Hsame, last_id_of_advance_ne].
  destruct (last (sent_ids (process_account ch instances u users_state w).1.2))
    as [tid|] eqn:Hlast; cbn [from_option] in Hadv.
  - assert (tid ∈ sent_ids (process_account ch instances u users_state w).1.2) as Hin.
    { apply last_Some in Hlast as [l' ->]. apply elem_of_app; right. by left. }
    destruct (Hsent tid Hin) as [Hc (it & Hit & Hx)].
    pose proof Hx as [Ht _]%extract_tweet_id_digits.
    unfold advance in Hadv. cbn [opt_truthy default] in Hadv. unfold id in Hadv.
    rewrite Ht in Hadv.
    apply last_id_of_set in Hadv. split; [right; by exists tid|].
    unfold watermark. rewrite Hadv, Hl.
    subst new. apply sort_by_pubDate_elem, list_elem_of_In, filter_In in Hit as [_ Hn].
    apply newer_inv in Hn as (tid' & Hx' & Hcmp).
    assert (tid' = tid) as -> by congruence.
    destruct last_id as [l|]; [|done].
    destruct Hcmp as (a & b & -> & -> & Hlt). simpl. lia.
  - apply Hsame. rewrite Hl. by eapply last_id_of_advance_same.
Qed.

(** C1, as amended: a processing of an account that returns has attempted
    every new entry, in the order of the sort, whatever the outcome of the
    earlier attempts: with a configured channel it has submitted the request
    of each entry, in order, and nothing else to a channel; it has printed
    one outcome line per entry, in order, which is [[sent]] exactly when the
    channel confirmed that entry's delivery.  Afterwards the account's record is the one written for
    the last entry whose delivery was confirmed, the last [[sent]] line; when
    no delivery was confirmed, the stored [last_id] reads as before. *)
Theorem delivery_attempts_all_and_keeps_last_sent (ch : channel)
    (instances : list string) (username : string)
    (users_state users_state' : users_value) (w : World) :
  (process_account ch instances username users_state w).2 = Ok users_state' →
  ∃ items new,
    (fetch_latest_from_nitter instances username w).2 = Ok items
    ∧ (items = [] ∧ new = []
       ∨ ∃ last_id,
           last_id_of users_state username = Ok last_id
           ∧ new = sort_by_pubDate (List.filter (newer last_id) items))
    ∧ (posts (process_account ch instances username users_state w).1.2).*1
      = omap (post_of ch username) new
    ∧ (if configured ch
       then length (posts (process_account ch instances username users_state w).1.2)
            = length new
       else posts (process_account ch instances username users_state w).1.2 = [])
    ∧ delivery_lines (process_account ch instances username users_state w).1.2
      = zip_with (λ it v, (extract_tweet_id (link it), v)) new
          (verdicts ch (length new)
             (posts (process_account ch instances username users_state w).1.2))
    ∧ length (delivery_lines (process_account ch instances username users_state w).1.2)
      = length new
    ∧ sent_ids (process_account ch instances username users_state w).1.2
      = omap (λ l, if l.2 : bool then l.1 else None)
          (delivery_lines (process_account ch instances username users_state w).1.2)
    ∧ match last (sent_ids (process_account ch instances username users_state w).1.2) with
      | Some tid =>
          users_set username (record_of tid) users_state = Ok users_state'
          ∧ last_id_of users_state' username = Ok (Some tid)
      | None => last_id_of users_state' username = last_id_of users_state username
      end.
Proof.
  intros Hok.
  destruct (process_account_inv _ _ _ _ _ _ Hok)
    as (items & new & Hf & Hcase & Hp & Hl & Hsent).
  exists items, new. split; [done|]. split.
  { destruct Hcase as [(-> & -> & _)|(last_id & Hlast & _ & -> & _)]; [by left|].
    right. by exists last_id. }
  split; [done|]. split.
  { pose proof (omap_post_of ch username new) as Hlen. rewrite <-Hp in Hlen.
    destruct (configured ch); [by rewrite length_fmap in Hlen|].
    by apply fmap_nil_inv in Hlen. }
  split; [done|]. split.
  { rewrite <-(length_fmap fst), Hl, zip_with_fst, length_fmap; [done|].
    by eapply verdicts_length. }
  split; [apply sent_ids_delivery_lines|].
  set (t := (process_account ch instances username users_state w).1.2) in *.
  assert (new = [] → sent_ids t = []) as Hnone.
  { intros ->. rewrite sent_ids_delivery_lines, Hl. done. }
  destruct Hcase as [(_ & Hnew & ->)|(last_id & Hlast & _ & Hnew & [[Hnil ->]|Hadv])].
  - by rewrite (Hnone Hnew).
  - by rewrite (Hnone Hnil).
  - destruct (last (sent_ids t)) as [tid|] eqn:Hlt; cbn [from_option] in Hadv.
    + assert (tid ∈ sent_ids t) as Hin.
      { apply last_Some in Hlt as [l' ->]. apply elem_of_app; right. by left. }
      destruct (Hsent tid Hin) as [_ (it & _ & Hx)].
      apply extract_tweet_id_digits in Hx as [Ht _].
      unfold advance in Hadv. cbn [opt_truthy default] in Hadv. unfold id in Hadv.
    rewrite Ht in Hadv.
      split; [done|]. by eapply last_id_of_set.
    + rewrite Hlast. by eapply last_id_of_advance_same.
Qed.

(** The entries kept for an account with nothing stored, or something that
    counts as false. *)
Lemma new_items_of_absent (d : gmap string json) (username : string)
    (items : list item) :
  (d !! username = None ∨ ∃ rec, d !! username = Some rec ∧ json_truthy rec = false) →
  new_items_of (UsersDict d) username items = Ok (List.filter has_id items).
Proof.
  intros Habs. unfold new_items_of, last_id_of.
  destruct Habs as [->|(rec & -> & ->)]; simpl; apply select_new_items_none.
Qed.

Lemma last_id_of_record (d : gmap string json) (username : string)
    (kv : list (string * json)) (v : json) (l : string) :
  d !! username = Some (JObj kv) → obj_get "last_id" kv = Some v → py_str v = Ok l →
  last_id_of (UsersDict d) username = Ok (Some l).
Proof.
  intros Hd Hv Hl. unfold last_id_of. rewrite Hd.
  destruct kv as [|p kv]; [done|]. cbn [json_truthy negb].
  by rewrite Hv; cbn [default]; unfold id; rewrite Hl.
Qed.

(** The entries kept for an account whose stored [last_id] reads as [z]. *)
Lemma new_items_of_record (d : gmap string json) (username : string)
    (kv : list (string * json)) (v : json) (l : string) (z : Z) (items : list item) :
  d !! username = Some (JObj kv) → obj_get "last_id" kv = Some v → py_str v = Ok l →
  py_int l = Some z → ids_readable items →
  new_items_of (UsersDict d) username items = Ok (List.filter (id_above z) items).
Proof.
  intros Hd Hv Hl Hz Hread. unfold new_items_of.
  rewrite (last_id_of_record _ _ _ _ _ Hd Hv Hl). simpl.
  by apply select_new_items_ok.
Qed.

(** C3, as amended.  The filter, from what the checkpoint holds for the
    account: with nothing stored, or something that counts as false, it keeps
    every entry that has an identifier in its link; with a record whose
    [last_id], passed through [str()], reads as the integer [z], and
    identifiers that [int()] reads, it keeps exactly the entries whose
    identifier is, as an integer, strictly greater than [z]; in both cases in
    the order of the feed.  An entry without an identifier is never kept, and
    a processing that returns submits requests and prints outcome lines for
    the kept entries only, one each, in the order of the sort. *)
Theorem watermark_filter (d : gmap string json) (username : string)
    (items : list item) :
  ((d !! username = None ∨ ∃ rec, d !! username = Some rec ∧ json_truthy rec = false) →
   new_items_of (UsersDict d) username items = Ok (List.filter has_id items))
  ∧ (∀ kv v l z,
       d !! username = Some (JObj kv) → obj_get "last_id" kv = Some v →
       py_str v = Ok l → py_int l = Some z → ids_readable items →
       new_items_of (UsersDict d) username items = Ok (List.filter (id_above z) items))
  ∧ (∀ it, it ∈ List.filter has_id items
           ↔ it ∈ items ∧ is_Some (extract_tweet_id (link it)))
  ∧ (∀ z it, it ∈ List.filter (id_above z) items
             ↔ it ∈ items
               ∧ ∃ tid a, extract_tweet_id (link it) = Some tid
                          ∧ py_int tid = Some a ∧ z < a)
  ∧ (∀ ch instances w users_state' new,
       (fetch_latest_from_nitter instances username w).2 = Ok items →
       new_items_of (UsersDict d) username items = Ok new →
       (process_account ch instances username (UsersDict d) w).2 = Ok users_state' →
       (posts (process_account ch instances username (UsersDict d) w).1.2).*1
       = omap (post_of ch username) (sort_by_pubDate new)
       ∧ (delivery_lines (process_account ch instances username (UsersDict d) w).1.2).*1
         = (λ it, extract_tweet_id (link it)) <$> sort_by_pubDate new).
Proof.
  split; [apply new_items_of_absent|].
  split; [intros kv v l z; apply new_items_of_record|].
  split.
  { intros it. by rewrite list_elem_of_In, filter_In, <-list_elem_of_In, has_id_iff. }
  split.
  { intros z it. rewrite list_elem_of_In, filter_In, <-list_elem_of_In.
    unfold id_above, id_of. split; intros [Hin Hit]; (split; [done|]).
    - destruct (extract_tweet_id (link it)) as [tid|]; [|done]. simpl in Hit.
      destruct (py_int tid) as [a|] eqn:Ha; [|done]. exists tid, a.
      by apply Z.ltb_lt in Hit.
    - destruct Hit as (tid & a & -> & Ha & Hlt). simpl. rewrite Ha. by apply Z.ltb_lt. }
  intros ch instances w users_state' new Hf Hnew Hok.
  destruct (process_account_inv _ _ _ _ _ _ Hok)
    as (items' & new' & Hf' & Hcase & Hp & Hl & _).
  assert (items' = items) as -> by congruence.
  assert (new' = sort_by_pubDate new) as ->.
  { destruct Hcase as [(-> & -> & _)|(last_id & Hlast & Hsel & -> & _)].
    - unfold new_items_of in Hnew.
      destruct (last_id_of (UsersDict d) username); [|done].
      simpl in Hnew. by injection Hnew as <-.
    - unfold new_items_of in Hnew. rewrite Hlast in Hnew. simpl in Hnew.
      rewrite Hsel in Hnew. by injection Hnew as <-. }
  split; [done|]. rewrite Hl. apply zip_with_fst. by eapply verdicts_length.
Qed.

(** What is stored lets line 316 return, with no [last_id] or one that
    [int()] reads. *)
Lemma well_stored_last_id (users_state : users_value) (username : string) :
  well_stored users_state username →
  last_id_of users_state username = Ok None
  ∨ ∃ l z, last_id_of users_state username = Ok (Some l) ∧ py_int l = Some z.
Proof.
  unfold well_stored, last_id_of. destruct users_state as [d|]; [|done].
  destruct (d !! username) as [rec|]; [|by left].
  intros [->|(kv & v & l & -> & Hv & Hl & [z Hz])]; [by left|].
  destruct kv as [|p kv]; [done|]. cbn [json_truthy negb].
  rewrite Hv; cbn [default]; unfold id; rewrite Hl. right. by exists l, z.
Qed.

Lemma well_stored_set (username u tid : string) (users_state users_state' : users_value) :
  is_Some (py_int tid) →
  users_set username (record_of tid) users_state = Ok users_state' →
  well_stored users_state u → well_stored users_state' u.
Proof.
  intros Hint. destruct users_state as [d|]; [|done]. intros [= <-].
  unfold well_stored. destruct (decide (username = u)) as [->|Hne].
  - rewrite lookup_insert_eq. intros _. right.
    by exists [("last_id", JVal (PStr tid))], (JVal (PStr tid)), tid.
  - by rewrite lookup_insert_ne.
Qed.

(** C7, as amended: when every exchange ends in a way the transport
    functions report, the parser of documents raises nothing but
    [ParseError], [int()] reads the identifiers of the feed, and the
    checkpoint holds for the account nothing, something that counts as
    false, or a record whose [last_id] reads as an integer, the processing of
    the account returns a state and raises nothing; and every account for
    which the checkpoint was of this kind still has such a checkpoint
    afterwards, so that the states the program writes keep the condition. *)
Theorem process_account_returns (ch : channel) (instances : list string)
    (username : string) (users_state : users_value) (w : World) :
  transport_reports → parser_reports →
  (∀ items, (fetch_latest_from_nitter instances username w).2 = Ok items →
            ids_readable items) →
  well_stored users_state username →
  ∃ users_state',
    (process_account ch instances username users_state w).2 = Ok users_state'
    ∧ ∀ u, well_stored users_state u → well_stored users_state' u.
Proof.
  intros Ht Hp Hread Hws.
  assert (∃ users_state',
            (process_account ch instances username users_state w).2 = Ok users_state')
    as [users_state' Hok].
  { rewrite run_process_account.
    destruct (fetch_returns_when_reported instances username w Ht Hp) as [items Hf].
    specialize (Hread items Hf).
    destruct (fetch_latest_from_nitter instances username w) as [[w1 t1] r1].
    cbn [snd] in Hf. subst r1. destruct items as [|it items]; [by eexists|].
    assert (∃ last_id new_items,
              last_id_of users_state username = Ok last_id
              ∧ select_new_items last_id (it :: items) = Ok new_items)
      as (last_id & new_items & -> & ->).
    { destruct (well_stored_last_id _ _ Hws) as [->|(l & z & -> & Hz)].
      - eexists _, _. split; [done|]. apply select_new_items_none.
      - eexists _, _. split; [done|]. by apply select_new_items_ok. }
    destruct new_items as [|n new_items]; [by eexists|].
    destruct (deliver_returns ch username (sort_by_pubDate (n :: new_items)) last_id w1 Ht)
      as [latest Hl].
    destruct (deliver ch username _ last_id w1) as [[w2 t2] r2].
    cbn [snd] in *. subst r2. cbn [result_bind]. unfold advance.
    destruct (opt_truthy latest); [|by eexists].
    destruct users_state as [d|]; [by eexists|done]. }
  exists users_state'. split; [done|]. intros u Hu.
  destruct (process_account_inv _ _ _ _ _ _ Hok)
    as (items & new & Hf & Hcase & _ & _ & Hsent).
  destruct Hcase as [(_ & _ & ->)|(last_id & Hl & _ & Hnew & [[_ ->]|Hadv])];
    [done|done|].
  unfold advance in Hadv.
  destruct (opt_truthy _) eqn:Htr; [|by injection Hadv as <-].
  eapply well_stored_set; [|exact Hadv|exact Hu].
  destruct (last (sent_ids (process_account ch instances username users_state w).1.2))
    as [tid|] eqn:Hlast; cbn [from_option default] in *; unfold id in *.
  - assert (tid ∈ sent_ids (process_account ch instances username users_state w).1.2)
      as Hin.
    { apply last_Some in Hlast as [l' ->]. apply elem_of_app; right. by left. }
    destruct (Hsent tid Hin) as [_ (it & Hit & Hx)].
    subst new. apply sort_by_pubDate_elem, list_elem_of_In, filter_In in Hit as [Hit _].
    apply list_elem_of_In in Hit. by eapply (Hread items Hf it tid).
  - destruct (well_stored_last_id _ _ Hws) as [Hn|(l & z & Hsome & Hz)].
    + rewrite Hn in Hl. injection Hl as <-. done.
    + rewrite Hsome in Hl. injection Hl as <-. simpl. by eexists.
Qed.

End Watermark.

(** ** One pass, and passes in sequence *)

Section Pass.
Context `{Host}.

Lemma run_process_accounts_cons (ch : channel) (instances : list string)
    (username : string) (rest : list string) (users_state : users_value) (w : World) :
  process_accounts ch instances (username :: rest) users_state w =
    let '(w1, t1, r1) := process_account ch instances username users_state w in
    match r1 with
    | Ok users_state1 =>
        let '(w2, t2, r2) := process_accounts ch instances rest users_state1 w1 in
        (w2, t1 ++ t2, r2)
    | Raise e => (w1, t1, Raise e)
    end.
Proof. reflexivity. Qed.

Lemma run_run_once (cfg : config) (st : state) (w : World) :
  run_once cfg st w =
    let '(w1, t, r) :=
      process_accounts (channel_of cfg)
        (default default_instances (cfg_nitter_instances cfg))
        (default [] (cfg_users cfg)) (st_users st) w in
    (w1, warnings (channel_of cfg) ++ t,
     match r with
     | Ok users_state =>
         Ok {| st_users := users_state;
               st_updated_at := Some (utcnow_isoformat w1 +:+ "Z") |}
     | Raise e => Raise e
     end).
Proof.
  unfold run_once, warnings, when.
  destruct (String.eqb (method (channel_of cfg)) "wecom"
            && negb (opt_truthy (wecom_webhook (channel_of cfg))));
    destruct (String.eqb (method (channel_of cfg)) "serverchan"
              && negb (opt_truthy (serverchan_key (channel_of cfg))));
    repeat (rewrite run_bind; simpl);
    destruct (process_accounts _ _ _ _ w) as [[w1 t] [users_state|e]];
    simpl; repeat (rewrite run_bind; simpl); by rewrite ?app_nil_r.
Qed.

(** What [process_accounts] does to the stored [last_id] of an account. *)
Lemma process_accounts_last_id (ch : channel) (instances users : list string)
    (users_state users_state' : users_value) (w : World) (u : string) :
  (process_accounts ch instances users users_state w).2 = Ok users_state' →
  (last_id_of users_state' u = last_id_of users_state u
   ∨ ∃ tid, last_id_of users_state' u = Ok (Some tid)
            ∧ delivery_confirmed ch u tid
                (process_accounts ch instances users users_state w).1.2)
  ∧ watermark_le (watermark users_state u) (watermark users_state' u).
Proof.
  revert users_state w. induction users as [|username rest IH]; intros users_state w.
  { intros [= <-]. split; [by left|done]. }
  rewrite run_process_accounts_cons.
  destruct (process_account ch instances username users_state w)
    as [[w1 t1] [users_state1|e]] eqn:Hpa; [|done].
  pose proof (process_account_last_id ch instances username users_state
                users_state1 w u) as Hone.
  rewrite Hpa in Hone. specialize (Hone eq_refl).
  specialize (IH users_state1 w1).
  destruct (process_accounts ch instances rest users_state1 w1) as [[w2 t2] r2].
  simpl in *. intros ->.
  destruct Hone as [Hid1 Hle1]. destruct (IH eq_refl) as [Hid2 Hle2].
  split; [|by etrans].
  destruct Hid2 as [Hsame2|(tid & Hl & Hc)].
  - destruct Hid1 as [Hsame1|(tid & Hl & Hc)].
    + left. congruence.
    + right. exists tid. rewrite Hsame2. split; [done|].
      by apply delivery_confirmed_app_r.
  - right. exists tid. split; [done|]. by apply delivery_confirmed_app_l.
Qed.

Lemma run_once_last_id (cfg : config) (st st' : state) (w : World) (u : string) :
  (run_once cfg st w).2 = Ok st' →
  (last_id_of (st_users st') u = last_id_of (st_users st) u
   ∨ ∃ tid, last_id_of (st_users st') u = Ok (Some tid)
            ∧ delivery_confirmed (channel_of cfg) u tid (run_once cfg st w).1.2)
  ∧ watermark_le (watermark (st_users st) u) (watermark (st_users st') u).
Proof.
  rewrite run_run_once.
  destruct (process_accounts _ _ _ _ w) as [[w1 t] [users_state|e]] eqn:Hpa;
    [|done].
  pose proof (process_accounts_last_id (channel_of cfg)
                (default default_instances (cfg_nitter_instances cfg))
                (default [] (cfg_users cfg)) (st_users st) users_state w u) as Hacc.
  rewrite Hpa in Hacc. specialize (Hacc eq_refl). simpl in *.
  intros [= <-]. simpl. destruct Hacc as [Hid Hle]. split; [|done].
  destruct Hid as [?|(tid & ? & Hc)]; [by left|].
  right. exists tid. split; [done|]. by apply delivery_confirmed_app_l.
Qed.


End Pass.

Lemma daemon_passes `{Host} (cfg : config) (n : nat) (st : state) (w : World) :
  passes cfg st (daemon cfg n st w).
Proof.
  revert st w. induction n as [|n IH]; intros st w; simpl; [constructor|].
  destruct (run_once cfg st w) as [[w' t] [st'|e]] eqn:Hrun; [|constructor].
  econstructor; [exact Hrun|apply IH].
Qed.

(** ** What a pass leaves alone *)

Section Frame.
Context `{Host}.

Lemma records_kept_refl (users : list string) (a : users_value) : records_kept users a a.
Proof. destruct a as [d|]; [|done]. intros u. by left. Qed.

Lemma records_kept_trans (users : list string) (a b c : users_value) :
  records_kept users a b → records_kept users b c → records_kept users a c.
Proof.
  destruct a as [d1|], b as [d2|], c as [d3|]; simpl; try done.
  intros H12 H23 u. destruct (H23 u) as [Hs|?]; [|by right].
  rewrite Hs. apply H12.
Qed.

Lemma records_kept_mono (users users' : list string) (a b : users_value) :
  users ⊆ users' → records_kept users a b → records_kept users' a b.
Proof.
  intros Hsub. destruct a as [d1|], b as [d2|]; simpl; try done.
  intros Hk u. destruct (Hk u) as [?|[Hin ?]]; [by left|]. right. split; [|done].
  by apply Hsub.
Qed.

Lemma advance_kept (username : string) (latest : option string)
    (users_state users_state' : users_value) :
  advance username latest users_state = Ok users_state' →
  records_kept [username] users_state users_state'.
Proof.
  unfold advance. destruct latest as [tid|]; simpl;
    [|intros [= <-]; apply records_kept_refl].
  destruct (Py.truthy tid) eqn:Ht; [|intros [= <-]; apply records_kept_refl].
  destruct users_state as [d|]; [|done]. intros [= <-]. intros u.
  destruct (decide (u = username)) as [->|Hne].
  - right. split; [by left|]. exists tid. by rewrite lookup_insert_eq.
  - left. by rewrite lookup_insert_ne.
Qed.

Lemma process_account_kept (ch : channel) (instances : list string)
    (username : string) (users_state users_state' : users_value) (w : World) :
  (process_account ch instances username users_state w).2 = Ok users_state' →
  records_kept [username] users_state users_state'.
Proof.
  intros Hok.
  destruct (process_account_inv _ _ _ _ _ _ Hok) as (items & new & _ & Hcase & _).
  destruct Hcase as [(_ & _ & ->)|(last_id & _ & _ & _ & [[_ ->]|Hadv])];
    [apply records_kept_refl|apply records_kept_refl|].
  by eapply advance_kept.
Qed.

Lemma process_accounts_kept (ch : channel) (instances users : list string)
    (users_state users_state' : users_value) (w : World) :
  (process_accounts ch instances users users_state w).2 = Ok users_state' →
  records_kept users users_state users_state'.
Proof.
  revert users_state w. induction users as [|username rest IH];
    intros users_state w.
  { intros [= <-]. apply records_kept_refl. }
  rewrite run_process_accounts_cons.
  destruct (process_account ch instances username users_state w)
    as [[w1 t1] [users_state1|e]] eqn:Hpa; [|done].
  pose proof (process_account_kept ch instances username users_state
                users_state1 w) as Hone.
  rewrite Hpa in Hone. specialize (Hone eq_refl).
  specialize (IH users_state1 w1).
  destruct (process_accounts ch instances rest users_state1 w1) as [[w2 t2] r2].
  intros Hr. eapply records_kept_trans.
  - eapply records_kept_mono; [|exact Hone]. intros u ->%list_elem_of_singleton. by left.
  - eapply records_kept_mono; [|exact (IH Hr)]. intros u Hu. by right.
Qed.

(** X9: a pass that returns leaves what the checkpoint holds under ["users"]
    a dictionary if it was one, and as it is otherwise; in the dictionary the
    record of any account is as it was or is the dictionary with the single
    key [last_id] holding a non-empty text (then the account is a configured
    user), so that the record of every account that is not among the
    configured users is as it was; and [updated_at] is the time the clock
    gives at the end of the pass, followed by [Z]. *)
Theorem run_once_frame (cfg : config) (st st' : state) (w : World) :
  (run_once cfg st w).2 = Ok st' →
  records_kept (default [] (cfg_users cfg)) (st_users st) (st_users st')
  ∧ (∀ d d' u, st_users st = UsersDict d → st_users st' = UsersDict d' →
       u ∉ default [] (cfg_users cfg) → d' !! u = d !! u)
  ∧ st_updated_at st' = Some (utcnow_isoformat (run_once cfg st w).1.1 +:+ "Z").
Proof.
  rewrite run_run_once.
  destruct (process_accounts (channel_of cfg)
              (default default_instances (cfg_nitter_instances cfg))
              (default [] (cfg_users cfg)) (st_users st) w)
    as [[w1 t] [users_state|e]] eqn:Hpa; [|done].
  intros [= <-]. cbn [st_users st_updated_at fst snd].
  assert (records_kept (default [] (cfg_users cfg)) (st_users st) users_state) as Hk.
  { apply (process_accounts_kept (channel_of cfg)
             (default default_instances (cfg_nitter_instances cfg))
             (default [] (cfg_users cfg)) (st_users st) users_state w).
    by rewrite Hpa. }
  split; [done|]. split; [|done].
  intros d d' u Hd -> Hu. rewrite Hd in Hk. by destruct (Hk u) as [?|[? _]].
Qed.

End Frame.

(** ** A channel without its credential *)

Section Unconfigured.
Context `{Host}.

Lemma post_of_unconfigured (ch : channel) (username : string) (it : item) :
  configured ch = false → post_of ch username it = None.
Proof.
  intros Hc. pose proof (post_of_configured ch username it) as Hp. by rewrite Hc in Hp.
Qed.

(** Without a configured channel the loop submits nothing: per entry it
    prints the warning and a [[fail]] line, and it returns the [last_id] it
    started from. *)
Lemma deliver_unconfigured (ch : channel) (username : string)
    (new_items : list item) (latest : option string) (w : World) :
  configured ch = false →
  deliver ch username new_items latest w =
    (w,
     new_items ≫= (λ it, [ Print WarnNoPushMethod;
                           Print (Fail username (extract_tweet_id (link it))) ]),
     Ok latest).
Proof.
  intros Hch. induction new_items as [|it rest IH]; [done|].
  rewrite run_deliver_cons, run_push_item, post_of_unconfigured by done.
  cbn [andb]. by rewrite IH.
Qed.

Lemma unconfigured_trace_quiet (username : string) (new_items : list item) :
  requests (new_items ≫= (λ it, [ Print WarnNoPushMethod;
                                  Print (Fail username (extract_tweet_id (link it))) ]))
  = []
  ∧ sent_ids (new_items ≫= (λ it, [ Print WarnNoPushMethod;
                                    Print (Fail username (extract_tweet_id (link it))) ]))
    = [].
Proof. induction new_items as [|it rest [IHr IHs]]; [done|]. by split. Qed.

Lemma fetch_gets (instances : list string) (username : string) (w : World) :
  Forall (λ r, is_post r = false)
    (requests (fetch_latest_from_nitter instances username w).1.2)
  ∧ sent_ids (fetch_latest_from_nitter instances username w).1.2 = [].
Proof.
  destruct (fetch_trace instances username w) as (Hd & _ & Hq). split.
  - eapply Forall_impl; [exact Hq|]. by intros r (b & _ & ->).
  - by rewrite sent_ids_delivery_lines, Hd.
Qed.

Lemma process_account_unconfigured (ch : channel) (instances : list string)
    (username : string) (users_state : users_value) (w : World) :
  configured ch = false →
  Forall (λ r, is_post r = false)
    (requests (process_account ch instances username users_state w).1.2)
  ∧ sent_ids (process_account ch instances username users_state w).1.2 = [].
Proof.
  intros Hch. rewrite run_process_account.
  destruct (fetch_gets instances username w) as [Hq Hs].
  destruct (fetch_latest_from_nitter instances username w) as [[w1 t1] r1].
  cbn [fst snd] in *.
  destruct r1 as [[|it items]|e]; cbn [fst snd]; [| |done].
  { rewrite requests_app, sent_ids_app, Hs. split; [|done]. by rewrite app_nil_r. }
  destruct (last_id_of users_state username) as [last_id|e]; cbn [fst snd]; [|done].
  destruct (select_new_items last_id (it :: items))
    as [[|n new_items]|e]; cbn [fst snd].
  - rewrite requests_app, sent_ids_app, Hs. split; [|done]. by rewrite app_nil_r.
  - rewrite deliver_unconfigured by done. cbn [fst snd].
    destruct (unconfigured_trace_quiet username (sort_by_pubDate (n :: new_items)))
      as [Hrq Hsi].
    rewrite requests_app, sent_ids_app, Hs, Hrq, Hsi. split; [|done].
    by rewrite app_nil_r.
  - done.
Qed.

Lemma process_accounts_unconfigured (ch : channel) (instances users : list string)
    (users_state : users_value) (w : World) :
  configured ch = false →
  Forall (λ r, is_post r = false)
    (requests (process_accounts ch instances users users_state w).1.2)
  ∧ sent_ids (process_accounts ch instances users users_state w).1.2 = [].
Proof.
  intros Hch. revert users_state w.
  induction users as [|username rest IH]; intros users_state w; [by split|].
  rewrite run_process_accounts_cons.
  destruct (process_account_unconfigured ch instances username users_state w Hch)
    as [Hq Hs].
  destruct (process_account ch instances username users_state w)
    as [[w1 t1] [users_state1|e]]; [|done].
  destruct (IH users_state1 w1) as [Hq' Hs'].
  destruct (process_accounts ch instances rest users_state1 w1) as [[w2 t2] r2].
  cbn [fst snd] in *. rewrite requests_app, sent_ids_app, Hs, Hs'.
  split; [|done]. by apply Forall_app.
Qed.

Lemma warnings_no_requests (ch : channel) :
  requests (warnings ch) = [] ∧ sent_ids (warnings ch) = []
  ∧ delivery_lines (warnings ch) = [].
Proof.
  unfold warnings.
  by destruct (String.eqb (method ch) "wecom" && negb (opt_truthy (wecom_webhook ch))),
    (String.eqb (method ch) "serverchan" && negb (opt_truthy (serverchan_key ch))).
Qed.

(** X10: when the configured method has no credential (or is neither of the
    two methods), a pass still probes the mirrors but submits no request to
    a channel and prints no [[sent]] line; and if it returns, every account
    has the [last_id] it had. *)
Theorem run_once_unconfigured (cfg : config) (st : state) (w : World) :
  configured (channel_of cfg) = false →
  Forall (λ r, is_post r = false) (requests (run_once cfg st w).1.2)
  ∧ sent_ids (run_once cfg st w).1.2 = []
  ∧ ∀ st', (run_once cfg st w).2 = Ok st' →
      ∀ u, last_id_of (st_users st') u = last_id_of (st_users st) u.
Proof.
  intros Hch.
  assert (Forall (λ r, is_post r = false) (requests (run_once cfg st w).1.2)
          ∧ sent_ids (run_once cfg st w).1.2 = []) as [Hq Hs].
  { rewrite run_run_once.
    destruct (process_accounts_unconfigured (channel_of cfg)
                (default default_instances (cfg_nitter_instances cfg))
                (default [] (cfg_users cfg)) (st_users st) w Hch) as [Hq Hs].
    destruct (process_accounts _ _ _ (st_users st) w) as [[w1 t] r].
    cbn [fst snd] in *.
    destruct (warnings_no_requests (channel_of cfg)) as (Hwq & Hws & _).
    by rewrite requests_app, sent_ids_app, Hwq, Hws. }
  split; [done|]. split; [done|].
  intros st' Hok u.
  destruct (run_once_last_id cfg st st' w u Hok) as [[Hsame|(tid & _ & Hc)] _];
    [done|].
  apply delivery_confirmed_sent, sent_in_sent_ids in Hc.
  rewrite Hs in Hc. by apply elem_of_nil in Hc.
Qed.

End Unconfigured.

(** ** The requests of a pass *)

Section Requests.
Context `{Host}.

Lemma deliver_requests (ch : channel) (username : string) (new_items : list item)
    (latest : option string) (w : World) :
  Forall (λ r, ∃ it, post_of ch username it = Some r)
    (requests (deliver ch username new_items latest w).1.2).
Proof.
  revert latest w. induction new_items as [|it rest IH]; intros latest w;
    [constructor|].
  rewrite run_deliver_cons, run_push_item.
  destruct (post_of ch username it) as [r|] eqn:Hpost; cbv beta iota zeta.
  - destruct (pushed r (urlopen r w).1) as [ok|e].
    + specialize (IH (if ok && opt_truthy (extract_tweet_id (link it))
                      then extract_tweet_id (link it) else latest) (urlopen r w).2).
      destruct (deliver ch username rest _ _) as [[w2 t2] r2]. cbn [fst snd] in *.
      rewrite requests_app.
      change (requests [Request r (urlopen r w).1]) with [r].
      apply Forall_app. split; [by repeat constructor; exists it|].
      by destruct (ok && opt_truthy (extract_tweet_id (link it))).
    + cbn [fst snd]. by repeat constructor; exists it.
  - specialize (IH latest w). cbn [andb].
    destruct (deliver ch username rest latest w) as [[w2 t2] r2].
    cbn [fst snd] in *. done.
Qed.

Lemma opt_truthy_Some (o : option string) :
  opt_truthy o = true → ∃ s, o = Some s.
Proof. destruct o; [eauto|done]. Qed.

Lemma post_of_allowed (cfg : config) (username : string) (it : item) (r : request) :
  post_of (channel_of cfg) username it = Some r → allowed_request cfg r.
Proof.
  unfold post_of, allowed_request. cbv zeta.
  destruct (format_message username it) as [msg x_link].
  destruct (String.eqb (method (channel_of cfg)) "wecom"
            && opt_truthy (wecom_webhook (channel_of cfg))) eqn:Hw.
  { apply andb_prop in Hw as [Hm%String.eqb_eq [webhook Hweb]%opt_truthy_Some].
    rewrite Hweb. intros [= <-]. right; left. exists webhook, (Py.take 4096 msg).
    repeat split; try done. rewrite len_take. lia. }
  destruct (String.eqb (method (channel_of cfg)) "serverchan"
            && opt_truthy (serverchan_key (channel_of cfg))) eqn:Hs; [|done].
  apply andb_prop in Hs as [Hm%String.eqb_eq [sendkey Hkey]%opt_truthy_Some].
  rewrite Hkey. intros [= <-]. right; right. by eexists sendkey, _, _.
Qed.

Lemma process_account_requests (cfg : config) (username : string)
    (users_state : users_value) (w : World) :
  username ∈ default [] (cfg_users cfg) →
  Forall (allowed_request cfg)
    (requests (process_account (channel_of cfg)
                 (default default_instances (cfg_nitter_instances cfg))
                 username users_state w).1.2).
Proof.
  intros Hin. rewrite run_process_account.
  destruct (fetch_trace (default default_instances (cfg_nitter_instances cfg))
              username w) as (_ & _ & Hfetch).
  destruct (fetch_latest_from_nitter _ username w) as [[w1 t1] r1].
  cbn [fst snd] in *.
  assert (Forall (allowed_request cfg) (requests t1)) as Ht1.
  { eapply Forall_impl; [exact Hfetch|]. intros r (base & Hb & ->).
    left. by exists base, username. }
  destruct r1 as [[|it items]|e]; cbn [fst snd]; [| |done].
  { by rewrite requests_app, app_nil_r. }
  destruct (last_id_of users_state username) as [last_id|e]; cbn [fst snd]; [|done].
  destruct (select_new_items last_id (it :: items))
    as [[|n new_items]|e]; cbn [fst snd]; [| |done].
  { by rewrite requests_app, app_nil_r. }
  pose proof (deliver_requests (channel_of cfg) username
                (sort_by_pubDate (n :: new_items)) last_id w1) as Hd.
  destruct (deliver (channel_of cfg) username _ _ w1) as [[w2 t2] r2].
  cbn [fst snd] in *. rewrite requests_app. apply Forall_app. split; [done|].
  eapply Forall_impl; [exact Hd|]. intros r [it' Hpost].
  by eapply post_of_allowed.
Qed.

Lemma process_accounts_requests (cfg : config) (users : list string)
    (users_state : users_value) (w : World) :
  users ⊆ default [] (cfg_users cfg) →
  Forall (allowed_request cfg)
    (requests (process_accounts (channel_of cfg)
                 (default default_instances (cfg_nitter_instances cfg))
                 users users_state w).1.2).
Proof.
  revert users_state w. induction users as [|username rest IH];
    intros users_state w Hsub; [constructor|].
  rewrite run_process_accounts_cons.
  pose proof (process_account_requests cfg username users_state w) as Hone.
  destruct (process_account _ _ username users_state w)
    as [[w1 t1] [users_state1|e]]; cbn [fst snd] in *.
  - specialize (IH users_state1 w1).
    destruct (process_accounts _ _ rest users_state1 w1) as [[w2 t2] r2].
    cbn [fst snd] in *. rewrite requests_app. apply Forall_app. split.
    + apply Hone, Hsub. by left.
    + apply IH. intros u Hu. apply Hsub. by right.
  - apply Hone, Hsub. by left.
Qed.

(** X11: every request a pass submits is one the configuration calls for:
    the feed of a configured account on a configured mirror (the default
    mirrors when none is configured), a JSON message to the configured
    webhook whose text has at most 4096 characters, or a form to the address
    of the configured send key.  This holds for the requests made before a
    pass raises as well. *)
Theorem run_once_requests_allowed (cfg : config) (st : state) (w : World) :
  Forall (allowed_request cfg) (requests (run_once cfg st w).1.2).
Proof.
  rewrite run_run_once.
  pose proof (process_accounts_requests cfg (default [] (cfg_users cfg))
                (st_users st) w) as Hacc.
  destruct (process_accounts _ _ _ (st_users st) w) as [[w1 t] r].
  cbn [fst snd] in *. rewrite requests_app.
  destruct (warnings_no_requests (channel_of cfg)) as (-> & _). by apply Hacc.
Qed.

(** ** No mirror answers *)

Lemma all_mirrors_down_passed_over (urls : list string) (w : World) :
  all_mirrors_down → all_passed_over urls w.
Proof.
  intros Hdown. revert w. induction urls as [|url rest IH]; intros w; [done|].
  split; [apply Hdown|apply IH].
Qed.

Lemma probes_quiet (urls : list string) (w : World) :
  requests (probes urls w) = Get <$> urls ∧ delivery_lines (probes urls w) = [].
Proof.
  revert w. induction urls as [|url rest IH]; intros w; [done|].
  destruct (IH (urlopen (Get url) w).2) as [Hq Hd]. split.
  - change (requests (probes (url :: rest) w))
      with (Get url :: requests (probes rest (urlopen (Get url) w).2)).
    by rewrite Hq.
  - exact Hd.
Qed.

Lemma process_accounts_outage (ch : channel) (instances users : list string)
    (users_state : users_value) (w : World) :
  all_mirrors_down →
  (process_accounts ch instances users users_state w).2 = Ok users_state
  ∧ requests (process_accounts ch instances users users_state w).1.2
    = users ≫= (λ u, Get <$> urls_of instances u)
  ∧ delivery_lines (process_accounts ch instances users users_state w).1.2 = [].
Proof.
  intros Hdown. revert w. induction users as [|username rest IH]; intros w; [done|].
  rewrite run_process_accounts_cons, run_process_account.
  rewrite fetch_all_passed_over by by apply all_mirrors_down_passed_over.
  destruct (IH (world_after (urls_of instances username) w)) as (Hr & Hq & Hd).
  destruct (process_accounts ch instances rest users_state _) as [[w2 t2] r2].
  cbn [fst snd] in *. split; [done|].
  destruct (probes_quiet (urls_of instances username) w) as [Hpq Hpd].
  rewrite !requests_app, !delivery_lines_app, Hq, Hd, Hpq, Hpd.
  split; [by rewrite app_nil_r|done].
Qed.

(** X12: when every probe of a mirror is passed over (an HTTP error, a URL
    error, a status other than 200, an empty body), a pass returns, whatever
    the checkpoint holds, with what it holds under ["users"] as it was; it
    has asked, for each configured account in turn, each mirror in the order
    of the configuration, and nothing else; and it has made no delivery
    attempt. *)
Theorem run_once_outage (cfg : config) (st : state) (w : World) :
  all_mirrors_down →
  (∃ st', (run_once cfg st w).2 = Ok st' ∧ st_users st' = st_users st)
  ∧ requests (run_once cfg st w).1.2
    = default [] (cfg_users cfg)
        ≫= (λ u, Get <$> urls_of (default default_instances
                                     (cfg_nitter_instances cfg)) u)
  ∧ delivery_lines (run_once cfg st w).1.2 = [].
Proof.
  intros Hdown. rewrite run_run_once.
  destruct (process_accounts_outage (channel_of cfg)
              (default default_instances (cfg_nitter_instances cfg))
              (default [] (cfg_users cfg)) (st_users st) w Hdown)
    as (Hr & Hq & Hd).
  destruct (process_accounts _ _ _ (st_users st) w) as [[w1 t] r].
  cbn [fst snd] in *. subst r. split; [by eexists|].
  destruct (warnings_no_requests (channel_of cfg)) as (Hwq & _ & Hwd).
  by rewrite requests_app, delivery_lines_app, Hq, Hd, Hwq, Hwd.
Qed.

(** X13: a [last_id] stored in the checkpoint as a JSON integer whose decimal
    text is within the interpreter's limit on digits is read, through
    [int(str(...))], as that same integer: line 316 gives its decimal text,
    [int()] reads the text as the number, which is the account's watermark,
    and the filter keeps the entries whose identifier is above the number. *)
Theorem integer_last_id_is_read (d : gmap string json) (username : string)
    (kv : list (string * json)) (z : Z) (items : list item) :
  d !! username = Some (JObj kv) →
  obj_get "last_id" kv = Some (JVal (PInt z)) →
  Py.exceeds int_max_str_digits (String.length (pretty (Z.abs z))) = false →
  last_id_of (UsersDict d) username = Ok (Some (pretty z))
  ∧ py_int (pretty z) = Some z
  ∧ watermark (UsersDict d) username = Some z
  ∧ (ids_readable items →
     new_items_of (UsersDict d) username items = Ok (List.filter (id_above z) items)).
Proof.
  intros Hd Hkv Hlim.
  assert (py_str (JVal (PInt z)) = Ok (pretty z)) as Hstr by (simpl; by rewrite Hlim).
  destruct (int_py_str_int z (pretty z) Hstr) as [_ Hint].
  pose proof (last_id_of_record d username kv _ _ Hd Hkv Hstr) as Hlast.
  split; [done|]. split; [done|]. split.
  - unfold watermark. by rewrite Hlast.
  - intros Hread. by eapply new_items_of_record.
Qed.

(** X14: the second sort of a pass, on the entries the filter kept (line
    331), changes nothing: the filter keeps the order in which the fetch
    returned the entries, and that order is the sorted one. *)
Theorem second_sort_changes_nothing (instances : list string) (username : string)
    (w : World) (items new_items : list item) (last_id : option string) :
  (fetch_latest_from_nitter instances username w).2 = Ok items →
  select_new_items last_id items = Ok new_items →
  sort_by_pubDate new_items = new_items.
Proof.
  intros Hfetch Hsel. rewrite (select_new_items_filter _ _ _ Hsel).
  by eapply sort_filter_sorted, fetch_sorted_by_text.
Qed.

End Requests.

(** ** Running a pass again *)

Section Rerun.
Context `{Host}.

Lemma newer_monotone (last_id : option string) (x y : item) (a b : Z) :
  newer last_id x = true → id_of x = Some a → id_of y = Some b → a ≤ b →
  newer last_id y = true.
Proof.
  unfold id_of. intros (tid & Hx & Hl)%newer_inv Hida Hidb Hle.
  rewrite Hx in Hida. simpl in Hida.
  unfold newer. destruct (extract_tweet_id (link y)) as [tid'|] eqn:Hy; [|done].
  simpl in Hidb. destruct last_id as [l|]; [|done].
  destruct Hl as (a' & c & Ha' & Hc & Hlt). rewrite Hidb, Hc.
  apply Z.ltb_lt. assert (a' = a) by congruence. lia.
Qed.

(** In a feed whose identifiers ascend, the last kept entry carries the
    largest identifier of the feed. *)
Lemma last_newer_is_max (last_id : option string) (items : list item) (z : item) :
  ids_ascend items = true →
  last (List.filter (newer last_id) items) = Some z →
  ∀ y a b, y ∈ items → id_of y = Some a → id_of z = Some b → a ≤ b.
Proof.
  induction items as [|x rest IH]; simpl; [done|].
  intros [Hx Hrest]%andb_prop Hlast y a b Hy Ha Hb.
  rewrite forallb_forall in Hx.
  destruct (List.filter (newer last_id) rest) as [|n kept] eqn:Hkept.
  - destruct (newer last_id x) eqn:Hnx; [|done].
    injection Hlast as ->.
    apply elem_of_cons in Hy as [->|Hy]; [by simplify_eq; lia|].
    exfalso. specialize (Hx y). rewrite Hb, Ha in Hx.
    assert (newer last_id y = true) as Hny.
    { eapply (newer_monotone last_id z y b a); try done.
      apply Z.leb_le, Hx. by apply list_elem_of_In. }
    assert (In y (List.filter (newer last_id) rest)) as Hin.
    { apply filter_In. split; [by apply list_elem_of_In|done]. }
    by rewrite Hkept in Hin.
  - assert (last (n :: kept) = Some z) as Hlast'.
    { destruct (newer last_id x); [|done]. by rewrite last_cons_cons in Hlast. }
    apply elem_of_cons in Hy as [->|Hy]; [|by eapply IH].
    assert (z ∈ rest) as Hz.
    { assert (z ∈ n :: kept) as Hin.
      { apply last_Some in Hlast' as [l' ->]. apply elem_of_app; right. by left. }
      rewrite <-Hkept in Hin.
      by apply list_elem_of_In, filter_In in Hin as [?%list_elem_of_In _]. }
    specialize (Hx z). rewrite Ha, Hb in Hx. apply Z.leb_le, Hx.
    by apply list_elem_of_In.
Qed.

Lemma all_sent_ids (l : list item) (oks : list bool) :
  length oks = length l →
  Forall (λ line : option string * bool, line.2 = true)
    (zip_with (λ it ok, (extract_tweet_id (link it), ok)) l oks) →
  omap (λ line : option string * bool, if line.2 then line.1 else None)
    (zip_with (λ it ok, (extract_tweet_id (link it), ok)) l oks)
  = omap (λ it, extract_tweet_id (link it)) l.
Proof.
  revert oks; induction l as [|x l IH]; intros [|ok oks]; simpl; try done.
  intros [= Hlen] [Hok Hall]%Forall_cons. simpl in Hok. subst ok. simpl.
  by rewrite IH.
Qed.

Lemma last_omap_all {A B} (g : A → option B) (l : list A) :
  Forall (λ x, is_Some (g x)) l → last (omap g l) = last l ≫= g.
Proof.
  induction 1 as [|x l [b Hb] Hall IH]; simpl; [done|].
  rewrite Hb. destruct Hall as [|y l [c Hc] Hall]; simpl in *; [done|].
  rewrite Hc in *. simpl in *. by rewrite IH.
Qed.

Lemma fetch_unchanged (instances : list string) (username : string) (w w' : World) :
  unchanged_source →
  (fetch_latest_from_nitter instances username w).2
  = (fetch_latest_from_nitter instances username w').2.
Proof.
  intros Hsrc. revert w w'. induction instances as [|base rest IH]; intros w w'.
  { done. }
  rewrite !run_fetch_cons. cbv zeta.
  rewrite (Hsrc _ w w'). destruct (status_and_body _) as [cb|e]; [|done].
  destruct (usable cb); [done|].
  specialize (IH (urlopen (Get (rss_url base username)) w).2
                 (urlopen (Get (rss_url base username)) w').2).
  destruct (fetch_latest_from_nitter rest username _) as [[w2 t2] r2].
  by destruct (fetch_latest_from_nitter rest username _) as [[w3 t3] r3].
Qed.

(** The processing of a settled account returns the state it was given,
    prints no outcome line and submits nothing to a channel. *)
Lemma settled_noop (ch : channel) (instances : list string) (username : string)
    (users_state : users_value) (w : World) (items : list item) :
  (fetch_latest_from_nitter instances username w).2 = Ok items →
  settled instances users_state username →
  (process_account ch instances username users_state w).2 = Ok users_state
  ∧ delivery_lines (process_account ch instances username users_state w).1.2 = []
  ∧ posts (process_account ch instances username users_state w).1.2 = [].
Proof.
  intros Hf Hset. specialize (Hset w items Hf). rewrite run_process_account.
  destruct (fetch_trace instances username w) as (Hd & Hp & _).
  destruct (fetch_latest_from_nitter instances username w) as [[w1 t1] r1].
  simpl in Hf, Hd, Hp. subst r1.
  destruct items as [|it items].
  { simpl. by rewrite delivery_lines_app, posts_app, Hd, Hp. }
  specialize (Hset ltac:(done)). unfold new_items_of in Hset.
  destruct (last_id_of users_state username) as [last_id|e]; [|done].
  cbn [result_bind] in Hset. rewrite Hset. cbn [fst snd].
  by rewrite delivery_lines_app, posts_app, Hd, Hp.
Qed.

(** After a processing in which every attempt was confirmed, on a feed whose
    identifiers [int()] reads and which ascend, the account is settled. *)
Lemma process_account_settles (ch : channel) (instances : list string)
    (username : string) (users_state users_state' : users_value) (w : World) :
  unchanged_source →
  (∀ w items, (fetch_latest_from_nitter instances username w).2 = Ok items →
              ids_readable items ∧ ids_ascend items = true) →
  (process_account ch instances username users_state w).2 = Ok users_state' →
  Forall (λ line, line.2 = true)
    (delivery_lines (process_account ch instances username users_state w).1.2) →
  settled instances users_state' username.
Proof.
  intros Hsrc Hasc Hok Hall.
  destruct (process_account_inv _ _ _ _ _ _ Hok)
    as (items & new & Hf & Hcase & Hp & Hl & Hsent).
  destruct (Hasc w items Hf) as [Hread Hup].
  pose proof (fetch_sorted_by_text instances username w items Hf) as Hsorted.
  assert (new_items_of users_state' username items = Ok [] ∨ items = [] →
          settled instances users_state' username) as Hgoal.
  { intros Hsel w' items' Hf' Hne.
    rewrite (fetch_unchanged _ _ w' w Hsrc), Hf in Hf'. injection Hf' as <-.
    by destruct Hsel. }
  apply Hgoal.
  destruct Hcase as [(-> & _)|(last_id & Hlast & Hsel & Hnew & Hstate)]; [by right|].
  left. rewrite sort_filter_sorted in Hnew by done.
  assert (List.filter (newer last_id) items = [] →
          last_id_of users_state' username = Ok last_id →
          new_items_of users_state' username items = Ok []) as Hsame.
  { intros Hnil Hl'. unfold new_items_of. rewrite Hl'. simpl. by rewrite Hsel, Hnil. }
  destruct Hstate as [[Hnil ->]|Hadv].
  { apply Hsame; [by rewrite <-Hnew|done]. }
  set (t := (process_account ch instances username users_state w).1.2) in *.
  assert (sent_ids t = omap (λ it, extract_tweet_id (link it)) new) as Hsids.
  { rewrite sent_ids_delivery_lines, Hl. apply all_sent_ids.
    - by eapply verdicts_length.
    - by rewrite <-Hl. }
  assert (Forall (λ it, is_Some (extract_tweet_id (link it))) new) as Hids.
  { subst new. apply Forall_forall. intros x Hx.
    apply list_elem_of_In, filter_In in Hx as [_ Hx].
    apply newer_inv in Hx as (tid & -> & _). by eexists. }
  rewrite Hsids, last_omap_all in Hadv by done.
  destruct (last new) as [z|] eqn:Hz; cbn [mbind option_bind from_option] in Hadv;
    last first.
  { apply last_None in Hz. apply Hsame; [by rewrite <-Hnew|].
    by eapply last_id_of_advance_same. }
  assert (newer last_id z = true) as Hnz.
  { assert (In z (List.filter (newer last_id) items)) as Hin.
    { rewrite <-Hnew. apply list_elem_of_In. apply last_Some in Hz as [l' ->].
      apply elem_of_app; right. by left. }
    by apply filter_In in Hin as [_ ?]. }
  assert (z ∈ items) as Hzin.
  { assert (In z (List.filter (newer last_id) items)) as Hin.
    { rewrite <-Hnew. apply list_elem_of_In. apply last_Some in Hz as [l' ->].
      apply elem_of_app; right. by left. }
    by apply filter_In in Hin as [?%list_elem_of_In _]. }
  apply newer_inv in Hnz as (tid & Hx & _).
  destruct (Hread z tid Hzin Hx) as [b Hb].
  rewrite Hx in Hadv. cbn [from_option] in Hadv.
  pose proof Hx as [Ht _]%extract_tweet_id_digits.
  unfold advance in Hadv. cbn [opt_truthy default] in Hadv. unfold id in Hadv.
  rewrite Ht in Hadv. apply last_id_of_set in Hadv.
  unfold new_items_of. rewrite Hadv. simpl.
  rewrite (select_new_items_ok tid b items Hb Hread). f_equal.
  assert (∀ y, In y items → id_above b y = false) as Hnone.
  { intros y Hy. unfold id_above. destruct (id_of y) as [a|] eqn:Ha; [|done].
    apply Z.ltb_ge.
    eapply (last_newer_is_max last_id items z Hup); [by rewrite <-Hnew| |exact Ha|].
    - by apply list_elem_of_In.
    - unfold id_of. by rewrite Hx. }
  clear -Hnone. induction items as [|y l IH]; simpl; [done|].
  rewrite (Hnone y) by (by left). apply IH. intros y' Hy'. apply Hnone. by right.
Qed.

Lemma settled_last_id (instances : list string) (us us' : users_value) (u : string) :
  last_id_of us' u = last_id_of us u → settled instances us u → settled instances us' u.
Proof. unfold settled, new_items_of. by intros ->. Qed.

(** A processing in which every attempt was confirmed settles its account
    and leaves the settled accounts settled. *)
Lemma process_account_keeps_settled (ch : channel) (instances : list string)
    (username : string) (users_state users_state' : users_value)
    (w : World) (u : string) :
  unchanged_source →
  (∀ w items, (fetch_latest_from_nitter instances username w).2 = Ok items →
              ids_readable items ∧ ids_ascend items = true) →
  (process_account ch instances username users_state w).2 = Ok users_state' →
  Forall (λ line, line.2 = true)
    (delivery_lines (process_account ch instances username users_state w).1.2) →
  u = username ∨ settled instances users_state u →
  settled instances users_state' u.
Proof.
  intros Hsrc Hasc Hok Hall Hu.
  destruct (decide (u = username)) as [->|Hne].
  { by eapply process_account_settles. }
  destruct Hu as [?|Hu]; [done|].
  eapply settled_last_id; [|exact Hu].
  destruct (process_account_inv _ _ _ _ _ _ Hok) as (items & new & _ & Hcase & _).
  destruct Hcase as [(_ & _ & ->)|(last_id & _ & _ & _ & [[_ ->]|Hadv])];
    [done|done|].
  eapply last_id_of_advance_ne; [|exact Hadv]. done.
Qed.

Lemma process_accounts_settle (ch : channel) (instances users : list string)
    (users_state users_state' : users_value) (w : World) (u : string) :
  unchanged_source →
  (∀ username w items, username ∈ users →
     (fetch_latest_from_nitter instances username w).2 = Ok items →
     ids_readable items ∧ ids_ascend items = true) →
  (process_accounts ch instances users users_state w).2 = Ok users_state' →
  Forall (λ line, line.2 = true)
    (delivery_lines (process_accounts ch instances users users_state w).1.2) →
  u ∈ users ∨ settled instances users_state u →
  settled instances users_state' u.
Proof.
  intros Hsrc. revert users_state w.
  induction users as [|username rest IH]; intros users_state w Hasc.
  { intros [= <-] _ [Hin|Hu]; [by apply elem_of_nil in Hin|done]. }
  rewrite run_process_accounts_cons.
  destruct (process_account ch instances username users_state w)
    as [[w1 t1] [users_state1|e]] eqn:Hpa; [|done].
  pose proof (process_account_keeps_settled ch instances username users_state
                users_state1 w u Hsrc) as Hone.
  rewrite Hpa in Hone. cbn [fst snd] in Hone.
  specialize (IH users_state1 w1).
  destruct (process_accounts ch instances rest users_state1 w1) as [[w2 t2] r2].
  cbn [fst snd] in *. intros -> Hall Hu.
  rewrite delivery_lines_app in Hall. apply Forall_app in Hall as [Hall1 Hall2].
  apply IH; try done.
  { intros u' w' items Hin. apply Hasc. by right. }
  destruct (decide (u ∈ rest)) as [?|Hnot]; [by left|]. right.
  apply Hone; try done.
  { intros w' items. apply Hasc. by left. }
  destruct Hu as [Hin|?]; [|by right].
  apply elem_of_cons in Hin as [?|?]; [by left|done].
Qed.

(** When every account of the list is settled and the fetches return, the
    loop over the accounts delivers nothing and changes nothing. *)
Lemma process_accounts_settled_noop (ch : channel) (instances users : list string)
    (users_state : users_value) (w : World) :
  (∀ u w', u ∈ users → ∃ items,
     (fetch_latest_from_nitter instances u w').2 = Ok items) →
  (∀ u, u ∈ users → settled instances users_state u) →
  (process_accounts ch instances users users_state w).2 = Ok users_state
  ∧ delivery_lines (process_accounts ch instances users users_state w).1.2 = []
  ∧ posts (process_accounts ch instances users users_state w).1.2 = [].
Proof.
  revert w. induction users as [|username rest IH]; intros w Hfetch Hset; [done|].
  rewrite run_process_accounts_cons.
  destruct (Hfetch username w) as [items Hf]; [by left|].
  destruct (settled_noop ch instances username users_state w items Hf)
    as (Hr & Hd & Hq).
  { apply Hset. by left. }
  destruct (process_account ch instances username users_state w) as [[w1 t1] r1].
  cbn [fst snd] in *. subst r1.
  destruct (IH w1) as (Hr' & Hd' & Hq').
  { intros u w' Hu. apply Hfetch. by right. }
  { intros u Hu. apply Hset. by right. }
  destruct (process_accounts ch instances rest users_state w1) as [[w2 t2] r2].
  cbn [fst snd] in *. subst r2.
  by rewrite delivery_lines_app, posts_app, Hd, Hd', Hq, Hq'.
Qed.

(** The fetches of a loop over the accounts that returns have returned. *)
Lemma process_accounts_fetched (ch : channel) (instances users : list string)
    (users_state users_state' : users_value) (w : World) (u : string) :
  (process_accounts ch instances users users_state w).2 = Ok users_state' →
  u ∈ users →
  ∃ w' items, (fetch_latest_from_nitter instances u w').2 = Ok items.
Proof.
  revert users_state w. induction users as [|username rest IH]; intros users_state w.
  { intros _ Hin. by apply elem_of_nil in Hin. }
  rewrite run_process_accounts_cons.
  destruct (process_account ch instances username users_state w)
    as [[w1 t1] [users_state1|e]] eqn:Hpa; [|done].
  specialize (IH users_state1 w1).
  destruct (process_accounts ch instances rest users_state1 w1) as [[w2 t2] r2].
  cbn [fst snd] in *. intros -> [->|Hin]%elem_of_cons; [|by apply IH].
  assert ((process_account ch instances username users_state w).2 = Ok users_state1)
    as Hok by (by rewrite Hpa).
  destruct (process_account_inv _ _ _ _ _ _ Hok) as (items & _ & Hf & _).
  by exists w, items.
Qed.

(** X15: against feeds that do not change, if a first pass returns, every
    delivery attempt of it was confirmed and, in the feed of every account,
    [int()] reads the identifiers and they ascend along the order of the
    fetch, then a second pass, from the checkpoint of the first, returns,
    prints no outcome line, submits nothing to a channel, and leaves what
    the checkpoint holds for the accounts as it is. *)
Theorem rerun_delivers_nothing (cfg : config) (st st1 : state) (w w1 : World)
    (t1 : list event) (w2 : World) :
  unchanged_source →
  (∀ username w items,
     username ∈ default [] (cfg_users cfg) →
     (fetch_latest_from_nitter
        (default default_instances (cfg_nitter_instances cfg)) username w).2
     = Ok items →
     ids_readable items ∧ ids_ascend items = true) →
  run_once cfg st w = (w1, t1, Ok st1) →
  Forall (λ line, line.2 = true) (delivery_lines t1) →
  ∃ st2,
    (run_once cfg st1 w2).2 = Ok st2
    ∧ st_users st2 = st_users st1
    ∧ delivery_lines (run_once cfg st1 w2).1.2 = []
    ∧ posts (run_once cfg st1 w2).1.2 = [].
Proof.
  intros Hsrc Hasc Hrun Hall.
  set (ch := channel_of cfg) in *.
  set (instances := default default_instances (cfg_nitter_instances cfg)) in *.
  set (users := default [] (cfg_users cfg)) in *.
  destruct (warnings_no_requests ch) as (_ & _ & Hwd).
  assert (posts (warnings ch) = []) as Hwp.
  { unfold warnings. by repeat case_match. }
  assert ((∀ u, u ∈ users → settled instances (st_users st1) u)
          ∧ ∀ u w', u ∈ users →
              ∃ items, (fetch_latest_from_nitter instances u w').2 = Ok items)
    as [Hset Hfetch].
  { revert Hrun. rewrite run_run_once. fold ch instances users.
    destruct (process_accounts ch instances users (st_users st) w)
      as [[w' t] [users_state|e]] eqn:Hpa; [|done].
    intros [= <- <- <-]. simpl. split.
    - intros u Hu.
      eapply (process_accounts_settle ch instances users (st_users st) users_state w u);
        try done.
      + by rewrite Hpa.
      + rewrite Hpa. cbn [fst snd].
        rewrite delivery_lines_app, Hwd in Hall. done.
      + by left.
    - intros u w'' Hu.
      destruct (process_accounts_fetched ch instances users (st_users st)
                  users_state w u) as (w0 & items & Hf); [by rewrite Hpa|done|].
      exists items. by rewrite (fetch_unchanged _ _ w'' w0 Hsrc). }
  destruct (process_accounts_settled_noop ch instances users (st_users st1) w2
              Hfetch Hset) as (Hr & Hd & Hq).
  rewrite run_run_once. fold ch instances users.
  destruct (process_accounts ch instances users (st_users st1) w2) as [[w3 t3] r3].
  cbn [fst snd] in *. subst r3. eexists. split; [done|]. split; [done|].
  by rewrite delivery_lines_app, posts_app, Hwd, Hwp, Hd, Hq.
Qed.

End Rerun.

(** ** The checkpoint file *)

Section CheckpointProps.
Context {A : Type} (json_dump : A → list string).

Lemma apply_ops_app (ops1 ops2 : list file_op) (fs : gmap string string) :
  apply_ops (ops1 ++ ops2) fs = apply_ops ops2 (apply_ops ops1 fs).
Proof. apply foldl_app. Qed.

(** Writing the chunks to [tmp] touches no other file, and appends them. *)
Lemma apply_write_chunks (tmp : string) (chunks : list string)
    (fs : gmap string string) (s : string) :
  fs !! tmp = Some s →
  (∀ p, p ≠ tmp → apply_ops (WriteChunk tmp <$> chunks) fs !! p = fs !! p)
  ∧ apply_ops (WriteChunk tmp <$> chunks) fs !! tmp = Some (s +:+ join_chunks chunks).
Proof.
  revert fs s. induction chunks as [|c chunks IH]; intros fs s Hs.
  { split; [done|]. simpl. by rewrite string_app_nil_r. }
  change (apply_ops (WriteChunk tmp <$> c :: chunks) fs)
    with (apply_ops (WriteChunk tmp <$> chunks)
            (<[tmp := default "" (fs !! tmp) +:+ c]> fs)).
  rewrite Hs. simpl.
  destruct (IH (<[tmp := s +:+ c]> fs) (s +:+ c)) as [IHo IHt];
    [by rewrite lookup_insert_eq|].
  split.
  - intros p Hp. rewrite IHo by done. by rewrite lookup_insert_ne.
  - rewrite IHt. by rewrite string_app_assoc.
Qed.

(** C8: [save_json_atomic] first opens the temporary file, writes the whole
    serialization to it, and only as its last operation installs it over the
    checkpoint.  If the run stops after any number of operations short of
    that last one, the checkpoint file is as it was before the save; after
    the last one it holds the complete serialization. *)
Theorem save_json_atomic_keeps_checkpoint (path : string) (data : A)
    (fs : gmap string string) (k : nat) :
  let ops := save_json_atomic json_dump path data in
  (∃ before, ops = before ++ [OsReplace (path +:+ ".tmp") path]
             ∧ Forall (λ o, o = OpenForWriting (path +:+ ".tmp")
                            ∨ ∃ c, o = WriteChunk (path +:+ ".tmp") c) before)
  ∧ ((k < length ops)%nat → apply_ops (take k ops) fs !! path = fs !! path)
  ∧ apply_ops ops fs !! path = Some (join_chunks (json_dump data)).
Proof.
  intros ops. unfold ops, save_json_atomic.
  set (tmp := path +:+ ".tmp"). set (chunks := json_dump data).
  assert (tmp ≠ path) as Hne by apply tmp_path_differs.
  split; [|split].
  - exists (OpenForWriting tmp :: (WriteChunk tmp <$> chunks)). split; [done|].
    constructor; [by left|]. apply Forall_fmap, Forall_forall. intros c _.
    right. by exists c.
  - intros Hk. rewrite app_comm_cons, length_app in Hk. simpl in Hk.
    rewrite app_comm_cons, take_app_le by (simpl in *; lia).
    destruct k as [|k]; [done|]. simpl.
    change (apply_ops (take k (WriteChunk tmp <$> chunks)) (<[tmp := ""]> fs) !! path
            = fs !! path).
    rewrite <-fmap_take.
    destruct (apply_write_chunks tmp (take k chunks) (<[tmp := ""]> fs) "") as [Ho _];
      [by rewrite lookup_insert_eq|].
    rewrite Ho by done. by rewrite lookup_insert_ne.
  - rewrite app_comm_cons, apply_ops_app. simpl.
    change (apply_ops (OpenForWriting tmp :: (WriteChunk tmp <$> chunks)) fs)
      with (apply_ops (WriteChunk tmp <$> chunks) (<[tmp := ""]> fs)).
    destruct (apply_write_chunks tmp chunks (<[tmp := ""]> fs) "") as [_ Ht];
      [by rewrite lookup_insert_eq|].
    set (fs1 := apply_ops (WriteChunk tmp <$> chunks) (<[tmp := ""]> fs)) in *.
    change (apply_ops [OsReplace tmp path] fs1)
      with (match fs1 !! tmp with
            | Some content => <[path := content]> (delete tmp fs1)
            | None => fs1
            end).
    rewrite Ht. by rewrite lookup_insert_eq.
Qed.

End CheckpointProps.

(** ** Loading what was saved *)

Section RoundTrip.
Context {A : Type} (json_dump : A → list string) (json_load : string → option A).

(** X8: when the parser reads back what the serializer wrote, loading the
    checkpoint after a completed save returns the saved data; the save
    leaves no temporary file and touches no other file; and after a save
    that stopped before its last operation, loading returns what it returned
    before the save. *)
Theorem load_json_after_save (path : string) (data default : A)
    (fs : gmap string string) :
  Py.truthy path = true →
  json_load (join_chunks (json_dump data)) = Some data →
  load_json json_load (apply_ops (save_json_atomic json_dump path data) fs)
    path default = data
  ∧ apply_ops (save_json_atomic json_dump path data) fs !! (path +:+ ".tmp") = None
  ∧ (∀ p, p ≠ path → p ≠ path +:+ ".tmp" →
       apply_ops (save_json_atomic json_dump path data) fs !! p = fs !! p)
  ∧ (∀ k, (k < length (save_json_atomic json_dump path data))%nat →
       load_json json_load
         (apply_ops (take k (save_json_atomic json_dump path data)) fs) path default
       = load_json json_load fs path default).
Proof.
  intros Hpath Hload. unfold save_json_atomic.
  set (tmp := path +:+ ".tmp"). set (chunks := json_dump data).
  assert (tmp ≠ path) as Hne by apply tmp_path_differs.
  destruct (apply_write_chunks tmp chunks (<[tmp := ""]> fs) "") as [Ho Ht];
    [by rewrite lookup_insert_eq|].
  assert (apply_ops (OpenForWriting tmp :: (WriteChunk tmp <$> chunks)
                       ++ [OsReplace tmp path]) fs
          = <[path := join_chunks chunks]>
              (delete tmp (apply_ops (WriteChunk tmp <$> chunks) (<[tmp := ""]> fs))))
    as ->.
  { rewrite app_comm_cons, apply_ops_app.
    change (apply_ops (OpenForWriting tmp :: (WriteChunk tmp <$> chunks)) fs)
      with (apply_ops (WriteChunk tmp <$> chunks) (<[tmp := ""]> fs)).
    set (fs1 := apply_ops (WriteChunk tmp <$> chunks) (<[tmp := ""]> fs)) in *.
    change (apply_ops [OsReplace tmp path] fs1)
      with (match fs1 !! tmp with
            | Some content => <[path := content]> (delete tmp fs1)
            | None => fs1
            end).
    by rewrite Ht. }
  split; [|split; [|split]].
  - unfold load_json. rewrite Hpath. simpl. rewrite lookup_insert_eq.
    fold chunks in Hload. by rewrite Hload.
  - rewrite lookup_insert_ne by done. by rewrite lookup_delete_eq.
  - intros p Hp Hpt. rewrite lookup_insert_ne, lookup_delete_ne by done.
    rewrite Ho by done. by rewrite lookup_insert_ne.
  - intros k Hk. rewrite app_comm_cons, length_app in Hk. simpl in Hk.
    rewrite app_comm_cons, take_app_le by (simpl in *; lia).
    unfold load_json. rewrite Hpath. simpl.
    assert (apply_ops (take k (OpenForWriting tmp :: (WriteChunk tmp <$> chunks))) fs
              !! path = fs !! path) as ->; [|done].
    destruct k as [|k]; [done|]. simpl.
    change (apply_ops (take k (WriteChunk tmp <$> chunks)) (<[tmp := ""]> fs) !! path
            = fs !! path).
    rewrite <-fmap_take.
    destruct (apply_write_chunks tmp (take k chunks) (<[tmp := ""]> fs) "") as [Hk' _];
      [by rewrite lookup_insert_eq|].
    rewrite Hk' by done. by rewrite lookup_insert_ne.
Qed.

End RoundTrip.

(** X8: a save and a load on an empty file system, with texts as data. *)
Lemma load_json_after_save_witness :
  Py.truthy "state.json" = true
  ∧ load_json Scripted.load_text
      (apply_ops (save_json_atomic Scripted.dump_text "state.json" "{}") ∅)
      "state.json" "" = "{}".
Proof.
  split; [reflexivity|].
  exact (proj1 (load_json_after_save Scripted.dump_text Scripted.load_text
                  "state.json" "{}" "" ∅ eq_refl eq_refl)).
Defined.

(** ** The fields of an entry *)

Section Parse.
Context `{Host}.

(** X4: each of the four fields of each entry [parse_rss_items] returns is
    stripped of white space, as [str.strip] understands it (the ASCII white
    space and the Unicode spaces alike): its first and its last character are
    no white space, and stripping it again changes nothing. *)
Theorem parse_rss_items_stripped (xml_bytes : string) (items : list item) :
  parse_rss_items xml_bytes = Ok items →
  Forall (λ it, Forall (λ s, stripped s ∧ Py.strip s = s)
                  [title it; link it; pubDate it; description it])
    items.
Proof.
  unfold parse_rss_items, parse_rss_items_tree.
  destruct (ET_fromstring xml_bytes) as [root| |e]; [| |done].
  - destruct (parse_channel root) as [channel|]; intros [= <-]; [|constructor].
    apply Forall_fmap, Forall_forall. intros e _. simpl. unfold field.
    repeat (constructor; [split; [apply strip_stripped|apply strip_idem]|]).
    constructor.
  - intros [= <-]. constructor.
Qed.

End Parse.

(** ** Concrete runs *)

Section Runs.
Import Scripted.

(** The identifier in a link, on three links: an ASCII identifier followed
    by [#]; an identifier followed by the letter U+00E9, where the pattern
    finds no word boundary; an identifier written in Arabic-Indic digits. *)
Lemma extract_tweet_id_examples :
  @extract_tweet_id jack_host "https://nitter.net/jack/status/101#m" = Some "101"
  ∧ @extract_tweet_id jack_host ("https://nitter.net/jack/status/101" +:+ e_acute) = None
  ∧ @extract_tweet_id jack_host
      ("https://nitter.net/jack/status/" +:+ Py.of_bytes [217; 161; 217; 160]%N +:+ "?s=20")
    = Some (Py.of_bytes [217; 161; 217; 160]%N)
  ∧ @py_int jack_host (Py.of_bytes [217; 161; 217; 160]%N) = Some 10.
Proof. repeat split; by vm_compute. Qed.

(** C1, counterexample: three new entries, the delivery of the second is
    refused.  The loop goes on to the third entry, submits it and prints its
    [[sent]] line, and the watermark becomes the identifier of the third
    entry, not of the first; a later processing from that checkpoint attempts
    nothing, so that the second entry is never delivered. *)
Lemma delivery_goes_on_after_failure :
  delivery_lines
    (@process_account jack_host wecom ["https://nitter.net"] "jack" no_users
       [accepted; rejected; accepted]).1.2
  = [(Some "101", true); (Some "102", false); (Some "103", true)]
  ∧ (posts
       (@process_account jack_host wecom ["https://nitter.net"] "jack" no_users
          [accepted; rejected; accepted]).1.2).*2
    = [ Response 200 (body_errcode 0); Response 200 (body_errcode 40008);
        Response 200 (body_errcode 0) ]
  ∧ (@process_account jack_host wecom ["https://nitter.net"] "jack" no_users
       [accepted; rejected; accepted]).2
    = Ok (jack_at "103")
  ∧ (@process_account jack_host wecom ["https://nitter.net"] "jack" (jack_at "103")
       [accepted]).1.2
    = [ Request (Get "https://nitter.net/jack/rss") (Response 200 (render feed_jack));
        Print (InfoNoNewTweets "jack") ]
  ∧ ¬ @halts_at_first_failure jack_host wecom ["https://nitter.net"] "jack" no_users
        [accepted; rejected; accepted].
Proof.
  split; [by vm_compute|]. split; [by vm_compute|]. split; [by vm_compute|].
  split; [by vm_compute|].
  intros [Hhalt _].
  specialize (Hhalt [(Some "101", true)] (Some "102") [(Some "103", true)] eq_refl).
  by apply Forall_inv in Hhalt.
Qed.

(** C3, counterexample: the account has a record, in which no [last_id] is
    stored.  Line 316 gives the text [None], [int()] does not read it, and
    the filter raises [ValueError] instead of keeping the three entries. *)
Lemma missing_last_id_raises :
  obj_get "last_id" record_without_last_id = None
  ∧ @new_items_of jack_host (UsersDict {[ "jack" := JObj record_without_last_id ]})
      "jack" jack_items
    = Raise ValueError
  ∧ (@process_account jack_host wecom ["https://nitter.net"] "jack"
       (UsersDict {[ "jack" := JObj record_without_last_id ]}) [accepted]).2
    = Raise ValueError
  ∧ ¬ @keeps_all_without_last_id jack_host record_without_last_id "jack" jack_items.
Proof.
  split; [done|]. split; [by vm_compute|]. split; [by vm_compute|].
  intros Hkeep. specialize (Hkeep eq_refl). by vm_compute in Hkeep.
Qed.


(** C5, on a feed dated the way RSS dates entries: the fetch returns the
    entry of Friday 5 January before the entry of Monday 1 January, and the
    pass delivers them in that order, the newer entry first, and leaves the
    watermark at the older entry. *)
Theorem rss_dates_sorted_as_text :
  (@fetch_latest_from_nitter rss_dates_host ["https://nitter.net"] "jack" []).2
  = Ok [ Item "new" "https://nitter.net/jack/status/202#m"
           "Fri, 05 Jan 2024 10:00:00 GMT" "";
         Item "old" "https://nitter.net/jack/status/201#m"
           "Mon, 01 Jan 2024 10:00:00 GMT" "" ]
  ∧ delivery_lines
      (@process_account rss_dates_host wecom ["https://nitter.net"] "jack" no_users
         [accepted; accepted]).1.2
    = [(Some "202", true); (Some "201", true)]
  ∧ (@process_account rss_dates_host wecom ["https://nitter.net"] "jack" no_users
       [accepted; accepted]).2
    = Ok (jack_at "201").
Proof. repeat split; by vm_compute. Qed.

(** C6, counterexample: the channel answers with status 201 and a body that
    reports [errcode] 0; [push_wecom] returns [False]. *)
Lemma push_wecom_rejects_201 :
  (@push_wecom jack_host "https://qyapi.example/send" "hello"
     [(201, body_errcode 0)]).2 = Ok false
  ∧ ¬ @push_wecom_true_iff_2xx jack_host "https://qyapi.example/send" "hello"
        [(201, body_errcode 0)].
Proof.
  split; [by vm_compute|]. intros Hclaim.
  destruct (Hclaim 201 (body_errcode 0) eq_refl) as [_ Hback].
  assert ((@push_wecom jack_host "https://qyapi.example/send" "hello"
             [(201, body_errcode 0)]).2 = Ok true) as Htrue.
  { apply Hback. split; [lia|].
    exists [("errcode", JVal (PInt 0))], (JVal (PInt 0)). by vm_compute. }
  by vm_compute in Htrue.
Qed.

(** C7, counterexample: the checkpoint holds [null] as the account's
    [last_id], and the feed has entries; the processing of the account raises
    [ValueError]. *)
Lemma null_last_id_raises :
  (@process_account jack_host wecom ["https://nitter.net"] "jack" jack_at_null []).2
  = Raise ValueError
  ∧ ¬ ∃ users_state',
        (@process_account jack_host wecom ["https://nitter.net"] "jack" jack_at_null
           []).2 = Ok users_state'.
Proof.
  assert ((@process_account jack_host wecom ["https://nitter.net"] "jack"
             jack_at_null []).2 = Raise ValueError) as Hraise by (by vm_compute).
  split; [done|]. intros [users_state' Hok]. congruence.
Qed.

(** C9, on the feed dated the way RSS dates entries, with a channel that
    confirms every delivery: both passes are served the same feed; the first
    pass delivers 202 and then 201 and writes 201 as the watermark; the
    second pass, from that checkpoint, delivers 202 a second time. *)
Theorem second_pass_sends_again :
  (∀ w, (@fetch_latest_from_nitter rss_dates_host ["https://nitter.net"] "jack" w).2
        = Ok rss_dates_items)
  ∧ (λ p, delivery_lines p.1)
      <$> @daemon rss_dates_host (wecom_cfg ["jack"]) 2 empty_state
            [accepted; accepted; accepted]
    = [ [(Some "202", true); (Some "201", true)]; [(Some "202", true)] ]
  ∧ (λ p, st_users p.2)
      <$> @daemon rss_dates_host (wecom_cfg ["jack"]) 2 empty_state
            [accepted; accepted; accepted]
    = [ jack_at "201"; jack_at "202" ].
Proof.
  split; [intros w; by vm_compute|]. split; by vm_compute.
Qed.

End Runs.

(** ** The theorems at concrete inputs *)

Section Witnesses.
Import Scripted.

Lemma scripted_transport_reports (feeds : list (string * xml)) :
  @transport_reports (host feeds).
Proof.
  intros r w. destruct r as [url|url payload|url form]; cbn.
  - destruct (List.find _ feeds); by eexists.
  - destruct w as [|[code body] w']; by eexists.
  - destruct w as [|[code body] w']; by eexists.
Qed.

Lemma scripted_parser_reports (scripted : list (string * outcome))
    (feeds : list (string * xml)) :
  @parser_reports (host_with scripted feeds).
Proof. intros body e. cbn. by destruct (List.find _ feeds). Qed.

Lemma jack_ids_readable : @ids_readable jack_host jack_items.
Proof.
  intros it tid Hin Hx. unfold jack_items in Hin.
  repeat (apply elem_of_cons in Hin as [->|Hin];
          [vm_compute in Hx; injection Hx as <-; by eexists|]).
  by apply elem_of_nil in Hin.
Qed.

(** C1: the run with a refused second delivery returns; it has submitted one
    request per entry and printed one outcome line per entry, and the record
    it leaves for the account is the one written for the last confirmed
    entry. *)
Lemma delivery_attempts_witness :
  (@process_account jack_host wecom ["https://nitter.net"] "jack" no_users
     [accepted; rejected; accepted]).2
  = Ok (jack_at "103")
  ∧ ∃ new,
      (posts
         (@process_account jack_host wecom ["https://nitter.net"] "jack" no_users
            [accepted; rejected; accepted]).1.2).*1
      = omap (@post_of jack_host wecom "jack") new
      ∧ length
          (delivery_lines
             (@process_account jack_host wecom ["https://nitter.net"] "jack" no_users
                [accepted; rejected; accepted]).1.2)
        = length new.
Proof.
  assert ((@process_account jack_host wecom ["https://nitter.net"] "jack" no_users
             [accepted; rejected; accepted]).2
          = Ok (jack_at "103")) as Hok
    by (vm_compute; reflexivity).
  split; [exact Hok|].
  destruct (@delivery_attempts_all_and_keeps_last_sent jack_host wecom
              ["https://nitter.net"] "jack" no_users _ [accepted; rejected; accepted] Hok)
    as (items & new & _ & _ & Hposts & _ & _ & Hlen & _).
  exists new. split; [exact Hposts|exact Hlen].
Defined.


(** C3: the feed of three entries against a checkpoint at 101: the second
    and the third entry are kept. *)
Lemma watermark_filter_witness :
  @new_items_of jack_host jack_at_101 "jack" jack_items
  = Ok [ Item "two" "https://nitter.net/jack/status/102#m" "2024-01-02T10:00:00Z" "";
         Item "three" "https://nitter.net/jack/status/103#m" "2024-01-03T10:00:00Z" "" ].
Proof.
  exact (proj1 (proj2 (@watermark_filter jack_host {[ "jack" := record_of "101" ]}
                         "jack" jack_items))
           [("last_id", JVal (PStr "101"))] (JVal (PStr "101")) "101" 101
           eq_refl eq_refl eq_refl eq_refl jack_ids_readable).
Defined.


Lemma jack_at_101_well_stored : @well_stored jack_host jack_at_101 "jack".
Proof.
  unfold well_stored, jack_at_101, jack_at. rewrite lookup_singleton_eq. right.
  exists [("last_id", JVal (PStr "101"))], (JVal (PStr "101")), "101".
  repeat split. by eexists.
Qed.

(** C7: the processing of the account from a checkpoint at 101. *)
Lemma process_account_returns_witness :
  @transport_reports jack_host
  ∧ @parser_reports jack_host
  ∧ @well_stored jack_host jack_at_101 "jack"
  ∧ ∃ users_state',
      (@process_account jack_host wecom ["https://nitter.net"] "jack" jack_at_101
         [accepted; accepted]).2 = Ok users_state'
      ∧ ∀ u, @well_stored jack_host jack_at_101 u →
             @well_stored jack_host users_state' u.
Proof.
  assert (∀ items,
            (@fetch_latest_from_nitter jack_host ["https://nitter.net"] "jack"
               [accepted; accepted]).2 = Ok items →
            @ids_readable jack_host items) as Hread.
  { intros items Hf. vm_compute in Hf. injection Hf as <-. exact jack_ids_readable. }
  split; [exact (scripted_transport_reports _)|].
  split; [exact (scripted_parser_reports _ _)|].
  split; [exact jack_at_101_well_stored|].
  exact (@process_account_returns jack_host wecom ["https://nitter.net"] "jack"
           jack_at_101 [accepted; accepted] (scripted_transport_reports _)
           (scripted_parser_reports _ _) Hread jack_at_101_well_stored).
Defined.

(** X4: a feed whose fields are padded with spaces, a tab, a line feed and
    no-break spaces. *)
Lemma parse_rss_items_stripped_witness :
  @parse_rss_items padded_host (render feed_padded)
  = Ok [ Item "padded title" "https://nitter.net/jack/status/301#m"
              "2024-01-01T10:00:00Z" "" ]
  ∧ Forall (λ it, Forall (λ s, stripped s ∧ Py.strip s = s)
                    [title it; link it; pubDate it; description it])
      [ Item "padded title" "https://nitter.net/jack/status/301#m"
             "2024-01-01T10:00:00Z" "" ].
Proof.
  assert (@parse_rss_items padded_host (render feed_padded)
          = Ok [ Item "padded title" "https://nitter.net/jack/status/301#m"
                      "2024-01-01T10:00:00Z" "" ]) as Hparse
    by (vm_compute; reflexivity).
  split; [exact Hparse|].
  exact (@parse_rss_items_stripped padded_host (render feed_padded) _ Hparse).
Defined.

(** X9: a pass over one account from a checkpoint that holds two. *)
Lemma run_once_frame_witness :
  (@run_once jack_host (wecom_cfg ["jack"]) (State numeric_checkpoint None)
     [accepted]).2
  = Ok (State (UsersDict {[ "jack" := record_of "103";
                            "jill" := JObj [("last_id", JVal (PStr "7"))] ]})
              (Some "2024-01-06T00:00:00Z"))
  ∧ (∀ u, u ∉ ["jack"] →
       ({[ "jack" := record_of "103";
           "jill" := JObj [("last_id", JVal (PStr "7"))] ]} : gmap string json) !! u
       = ({[ "jack" := JObj [("last_id", JVal (PInt 102))];
             "jill" := JObj [("last_id", JVal (PStr "7"))] ]} : gmap string json) !! u)
  ∧ Some "2024-01-06T00:00:00Z"
    = Some (@utcnow_isoformat jack_host
              (@run_once jack_host (wecom_cfg ["jack"]) (State numeric_checkpoint None)
                 [accepted]).1.1 +:+ "Z").
Proof.
  assert ((@run_once jack_host (wecom_cfg ["jack"]) (State numeric_checkpoint None)
             [accepted]).2
          = Ok (State (UsersDict {[ "jack" := record_of "103";
                                    "jill" := JObj [("last_id", JVal (PStr "7"))] ]})
                      (Some "2024-01-06T00:00:00Z"))) as Hok
    by (vm_compute; reflexivity).
  split; [exact Hok|].
  pose proof (@run_once_frame jack_host (wecom_cfg ["jack"])
                (State numeric_checkpoint None) _ [accepted] Hok) as (_ & Hout & Hat).
  split; [|exact Hat].
  intros u Hu. exact (Hout _ _ u eq_refl eq_refl Hu).
Defined.

(** X10: a pass with the JSON channel selected and no webhook. *)
Lemma run_once_unconfigured_witness :
  @configured (@channel_of jack_host (no_webhook_cfg ["jack"])) = false
  ∧ sent_ids (@run_once jack_host (no_webhook_cfg ["jack"]) empty_state []).1.2 = []
  ∧ Forall (λ r, is_post r = false)
      (requests (@run_once jack_host (no_webhook_cfg ["jack"]) empty_state []).1.2).
Proof.
  split; [reflexivity|].
  pose proof (@run_once_unconfigured jack_host (no_webhook_cfg ["jack"])
                empty_state [] eq_refl) as (Hq & Hs & _).
  split; [exact Hs|exact Hq].
Defined.

Lemma offline_all_mirrors_down : @all_mirrors_down offline_host.
Proof. intros url w. exists (0, ""). split; reflexivity. Qed.

(** X12: a pass on the host that serves no feed, from a checkpoint whose
    [last_id] is [null]. *)
Lemma run_once_outage_witness :
  @all_mirrors_down offline_host
  ∧ requests (@run_once offline_host (wecom_cfg ["jack"; "jill"])
                (State jack_at_null None) []).1.2
    = [ Get "https://nitter.net/jack/rss"; Get "https://nitter.net/jill/rss" ].
Proof.
  split; [exact offline_all_mirrors_down|].
  exact (proj1 (proj2 (@run_once_outage offline_host (wecom_cfg ["jack"; "jill"])
                         (State jack_at_null None) [] offline_all_mirrors_down))).
Defined.

(** X13: the checkpoint that stores 102 as a number: line 316 gives the text
    [102], the watermark is 102, and of the three entries the third is
    kept. *)
Lemma integer_last_id_is_read_witness :
  @last_id_of jack_host numeric_checkpoint "jack" = Ok (Some "102")
  ∧ @py_int jack_host "102" = Some 102
  ∧ @watermark jack_host numeric_checkpoint "jack" = Some 102
  ∧ (@ids_readable jack_host jack_items →
     @new_items_of jack_host numeric_checkpoint "jack" jack_items
     = Ok [ Item "three" "https://nitter.net/jack/status/103#m"
                 "2024-01-03T10:00:00Z" "" ]).
Proof.
  exact (@integer_last_id_is_read jack_host
           {[ "jack" := JObj [("last_id", JVal (PInt 102))];
              "jill" := JObj [("last_id", JVal (PStr "7"))] ]}
           "jack" [("last_id", JVal (PInt 102))] 102 jack_items
           eq_refl eq_refl eq_refl).
Defined.

(** X14: the feed with RSS dates on a first run: the filter keeps both
    entries, in the order of the fetch, and the second sort leaves them
    so. *)
Lemma second_sort_changes_nothing_witness :
  (@fetch_latest_from_nitter rss_dates_host ["https://nitter.net"] "jack" []).2
  = Ok rss_dates_items
  ∧ @select_new_items rss_dates_host None rss_dates_items = Ok rss_dates_items
  ∧ sort_by_pubDate rss_dates_items = rss_dates_items.
Proof.
  assert ((@fetch_latest_from_nitter rss_dates_host ["https://nitter.net"] "jack" []).2
          = Ok rss_dates_items) as Hfetch by (vm_compute; reflexivity).
  assert (@select_new_items rss_dates_host None rss_dates_items = Ok rss_dates_items)
    as Hsel by (vm_compute; reflexivity).
  split; [exact Hfetch|]. split; [exact Hsel|].
  exact (@second_sort_changes_nothing rss_dates_host ["https://nitter.net"] "jack" []
           rss_dates_items rss_dates_items None Hfetch Hsel).
Defined.

Lemma scripted_source_unchanged (scripted : list (string * outcome))
    (feeds : list (string * xml)) :
  @unchanged_source (host_with scripted feeds).
Proof.
  intros url w w'. unfold probe. cbn.
  destruct (List.find _ scripted); [done|]. by destruct (List.find _ feeds).
Qed.

Lemma jack_source_unchanged : @unchanged_source jack_host.
Proof. apply scripted_source_unchanged. Qed.

Lemma jack_ids_ascend (username : string) (w : @World jack_host) (items : list item) :
  username ∈ default [] (cfg_users (wecom_cfg ["jack"])) →
  (@fetch_latest_from_nitter jack_host
     (default default_instances (cfg_nitter_instances (wecom_cfg ["jack"])))
     username w).2 = Ok items →
  @ids_readable jack_host items ∧ @ids_ascend jack_host items = true.
Proof.
  intros ->%list_elem_of_singleton Hf. vm_compute in Hf. injection Hf as <-.
  split; [exact jack_ids_readable|by vm_compute].
Qed.

(** X15: a first pass in which the three deliveries are confirmed, and a
    second pass from its checkpoint. *)
Lemma rerun_delivers_nothing_witness :
  @unchanged_source jack_host
  ∧ @run_once jack_host (wecom_cfg ["jack"]) empty_state [accepted; accepted; accepted]
    = ([],
       (@run_once jack_host (wecom_cfg ["jack"]) empty_state
          [accepted; accepted; accepted]).1.2,
       Ok (State (jack_at "103") (Some "2024-01-06T00:00:00Z")))
  ∧ delivery_lines
      (@run_once jack_host (wecom_cfg ["jack"]) empty_state
         [accepted; accepted; accepted]).1.2
    = [(Some "101", true); (Some "102", true); (Some "103", true)]
  ∧ ∃ st2,
      (@run_once jack_host (wecom_cfg ["jack"])
         (State (jack_at "103") (Some "2024-01-06T00:00:00Z")) []).2 = Ok st2
      ∧ st_users st2 = jack_at "103"
      ∧ delivery_lines
          (@run_once jack_host (wecom_cfg ["jack"])
             (State (jack_at "103") (Some "2024-01-06T00:00:00Z")) []).1.2 = []
      ∧ posts
          (@run_once jack_host (wecom_cfg ["jack"])
             (State (jack_at "103") (Some "2024-01-06T00:00:00Z")) []).1.2 = [].
Proof.
  assert (@run_once jack_host (wecom_cfg ["jack"]) empty_state
            [accepted; accepted; accepted]
          = ([],
             (@run_once jack_host (wecom_cfg ["jack"]) empty_state
                [accepted; accepted; accepted]).1.2,
             Ok (State (jack_at "103") (Some "2024-01-06T00:00:00Z")))) as Hrun
    by (vm_compute; reflexivity).
  assert (delivery_lines
            (@run_once jack_host (wecom_cfg ["jack"]) empty_state
               [accepted; accepted; accepted]).1.2
          = [(Some "101", true); (Some "102", true); (Some "103", true)]) as Hlines
    by (vm_compute; reflexivity).
  assert (Forall (λ line : option string * bool, line.2 = true)
            (delivery_lines
               (@run_once jack_host (wecom_cfg ["jack"]) empty_state
                  [accepted; accepted; accepted]).1.2)) as Hall
    by (rewrite Hlines; repeat constructor).
  split; [exact jack_source_unchanged|]. split; [exact Hrun|]. split; [exact Hlines|].
  exact (@rerun_delivers_nothing jack_host (wecom_cfg ["jack"]) empty_state _ _ _ _ []
           jack_source_unchanged jack_ids_ascend Hrun Hall).
Defined.

End Witnesses.
